(** * Service proxy of the API gateway template

    A shallow embedding of [api-gateway-template/src/utils/serviceProxy.ts]
    (class [ServiceProxy], [aggregateServiceData], [enrichData]) and of the
    two functions of [api-gateway-template/src/errors/index.ts] it calls.

    JavaScript numbers that hold HTTP statuses, retry counts and
    milliseconds are integers of [Z]; objects used as dictionaries are
    [gmap]s over their own keys; [undefined] fields are [None]. An object
    that is written or tested under a computed key also has its prototype,
    and a table read under a computed key also gives what it inherits,
    since such a key can name a member of [Object.prototype]. *)

From Stdlib Require Import ZArith String Ascii List Lia.
From stdpp Require Import gmap strings list fin_maps.
From Equations Require Import Equations.

Local Open Scope string_scope.
Local Open Scope Z_scope.

(** ** JavaScript values and strings *)

(** Objects live in a store and are named by a location; a value is a
    primitive or a reference, so that copying a record copies references. *)
Definition loc := positive.

Inductive Value :=
| VUndefined
| VNull
| VBool (b : bool)
| VNum (n : Z)
| VStr (s : string)
| VRef (l : loc).

(** [String.prototype.includes]. *)
Fixpoint includes (needle s : string) : bool :=
  if String.prefix needle s then true
  else match s with
       | EmptyString => false
       | String _ rest => includes needle rest
       end.

(** [String.prototype.toLowerCase] on the ASCII letters. *)
Definition lower_ascii (c : ascii) : ascii :=
  let n := nat_of_ascii c in
  if ((65 <=? n) && (n <=? 90))%nat then ascii_of_nat (n + 32) else c.

Fixpoint toLowerCase (s : string) : string :=
  match s with
  | EmptyString => EmptyString
  | String c rest => String (lower_ascii c) (toLowerCase rest)
  end.

(** Truthiness of a number and of a string. *)
Definition truthy_num (n : Z) : bool := negb (n =? 0).

Definition truthy_str (s : string) : bool :=
  match s with EmptyString => false | String _ _ => true end.

(** [x || d] for an optional number and for an optional string. *)
Definition num_or (x : option Z) (d : Z) : Z :=
  match x with
  | Some n => if truthy_num n then n else d
  | None => d
  end.

Definition str_or (x : option string) (d : string) : string :=
  match x with
  | Some s => if truthy_str s then s else d
  | None => d
  end.

(** ** errors/index.ts *)

Module ERROR_CODES.
Definition VALIDATION_ERROR := "VALIDATION_ERROR".
Definition CAST_ERROR := "CAST_ERROR".
Definition AUTH_REQUIRED := "AUTH_REQUIRED".
Definition INVALID_TOKEN := "INVALID_TOKEN".
Definition FORBIDDEN := "FORBIDDEN".
Definition NOT_FOUND := "NOT_FOUND".
Definition METHOD_NOT_ALLOWED := "METHOD_NOT_ALLOWED".
Definition CONFLICT := "CONFLICT".
Definition DUPLICATE_KEY := "DUPLICATE_KEY".
Definition RATE_LIMITED := "RATE_LIMITED".
Definition INTERNAL := "INTERNAL".
Definition SERVICE_UNAVAILABLE := "SERVICE_UNAVAILABLE".
Definition TIMEOUT := "TIMEOUT".
Definition GATEWAY_ERROR := "GATEWAY_ERROR".
End ERROR_CODES.

Definition mapStatusToDefaultCode (status : Z) : string :=
  if status =? 400 then ERROR_CODES.VALIDATION_ERROR
  else if status =? 401 then ERROR_CODES.AUTH_REQUIRED
  else if status =? 403 then ERROR_CODES.FORBIDDEN
  else if status =? 404 then ERROR_CODES.NOT_FOUND
  else if status =? 405 then ERROR_CODES.METHOD_NOT_ALLOWED
  else if status =? 409 then ERROR_CODES.CONFLICT
  else if status =? 429 then ERROR_CODES.RATE_LIMITED
  else if status =? 500 then ERROR_CODES.INTERNAL
  else if status =? 502 then ERROR_CODES.GATEWAY_ERROR
  else if status =? 503 then ERROR_CODES.SERVICE_UNAVAILABLE
  else if status =? 504 then ERROR_CODES.TIMEOUT
  else if status >=? 500 then ERROR_CODES.INTERNAL
  else ERROR_CODES.VALIDATION_ERROR.

Definition deriveCodeFromMessage (message : string) (status : option Z) : string :=
  if negb (truthy_str message) then mapStatusToDefaultCode (num_or status 500)
  else
    let lowerMessage := toLowerCase message in
    if includes "duplicate" lowerMessage || includes "e11000" lowerMessage
    then ERROR_CODES.DUPLICATE_KEY
    else if includes "validation" lowerMessage || includes "invalid" lowerMessage
    then ERROR_CODES.VALIDATION_ERROR
    else if includes "not found" lowerMessage || includes "missing" lowerMessage
    then ERROR_CODES.NOT_FOUND
    else if includes "timeout" lowerMessage || includes "etimedout" lowerMessage
    then ERROR_CODES.TIMEOUT
    else if includes "unauthorized" lowerMessage || includes "auth" lowerMessage
    then ERROR_CODES.AUTH_REQUIRED
    else if includes "forbidden" lowerMessage || includes "access denied" lowerMessage
    then ERROR_CODES.FORBIDDEN
    else if includes "rate limit" lowerMessage || includes "too many" lowerMessage
    then ERROR_CODES.RATE_LIMITED
    else mapStatusToDefaultCode (num_or status 500).

(** [AppError]: the constructor fills [status] with
    [status || STATUS_BY_CODE[code] || 500]; [GatewayError] passes 502. *)
Record AppError := mkAppError {
  app_name : string;
  app_message : string;
  app_code : string;
  app_status : Z;
  isOperational : bool;
  details : option Value
}.

Definition GatewayError (message : string) : AppError :=
  {| app_name := "GatewayError";
     app_message := message;
     app_code := ERROR_CODES.GATEWAY_ERROR;
     app_status := 502;
     isOperational := true;
     details := None |}.

(** ** types/index.ts *)

Module ServiceProxyConfig.
Record t := mk {
  baseUrl : string;
  timeout : Z;
  retries : Z;
  headers : gmap string string
}.
End ServiceProxyConfig.

Module ServiceProxyResponse.
Record t := mk {
  data : Value;
  status : Z;
  headers : gmap string string;
  responseTime : Z
}.
End ServiceProxyResponse.

(** The [response] field of an error: what the backend answered. An
    answer the transport client received always has a status. *)
Module ErrorResponse.
Record t := mk {
  data : Value;
  status : Z;
  headers : gmap string string
}.
End ErrorResponse.

(** [ServiceProxyError]. The same shape serves for the failure the
    transport raises (which the source types [any] and reads through
    [code], [message] and [response]): every field is optional. *)
Module ServiceProxyError.
Record t := mk {
  message : option string;
  status : option Z;
  code : option string;
  response : option ErrorResponse.t;
  isTimeout : option bool;
  isNetworkError : option bool
}.
End ServiceProxyError.

(** ** The transport client (axios) *)

Module AxiosRequestConfig.
Record t := mk {
  method : string;
  url : string;
  data : option Value;
  params : option (gmap string Value);
  timeout : Z
}.
End AxiosRequestConfig.

Module AxiosResponse.
Record t := mk {
  data : Value;
  status : Z;
  headers : gmap string string
}.
End AxiosResponse.

(** What the network does with the [n]-th physical request it is handed
    (counting from 0): an answer or a failure, after [latency] ms. The
    network is the external collaborator; it is a parameter throughout. *)
Record Reply := mkReply {
  outcome : AxiosResponse.t + ServiceProxyError.t;
  latency : Z
}.

Definition Adapter := nat -> AxiosRequestConfig.t -> Reply.

(** The defaults handed to [axios.create]. *)
Record AxiosDefaults := mkDefaults {
  baseURL : string;
  default_timeout : Z;
  default_headers : gmap string string
}.

(** An axios instance: its defaults, the network behind it, and the error
    handler of its response interceptors ([id] when none is registered).
    The request interceptor of the source only adds the headers
    [X-Gateway-Service], [X-Request-ID] and [X-Timestamp] to the outgoing
    request; it has no part in the control flow and is left out. *)
Record AxiosInstance := mkInstance {
  defaults : AxiosDefaults;
  adapter : Adapter;
  onRejected : ServiceProxyError.t -> ServiceProxyError.t
}.

Definition axios_create (net : Adapter) (d : AxiosDefaults) : AxiosInstance :=
  {| defaults := d; adapter := net; onRejected := fun e => e |}.

(** [instance.interceptors.response.use(response => response, h)]. *)
Definition interceptors_response_use
    (h : ServiceProxyError.t -> ServiceProxyError.t) (i : AxiosInstance) : AxiosInstance :=
  {| defaults := defaults i;
     adapter := adapter i;
     onRejected := fun e => h (onRejected i e) |}.

(** ** The world: clock and observable effects *)

Inductive Event :=
| EvRequest (c : AxiosRequestConfig.t)
| EvSleep (ms : Z).

Record World := mkWorld {
  now : Z;
  log : list Event
}.

Definition is_request (e : Event) : bool :=
  match e with EvRequest _ => true | EvSleep _ => false end.

(** Number of physical requests issued so far. *)
Definition issued (w : World) : nat := length (List.filter is_request (log w)).

(** What the promise of the [n]-th physical request settles with: the
    answer, or the failure as the response interceptors hand it on. *)
Definition settled (i : AxiosInstance) (n : nat) (c : AxiosRequestConfig.t)
  : AxiosResponse.t + ServiceProxyError.t :=
  match outcome (adapter i n c) with
  | inl response => inl response
  | inr error => inr (onRejected i error)
  end.

(** [await instance.request(config)]. *)
Definition axios_request (i : AxiosInstance) (c : AxiosRequestConfig.t) (w : World)
  : (AxiosResponse.t + ServiceProxyError.t) * World :=
  let n := issued w in
  (settled i n c,
   {| now := now w + latency (adapter i n c); log := log w ++ [EvRequest c] |}).

(** [await instance.get(url, { timeout })]. *)
Definition axios_get (i : AxiosInstance) (url : string) (timeout : Z) (w : World)
  : (AxiosResponse.t + ServiceProxyError.t) * World :=
  axios_request i
    {| AxiosRequestConfig.method := "get";
       AxiosRequestConfig.url := url;
       AxiosRequestConfig.data := None;
       AxiosRequestConfig.params := None;
       AxiosRequestConfig.timeout := timeout |} w.

(** [await this.sleep(ms)]: the timer is taken to fire after exactly [ms]. *)
Definition sleep (ms : Z) (w : World) : World :=
  {| now := now w + ms; log := log w ++ [EvSleep ms] |}.

(** ** class ServiceProxy *)

Record ServiceProxy := mkProxy {
  axiosInstance : AxiosInstance;
  serviceName : string;
  config : ServiceProxyConfig.t
}.

(** [transformError]. *)
Definition transformError (serviceName : string) (error : ServiceProxyError.t)
  : ServiceProxyError.t :=
  let code_is c :=
    match ServiceProxyError.code error with
    | Some c' => String.eqb c' c
    | None => false
    end in
  let message_includes s :=
    match ServiceProxyError.message error with
    | Some m => includes s m
    | None => false
    end in
  let finish message status response isTimeout isNetworkError :=
    {| ServiceProxyError.message := Some message;
       ServiceProxyError.status := Some status;
       ServiceProxyError.code := Some (deriveCodeFromMessage message (Some status));
       ServiceProxyError.response := response;
       ServiceProxyError.isTimeout := isTimeout;
       ServiceProxyError.isNetworkError := isNetworkError |} in
  if code_is "ECONNREFUSED" || code_is "ENOTFOUND" then
    finish ("Service " ++ serviceName ++ " is unavailable") 503 None None (Some true)
  else if code_is "ETIMEDOUT" || message_includes "timeout" then
    finish ("Request to " ++ serviceName ++ " timed out") 504 None (Some true) None
  else
    match ServiceProxyError.response error with
    | Some r =>
        finish (str_or (ServiceProxyError.message error) "Service request failed")
               (ErrorResponse.status r)
               (Some {| ErrorResponse.data := ErrorResponse.data r;
                        ErrorResponse.status := ErrorResponse.status r;
                        ErrorResponse.headers := ErrorResponse.headers r |})
               None None
    | None =>
        finish (str_or (ServiceProxyError.message error) "Unknown service error")
               502 None None None
    end.

(** The constructor: [axios.create] with the configured defaults, then
    [setupInterceptors]. [net] is the network the created instance talks to. *)
Definition ServiceProxy_new (net : Adapter) (serviceName : string)
    (serviceConfig : ServiceProxyConfig.t) : ServiceProxy :=
  let instance :=
    axios_create net
      {| baseURL := ServiceProxyConfig.baseUrl serviceConfig;
         default_timeout := ServiceProxyConfig.timeout serviceConfig;
         default_headers := ServiceProxyConfig.headers serviceConfig |} in
  {| axiosInstance := interceptors_response_use (transformError serviceName) instance;
     serviceName := serviceName;
     config := serviceConfig |}.

(** A method runs against the proxy object ([this]) and the world, and
    hands both back: nothing in the model forbids a method to write to
    [this], so that a method leaves it alone is a theorem. *)
Record ProxyState := mkState {
  self : ServiceProxy;
  world : World
}.

Definition with_world (s : ProxyState) (w : World) : ProxyState :=
  {| self := self s; world := w |}.

(** What a call ends with. A thrown value is either an error object as the
    transport client rejected with, or an [AppError]; both are objects, so
    reading [message] off a caught value never fails. *)
Inductive Thrown :=
| ThrowError (e : ServiceProxyError.t)
| ThrowApp (e : AppError).

Inductive Completion (A : Type) :=
| Resolved (a : A)
| Rejected (e : Thrown).
Arguments Resolved {A} a.
Arguments Rejected {A} e.

Definition thrown_message (t : Thrown) : option string :=
  match t with
  | ThrowError e => ServiceProxyError.message e
  | ThrowApp e => Some (app_message e)
  end.

(** The options of [request]. *)
Record RequestOptions := mkOptions {
  opt_data : option Value;
  opt_params : option (gmap string Value);
  opt_retries : option Z;
  opt_timeout : option Z
}.

Definition no_options : RequestOptions :=
  {| opt_data := None; opt_params := None; opt_retries := None; opt_timeout := None |}.

(** The two local variables of the retry loop. *)
Record Loop := mkLoop {
  attempt : Z;
  lastError : option ServiceProxyError.t
}.

(** The test that stops retrying: [lastError.status && (lastError.status < 500
    || lastError.status === 501 || lastError.status === 505)]. *)
Definition nonRetryable (error : ServiceProxyError.t) : bool :=
  match ServiceProxyError.status error with
  | Some status =>
      truthy_num status && ((status <? 500) || (status =? 501) || (status =? 505))
  | None => false
  end.

(** [Math.min(1000 * Math.pow(2, attempt - 1), 5000)]. The loop only
    computes it for [attempt >= 1], where the power is an integer. *)
Definition backoffDelay (attempt : Z) : Z :=
  Z.min (1000 * 2 ^ (attempt - 1)) 5000.

(** How one pass through the body of [while (attempt <= retries)] ends. *)
Inductive Control :=
| CReturn (r : ServiceProxyResponse.t)
| CBreak (l : Loop)
| CNext (l : Loop).

(** The body of the loop: [try { ... return } catch (error) { ... }]. *)
Definition loop_body (requestConfig : AxiosRequestConfig.t) (retries startTime : Z)
    (l : Loop) (s : ProxyState) : Control * ProxyState :=
  let '(result, w) := axios_request (axiosInstance (self s)) requestConfig (world s) in
  match result with
  | inl response =>
      let responseTime := now w - startTime in
      (CReturn {| ServiceProxyResponse.data := AxiosResponse.data response;
                  ServiceProxyResponse.status := AxiosResponse.status response;
                  ServiceProxyResponse.headers := AxiosResponse.headers response;
                  ServiceProxyResponse.responseTime := responseTime |},
       with_world s w)
  | inr error =>
      let l' := {| attempt := attempt l + 1; lastError := Some error |} in
      if nonRetryable error then (CBreak l', with_world s w)
      else if attempt l' >? retries then (CBreak l', with_world s w)
      else
        let delay := backoffDelay (attempt l') in
        (CNext l', with_world s (sleep delay w))
  end.

(** After the loop: [throw lastError || new GatewayError(...)]. *)
Definition after_loop (l : Loop) (s : ProxyState)
  : Completion ServiceProxyResponse.t * ProxyState :=
  match lastError l with
  | Some e => (Rejected (ThrowError e), s)
  | None =>
      (Rejected (ThrowApp (GatewayError ("Failed to connect to " ++ serviceName (self s)))), s)
  end.

Definition inspect {A} (a : A) : {b | a = b} := exist _ a eq_refl.

(** [while (attempt <= retries) { ... }] followed by the final [throw].
    Every further pass raises [attempt], so [retries + 1 - attempt] is a
    measure. *)
Equations? request_loop (requestConfig : AxiosRequestConfig.t) (retries startTime : Z)
    (l : Loop) (s : ProxyState)
  : Completion ServiceProxyResponse.t * ProxyState
  by wf (Z.to_nat (retries + 1 - attempt l)) lt :=
request_loop requestConfig retries startTime l s with inspect (attempt l <=? retries) := {
  | exist _ false _ => after_loop l s
  | exist _ true Hle with inspect (loop_body requestConfig retries startTime l s) := {
      | exist _ (CReturn r, s') _ => (Resolved r, s')
      | exist _ (CBreak l', s') _ => after_loop l' s'
      | exist _ (CNext l', s') Hbody => request_loop requestConfig retries startTime l' s' } }.
Proof.
  apply Z.leb_le in Hle. revert Hbody. unfold loop_body.
  destruct (axios_request _ _ _) as [[response | error] w]; [discriminate |].
  destruct (nonRetryable error); [discriminate |]. simpl.
  destruct (Z.gtb_spec (attempt l + 1) retries); [discriminate |].
  intros [= <- <-]. simpl. lia.
Qed.

(** [request]: the generic request method with retry logic. *)
Definition request (method path : string) (options : RequestOptions) (s : ProxyState)
  : Completion ServiceProxyResponse.t * ProxyState :=
  let retries := default (ServiceProxyConfig.retries (config (self s))) (opt_retries options) in
  let timeout := opt_timeout options in
  let startTime := now (world s) in
  let requestConfig :=
    {| AxiosRequestConfig.method := toLowerCase method;
       AxiosRequestConfig.url := path;
       AxiosRequestConfig.data := opt_data options;
       AxiosRequestConfig.params := opt_params options;
       AxiosRequestConfig.timeout :=
         num_or timeout (ServiceProxyConfig.timeout (config (self s))) |} in
  request_loop requestConfig retries startTime {| attempt := 0; lastError := None |} s.

(** The per-call options of the verb methods: [{ retries?, timeout? }]. *)
Record CallOptions := mkCall {
  call_retries : option Z;
  call_timeout : option Z
}.

(** [{ data, params, ...options }]. *)
Definition spread (data : option Value) (params : option (gmap string Value))
    (options : option CallOptions) : RequestOptions :=
  {| opt_data := data;
     opt_params := params;
     opt_retries := options ≫= call_retries;
     opt_timeout := options ≫= call_timeout |}.

Definition get (path : string) (params : option (gmap string Value))
    (options : option CallOptions) :=
  request "GET" path (spread None params options).

Definition post (path : string) (data : option Value) (options : option CallOptions) :=
  request "POST" path (spread data None options).

Definition put (path : string) (data : option Value) (options : option CallOptions) :=
  request "PUT" path (spread data None options).

Definition delete_ (path : string) (options : option CallOptions) :=
  request "DELETE" path (spread None None options).

Definition patch (path : string) (data : option Value) (options : option CallOptions) :=
  request "PATCH" path (spread data None options).

Inductive HealthStatus := healthy | unhealthy.

Record Health := mkHealth {
  health_status : HealthStatus;
  health_responseTime : Z;
  health_error : option string
}.

(** [healthCheck]. *)
Definition healthCheck (s : ProxyState) : Completion Health * ProxyState :=
  let startTime := now (world s) in
  let '(result, w) := axios_get (axiosInstance (self s)) "/health" 5000 (world s) in
  match result with
  | inl _ =>
      (Resolved {| health_status := healthy;
                   health_responseTime := now w - startTime;
                   health_error := None |},
       with_world s w)
  | inr error =>
      (Resolved {| health_status := unhealthy;
                   health_responseTime := now w - startTime;
                   health_error := ServiceProxyError.message error |},
       with_world s w)
  end.

(** ** aggregateServiceData and enrichData *)

(** What a leg needs of its [service]: a [get] whose promise settles. The
    legs of a batch are in flight together, so what one leg's [get]
    settles with may depend on how the legs interleave on a shared
    backend; the batch functions are therefore stated over any [get]. *)
Record Service := mkService {
  service_get : string -> option (gmap string Value) -> Completion ServiceProxyResponse.t
}.

(** A proxy, with the world its call starts in, as a leg's service. *)
Definition service_of (s : ProxyState) : Service :=
  {| service_get := fun path params => fst (get path params None s) |}.

Record Leg := mkLeg {
  service : Service;
  path : string;
  params : option (gmap string Value);
  key : string
}.

(** [console.warn(text, message)]. *)
Definition Console := list (string * option string).

(** *** Plain objects *)

(** The names every object inherits from [Object.prototype]: eleven
    methods, which are writable data properties, and the accessor
    [__proto__]. *)
Definition Object_prototype_names : list string :=
  ["constructor"; "__defineGetter__"; "__defineSetter__"; "hasOwnProperty";
   "__lookupGetter__"; "__lookupSetter__"; "isPrototypeOf"; "propertyIsEnumerable";
   "toString"; "valueOf"; "__proto__"; "toLocaleString"]%string.

Definition inherited (k : string) : bool := bool_decide (k ∈ Object_prototype_names).

(** The prototype of an object: [null], [Object.prototype], or an object
    of the heap. *)
Inductive Proto :=
| ProtoNull
| ProtoObject
| ProtoRef (l : loc).

#[local] Instance Proto_eq_dec : EqDecision Proto.
Proof. solve_decision. Defined.

(** An ordinary object: its prototype and its own properties, all of them
    writable data properties. An object literal and an object that
    [JSON.parse] makes have the prototype [Object.prototype]. *)
Record JsObject := mkObject {
  proto : Proto;
  fields : gmap string Value
}.

Definition Heap := gmap loc JsObject.

Definition has_own (o : JsObject) (k : string) : bool :=
  bool_decide (is_Some (fields o !! k)).

(** Where the prototype chain that starts at [p] first holds a property
    [k]. A chain of the heap has no cycle, so it is no longer than the
    heap; [fuel] bounds the objects visited. *)
Inductive Holder :=
| InObject (l : loc)
| InObjectPrototype
| Nowhere.

Fixpoint find_property (h : Heap) (fuel : nat) (p : Proto) (k : string) : Holder :=
  match p with
  | ProtoNull => Nowhere
  | ProtoObject => if inherited k then InObjectPrototype else Nowhere
  | ProtoRef l =>
      match fuel, h !! l with
      | S fuel', Some o =>
          if has_own o k then InObject l else find_property h fuel' (proto o) k
      | _, _ => Nowhere
      end
  end.

(** [k in o]. *)
Definition has_property (h : Heap) (o : JsObject) (k : string) : bool :=
  has_own o k
  || match find_property h (size h) (proto o) k with
     | Nowhere => false
     | _ => true
     end.

(** The chain that starts at [p] passes through the object at [target]. *)
Fixpoint reaches (h : Heap) (fuel : nat) (p : Proto) (target : loc) : bool :=
  match p with
  | ProtoRef l =>
      bool_decide (l = target)
      || match fuel, h !! l with
         | S fuel', Some o => reaches h fuel' (proto o) target
         | _, _ => false
         end
  | _ => false
  end.

(** The [TypeError] of the setter of [__proto__]. *)
Definition TypeError_cyclic : Thrown :=
  ThrowError
    {| ServiceProxyError.message := Some "Cyclic __proto__ value";
       ServiceProxyError.status := None;
       ServiceProxyError.code := None;
       ServiceProxyError.response := None;
       ServiceProxyError.isTimeout := None;
       ServiceProxyError.isNetworkError := None |}.

(** The setter of [Object.prototype.__proto__], called on [o] with [v]:
    an object or [null] becomes the prototype of [o], unless that closes a
    cycle, and any other value is ignored. [me] is the location of [o] when
    it is an object of the heap. *)
Definition set_prototype (h : Heap) (me : option loc) (o : JsObject) (v : Value)
  : Thrown + JsObject :=
  match v with
  | VRef l =>
      if bool_decide (proto o = ProtoRef l) then inr o
      else if match me with
              | Some target => reaches h (S (size h)) (ProtoRef l) target
              | None => false
              end
      then inl TypeError_cyclic
      else inr {| proto := ProtoRef l; fields := fields o |}
  | VNull => inr {| proto := ProtoNull; fields := fields o |}
  | _ => inr o
  end.

Definition set_field (o : JsObject) (k : string) (v : Value) : JsObject :=
  {| proto := proto o; fields := <[k := v]> (fields o) |}.

(** [o[k] = v] on an ordinary object: the first holder of [k], among [o]
    and the objects of its prototype chain, decides. A data property, or no
    holder at all, makes [k] an own property of [o]; the accessor
    [__proto__] of [Object.prototype] calls its setter. *)
Definition assign (h : Heap) (me : option loc) (o : JsObject) (k : string) (v : Value)
  : Thrown + JsObject :=
  if has_own o k then inr (set_field o k v)
  else
    match find_property h (size h) (proto o) k with
    | InObject _ | Nowhere => inr (set_field o k v)
    | InObjectPrototype =>
        if String.eqb k "__proto__" then set_prototype h me o v
        else inr (set_field o k v)
    end.

(** *** aggregateServiceData *)

(** The continuation of one leg of [aggregateServiceData], run when the
    leg's [get] settles. [results] is a new object, which no object of the
    heap [h] refers to. [try] covers the assignment, and what [catch]
    itself throws rejects the promise of the leg. *)
Definition aggregate_leg (h : Heap) (r : Leg) (st : JsObject * Console)
  : Completion unit * (JsObject * Console) :=
  let '(results, console) := st in
  let catch (error : Thrown) :=
    let console' :=
      (console ++ [(("Failed to fetch data from " ++ key r ++ ":")%string,
                    thrown_message error)])%list in
    match assign h None results (key r) VNull with
    | inr results' => (Resolved tt, (results', console'))
    | inl thrown => (Rejected thrown, (results, console'))
    end in
  match service_get (service r) (path r) (params r) with
  | Resolved response =>
      match assign h None results (key r) (ServiceProxyResponse.data response) with
      | inr results' => (Resolved tt, (results', console))
      | inl thrown => catch thrown
      end
  | Rejected error => catch error
  end.

(** One leg of the batch settles: the leg with index [i] runs its
    continuation. *)
Definition aggregate_settle (h : Heap) (requests : list Leg) (st : JsObject * Console)
    (i : nat) : JsObject * Console :=
  match requests !! i with
  | Some r => snd (aggregate_leg h r st)
  | None => st
  end.

(** [aggregateServiceData], in a heap [h] that holds the objects the
    responses refer to. [order] is the order in which the legs settle, as
    indices into [requests]; [Promise.allSettled] waits for all of them and
    never rejects. *)
Definition aggregateServiceData (requests : list Leg) (order : list nat) (h : Heap)
  : Completion JsObject * Console :=
  let '(results, console) :=
    foldl (aggregate_settle h requests) ({| proto := ProtoObject; fields := ∅ |}, []) order in
  (Resolved results, console).

(** *** enrichData *)

(** [o[k] = v] for the object at [l]. *)
Definition obj_set (l : loc) (k : string) (v : Value) (h : Heap) : Thrown + Heap :=
  match h !! l with
  | Some o =>
      match assign h (Some l) o k v with
      | inr o' => inr (<[l := o']> h)
      | inl thrown => inl thrown
      end
  | None => inr h
  end.

(** [key in object]. *)
Definition key_in (k : string) (l : loc) (h : Heap) : bool :=
  match h !! l with
  | Some o => has_property h o k
  | None => false
  end.

(** The continuation of one leg of [enrichData]. *)
Definition enrich_leg (enrichedData : loc) (r : Leg) (st : Heap * Console)
  : Completion unit * (Heap * Console) :=
  let '(h, console) := st in
  let catch (error : Thrown) :=
    let console' :=
      (console ++ [(("Failed to enrich data for " ++ key r ++ ":")%string,
                    thrown_message error)])%list in
    if negb (key_in (key r) enrichedData h)
    then
      match obj_set enrichedData (key r) VNull h with
      | inr h' => (Resolved tt, (h', console'))
      | inl thrown => (Rejected thrown, (h, console'))
      end
    else (Resolved tt, (h, console')) in
  match service_get (service r) (path r) (params r) with
  | Resolved response =>
      match obj_set enrichedData (key r) (ServiceProxyResponse.data response) h with
      | inr h' => (Resolved tt, (h', console))
      | inl thrown => catch thrown
      end
  | Rejected error => catch error
  end.

Definition enrich_settle (enrichedData : loc) (enrichments : list Leg)
    (st : Heap * Console) (i : nat) : Heap * Console :=
  match enrichments !! i with
  | Some r => snd (enrich_leg enrichedData r st)
  | None => st
  end.

(** [enrichData]. [{ ...baseData }], the object spread of ES2018, allocates
    a new object with the prototype [Object.prototype] and the own
    properties of [baseData]; the function returns its location. *)
Definition enrichData (baseData : loc) (enrichments : list Leg) (order : list nat)
    (h : Heap) : Completion loc * (Heap * Console) :=
  let enrichedData := fresh (dom h) in
  let copy :=
    {| proto := ProtoObject;
       fields := match h !! baseData with Some b => fields b | None => ∅ end |} in
  let h0 := <[enrichedData := copy]> h in
  (Resolved enrichedData, foldl (enrich_settle enrichedData enrichments) (h0, []) order).

(** ** Vocabulary for the statements *)

(** The world once the physical request of a pass of the loop has settled. *)
Definition requested (requestConfig : AxiosRequestConfig.t) (s : ProxyState) : World :=
  snd (axios_request (axiosInstance (self s)) requestConfig (world s)).

(** What the physical request of a pass of the loop settles with. *)
Definition settles (requestConfig : AxiosRequestConfig.t) (s : ProxyState)
  : AxiosResponse.t + ServiceProxyError.t :=
  settled (axiosInstance (self s)) (issued (world s)) requestConfig.

(** The value [request] returns for an answer, read at world [w]. *)
Definition respond (startTime : Z) (response : AxiosResponse.t) (w : World)
  : ServiceProxyResponse.t :=
  {| ServiceProxyResponse.data := AxiosResponse.data response;
     ServiceProxyResponse.status := AxiosResponse.status response;
     ServiceProxyResponse.headers := AxiosResponse.headers response;
     ServiceProxyResponse.responseTime := now w - startTime |}.

(** The events of [k] failed attempts that are each followed by a retry,
    the first of them being attempt number [first + 1]. *)
Fixpoint retry_log (requestConfig : AxiosRequestConfig.t) (first : Z) (k : nat)
  : list Event :=
  match k with
  | O => []
  | S k' =>
      EvRequest requestConfig :: EvSleep (backoffDelay (first + 1))
        :: retry_log requestConfig (first + 1) k'
  end.

(** The retry budget and the request configuration [request] works with. *)
Definition retries_of (options : RequestOptions) (p : ServiceProxy) : Z :=
  default (ServiceProxyConfig.retries (config p)) (opt_retries options).

Definition requestConfig_of (method path : string) (options : RequestOptions)
    (p : ServiceProxy) : AxiosRequestConfig.t :=
  {| AxiosRequestConfig.method := toLowerCase method;
     AxiosRequestConfig.url := path;
     AxiosRequestConfig.data := opt_data options;
     AxiosRequestConfig.params := opt_params options;
     AxiosRequestConfig.timeout :=
       num_or (opt_timeout options) (ServiceProxyConfig.timeout (config p)) |}.

(** What a leg contributes to the aggregate: its data, or [null]. *)
Definition leg_value (r : Leg) : Value :=
  match service_get (service r) (path r) (params r) with
  | Resolved response => ServiceProxyResponse.data response
  | Rejected _ => VNull
  end.


(** The operations a caller has on a proxy, and what each returns. *)
Inductive Op :=
| OpGet (path : string) (params : option (gmap string Value)) (options : option CallOptions)
| OpPost (path : string) (data : option Value) (options : option CallOptions)
| OpPut (path : string) (data : option Value) (options : option CallOptions)
| OpDelete (path : string) (options : option CallOptions)
| OpPatch (path : string) (data : option Value) (options : option CallOptions)
| OpHealthCheck.

Inductive OpResult :=
| RequestResult (r : Completion ServiceProxyResponse.t)
| HealthResult (r : Completion Health).

Definition run_op (o : Op) (s : ProxyState) : OpResult * ProxyState :=
  match o with
  | OpGet path params options =>
      let '(r, s') := get path params options s in (RequestResult r, s')
  | OpPost path data options =>
      let '(r, s') := post path data options s in (RequestResult r, s')
  | OpPut path data options =>
      let '(r, s') := put path data options s in (RequestResult r, s')
  | OpDelete path options =>
      let '(r, s') := delete_ path options s in (RequestResult r, s')
  | OpPatch path data options =>
      let '(r, s') := patch path data options s in (RequestResult r, s')
  | OpHealthCheck =>
      let '(r, s') := healthCheck s in (HealthResult r, s')
  end.

(** A sequence of operations, one after the other. *)
Definition run_ops (os : list Op) (s : ProxyState) : ProxyState :=
  foldl (fun s o => snd (run_op o s)) s os.

(** The failure carries a connection-refused or host-not-found code. *)
Definition network_code (error : ServiceProxyError.t) : Prop :=
  ServiceProxyError.code error = Some "ECONNREFUSED"
  \/ ServiceProxyError.code error = Some "ENOTFOUND".

(** The failure carries a timeout code, or its message a timeout indicator. *)
Definition timeout_sign (error : ServiceProxyError.t) : Prop :=
  ServiceProxyError.code error = Some "ETIMEDOUT"
  \/ exists m, ServiceProxyError.message error = Some m /\ includes "timeout" m = true.

(** An error the retry policy treats as transient: a status of at least
    500 other than 501 and 505. *)
Definition retryable (e : ServiceProxyError.t) : Prop :=
  exists v, ServiceProxyError.status e = Some v /\ 500 <= v /\ v <> 501 /\ v <> 505.

(** A client error: a status in [400, 500). *)
Definition client_error (e : ServiceProxyError.t) : Prop :=
  exists v, ServiceProxyError.status e = Some v /\ 400 <= v < 500.

(** The request [healthCheck] sends. *)
Definition health_request : AxiosRequestConfig.t :=
  {| AxiosRequestConfig.method := "get";
     AxiosRequestConfig.url := "/health";
     AxiosRequestConfig.data := None;
     AxiosRequestConfig.params := None;
     AxiosRequestConfig.timeout := 5000 |}.

(** The same proxy with another stored configuration. *)
Definition with_config (p : ServiceProxy) (cfg : ServiceProxyConfig.t) : ServiceProxy :=
  {| axiosInstance := axiosInstance p; serviceName := serviceName p; config := cfg |}.

(** ** Inputs of the examples *)

(** Raw failures of the four kinds, as the transport raises them. *)
Definition raw_failure (code message : option string) (response : option ErrorResponse.t)
  : ServiceProxyError.t :=
  {| ServiceProxyError.message := message;
     ServiceProxyError.status := None;
     ServiceProxyError.code := code;
     ServiceProxyError.response := response;
     ServiceProxyError.isTimeout := None;
     ServiceProxyError.isNetworkError := None |}.

Definition answered (status : Z) (data : Value) : ErrorResponse.t :=
  {| ErrorResponse.data := data;
     ErrorResponse.status := status;
     ErrorResponse.headers := ∅ |}.

Definition refused := raw_failure (Some "ECONNREFUSED") (Some "Connection refused") None.
Definition timed_out := raw_failure (Some "ECONNABORTED") (Some "timeout of 5000ms exceeded") None.
Definition bad_request :=
  raw_failure (Some "ERR_BAD_REQUEST") (Some "Request failed with status code 400")
              (Some (answered 400 (VStr "bad input"))).
Definition server_error :=
  raw_failure (Some "ERR_BAD_RESPONSE") (Some "Request failed with status code 500")
              (Some (answered 500 VNull)).
Definition broken_pipe := raw_failure (Some "EPIPE") (Some "write EPIPE") None.

(** The proxy of the test suite, over a given network. *)
Definition test_config : ServiceProxyConfig.t :=
  {| ServiceProxyConfig.baseUrl := "http://localhost:8080";
     ServiceProxyConfig.timeout := 5000;
     ServiceProxyConfig.retries := 2;
     ServiceProxyConfig.headers := {[ "Content-Type" := "application/json" ]} |}.

Definition test_proxy (net : Adapter) : ProxyState :=
  {| self := ServiceProxy_new net "testService" test_config;
     world := {| now := 0; log := [] |} |}.

Definition ok_response : AxiosResponse.t :=
  {| AxiosResponse.data := VStr "success";
     AxiosResponse.status := 200;
     AxiosResponse.headers := ∅ |}.

(** Networks: one that fails twice with a 500 and then answers, and
    networks that always fail the same way. *)
Definition net_flaky : Adapter :=
  fun n _ => if (n <? 2)%nat then mkReply (inr server_error) 30 else mkReply (inl ok_response) 20.

Definition net_failing (raw : ServiceProxyError.t) : Adapter :=
  fun _ _ => mkReply (inr raw) 30.

(** A proxy with a budget of three retries whose backend refuses every
    connection. *)
Definition refused_proxy : ProxyState :=
  {| self := ServiceProxy_new (net_failing refused) "users"
               {| ServiceProxyConfig.baseUrl := "http://users:3001";
                  ServiceProxyConfig.timeout := 3000;
                  ServiceProxyConfig.retries := 3;
                  ServiceProxyConfig.headers := ∅ |};
     world := {| now := 0; log := [] |} |}.

(** A proxy whose transport client is a stub without interceptors, as in
    the test suite, rejecting every request with a bare message. *)
Definition bare_failure : ServiceProxyError.t := raw_failure None (Some "boom") None.

Definition stub_proxy : ProxyState :=
  {| self := {| axiosInstance :=
                  axios_create (net_failing bare_failure)
                    {| baseURL := "http://localhost:8080";
                       default_timeout := 5000;
                       default_headers := ∅ |};
                serviceName := "testService";
                config := test_config |};
     world := {| now := 0; log := [] |} |}.

Definition rate_limited :=
  raw_failure (Some "ERR_BAD_REQUEST") (Some "Request failed with status code 429")
              (Some (answered 429 (VStr "slow down"))).

(** A call with overrides and a health probe, then a plain call. *)
Definition earlier_ops : list Op :=
  [OpPost "/api/test" (Some (VStr "payload"))
          (Some {| call_retries := Some 0; call_timeout := Some 100 |});
   OpHealthCheck].

(** The batch of the spec's example: one leg that succeeds after two
    retries, one whose backend refuses every connection. *)
Definition leg_items : Leg :=
  {| service := service_of (test_proxy net_flaky);
     path := "/api/items"; params := None; key := "items" |}.



Definition record_extra : gmap string Value := {[ "id" := VNum 1; "extra" := VStr "kept" ]}.

Definition failing_leg (k : string) : Leg :=
  {| service := service_of (test_proxy (net_failing refused));
     path := "/api/details/1"; params := None; key := k |}.

(** ** errors/index.ts: tables and error classes *)

(** [STATUS_BY_CODE] and [DEFAULT_MESSAGE_BY_CODE]: object literals with
    one entry per error code. *)
Definition STATUS_BY_CODE : gmap string Z :=
  list_to_map
    [(ERROR_CODES.VALIDATION_ERROR, 400); (ERROR_CODES.CAST_ERROR, 400);
     (ERROR_CODES.AUTH_REQUIRED, 401); (ERROR_CODES.INVALID_TOKEN, 401);
     (ERROR_CODES.FORBIDDEN, 403); (ERROR_CODES.NOT_FOUND, 404);
     (ERROR_CODES.METHOD_NOT_ALLOWED, 405); (ERROR_CODES.CONFLICT, 409);
     (ERROR_CODES.DUPLICATE_KEY, 409); (ERROR_CODES.RATE_LIMITED, 429);
     (ERROR_CODES.INTERNAL, 500); (ERROR_CODES.SERVICE_UNAVAILABLE, 503);
     (ERROR_CODES.TIMEOUT, 504); (ERROR_CODES.GATEWAY_ERROR, 502)].

Definition DEFAULT_MESSAGE_BY_CODE : gmap string string :=
  list_to_map
    [(ERROR_CODES.VALIDATION_ERROR, "Invalid request parameters");
     (ERROR_CODES.CAST_ERROR, "Invalid data format");
     (ERROR_CODES.AUTH_REQUIRED, "Authentication required");
     (ERROR_CODES.INVALID_TOKEN, "Invalid authentication token");
     (ERROR_CODES.FORBIDDEN, "Access denied");
     (ERROR_CODES.NOT_FOUND, "Resource not found");
     (ERROR_CODES.METHOD_NOT_ALLOWED, "Method not allowed");
     (ERROR_CODES.CONFLICT, "Resource conflict");
     (ERROR_CODES.DUPLICATE_KEY, "Duplicate resource");
     (ERROR_CODES.RATE_LIMITED, "Too many requests");
     (ERROR_CODES.INTERNAL, "Internal server error");
     (ERROR_CODES.SERVICE_UNAVAILABLE, "Service temporarily unavailable");
     (ERROR_CODES.TIMEOUT, "Request timeout");
     (ERROR_CODES.GATEWAY_ERROR, "Gateway error")].

(** What reading a property off an object can give besides a value of the
    program: a member that every object inherits from [Object.prototype],
    that is a function, or for the name [__proto__] the prototype itself.
    Such a member is truthy, and [JSON.stringify] leaves a property that
    holds a function out. *)
Inductive Field :=
| Plain (v : Value)
| Member (name : string).

Coercion Plain : Value >-> Field.

(** [table[k]] for a table that is an object literal: its own property
    [k], else what it inherits under that name, else [undefined]. [inj]
    makes a value of an entry. *)
Definition table_get {A : Type} (inj : A -> Value) (table : gmap string A) (k : string)
  : Field :=
  match table !! k with
  | Some a => Plain (inj a)
  | None => if inherited k then Member k else Plain VUndefined
  end.

(** [status || STATUS_BY_CODE[code] || 500]: a number, or the member the
    table inherits under the name [code]. *)
Definition AppError_status (status : option Z) (code : string) : Z + string :=
  let from_table :=
    match table_get VNum STATUS_BY_CODE code with
    | Plain (VNum v) => inl (if truthy_num v then v else 500)
    | Plain _ => inl 500
    | Member name => inr name
    end in
  match status with
  | Some v => if truthy_num v then inl v else from_table
  | None => from_table
  end.

(** The constructor of [AppError]: [code] defaults to [INTERNAL], and
    [status] is [status || STATUS_BY_CODE[code] || 500]. [name] is the name
    of the class that is constructed. The result is the error, or, when its
    status is no number but an inherited member, the name of that member. *)
Definition new_AppError (name message : string) (code : option string)
    (status : option Z) (details : option Value) : AppError + string :=
  let code := default ERROR_CODES.INTERNAL code in
  match AppError_status status code with
  | inl status =>
      inl {| app_name := name;
             app_message := message;
             app_code := code;
             app_status := status;
             isOperational := true;
             details := details |}
  | inr member => inr member
  end.

(** The error of a construction whose status is a number. *)
Definition is_built (x : AppError + string) : Prop :=
  match x with
  | inl _ => True
  | inr _ => False
  end.

Definition built (x : AppError + string) : is_built x -> AppError :=
  match x with
  | inl e => fun _ => e
  | inr _ => fun H => match H with end
  end.

(** The subclasses; an absent message takes the default of the class. Each
    passes a status that is not 0, so that its status is a number. *)
Definition ValidationError (message : string) (details : option Value) : AppError :=
  built (new_AppError "ValidationError" message (Some ERROR_CODES.VALIDATION_ERROR)
                      (Some 400) details) I.

Definition AuthenticationError (message : option string) : AppError :=
  built (new_AppError "AuthenticationError" (default "Authentication required" message)
                      (Some ERROR_CODES.AUTH_REQUIRED) (Some 401) None) I.

Definition AuthorizationError (message : option string) : AppError :=
  built (new_AppError "AuthorizationError" (default "Access denied" message)
                      (Some ERROR_CODES.FORBIDDEN) (Some 403) None) I.

Definition NotFoundError (message : option string) : AppError :=
  built (new_AppError "NotFoundError" (default "Resource not found" message)
                      (Some ERROR_CODES.NOT_FOUND) (Some 404) None) I.

Definition ConflictError (message : string) (details : option Value) : AppError :=
  built (new_AppError "ConflictError" message (Some ERROR_CODES.CONFLICT) (Some 409)
                      details) I.

Definition RateLimitError (message : option string) : AppError :=
  built (new_AppError "RateLimitError" (default "Too many requests" message)
                      (Some ERROR_CODES.RATE_LIMITED) (Some 429) None) I.

Definition ServiceUnavailableError (message : option string) (details : option Value)
  : AppError :=
  built (new_AppError "ServiceUnavailableError"
                      (default "Service temporarily unavailable" message)
                      (Some ERROR_CODES.SERVICE_UNAVAILABLE) (Some 503) details) I.

Definition TimeoutError (message : option string) (details : option Value) : AppError :=
  built (new_AppError "TimeoutError" (default "Request timeout" message)
                      (Some ERROR_CODES.TIMEOUT) (Some 504) details) I.

(** [new GatewayError(message, details)], with both parameters optional. *)
Definition new_GatewayError (message : option string) (details : option Value) : AppError :=
  built (new_AppError "GatewayError" (default "Gateway error" message)
                      (Some ERROR_CODES.GATEWAY_ERROR) (Some 502) details) I.

(** [isAppError] ([instanceof AppError]) and [isOperationalError], on the
    values a call can throw. *)
Definition isAppError (t : Thrown) : bool :=
  match t with
  | ThrowApp _ => true
  | ThrowError _ => false
  end.

Definition isOperationalError (t : Thrown) : bool :=
  match t with
  | ThrowApp e => isOperational e
  | ThrowError _ => false
  end.

(** ** More vocabulary *)

(** The request an operation sends, on a proxy [p]: the verb in lower
    case, the path, the body and the query as the verb passes them on, and
    the overriding timeout or, without one (absent or 0), the configured
    one. *)
Definition op_request (o : Op) (p : ServiceProxy) : AxiosRequestConfig.t :=
  let timeout_of options :=
    num_or (options ≫= call_timeout) (ServiceProxyConfig.timeout (config p)) in
  let make method url data params timeout :=
    {| AxiosRequestConfig.method := method;
       AxiosRequestConfig.url := url;
       AxiosRequestConfig.data := data;
       AxiosRequestConfig.params := params;
       AxiosRequestConfig.timeout := timeout |} in
  match o with
  | OpGet path params options => make "get" path None params (timeout_of options)
  | OpPost path data options => make "post" path data None (timeout_of options)
  | OpPut path data options => make "put" path data None (timeout_of options)
  | OpDelete path options => make "delete" path None None (timeout_of options)
  | OpPatch path data options => make "patch" path data None (timeout_of options)
  | OpHealthCheck => make "get" "/health" None None 5000
  end.

(** The retry budget of an operation on a proxy [p]; [healthCheck] has
    none. *)
Definition op_retries (o : Op) (p : ServiceProxy) : option Z :=
  let budget options :=
    Some (default (ServiceProxyConfig.retries (config p)) (options ≫= call_retries)) in
  match o with
  | OpGet _ _ options | OpPost _ _ options | OpPut _ _ options
  | OpDelete _ options | OpPatch _ _ options => budget options
  | OpHealthCheck => None
  end.

(** ** middleware/healthCheck.ts *)

Module HealthMiddleware.

Inductive ServiceStatus := service_healthy | service_unhealthy | service_timeout.

Record ServiceHealthStatus := mkServiceHealth {
  status : ServiceStatus;
  responseTime : option Z;
  error : option string;
  lastChecked : string
}.

Inductive OverallStatus := overall_healthy | overall_unhealthy | overall_degraded.

Definition is_healthy (s : ServiceHealthStatus) : bool :=
  match status s with
  | service_healthy => true
  | _ => false
  end.

(** The status of a probe, as a status of a service. *)
Definition probe_status (h : HealthStatus) : ServiceStatus :=
  match h with
  | healthy => service_healthy
  | unhealthy => service_unhealthy
  end.

(** The continuation of one leg of [checkServicesHealth]: the probe of one
    proxy has settled. [proxy] is the proxy with the world its probe starts
    in; [toISOString] is [Date.prototype.toISOString] on a clock reading.
    [...(result.error && { error })] keeps the error only when it is a
    non-empty text. *)
Definition check_leg (toISOString : Z -> string) (serviceName : string)
    (proxy : ProxyState) (serviceStatuses : gmap string ServiceHealthStatus)
  : Completion unit * gmap string ServiceHealthStatus :=
  let startTime := now (world proxy) in
  let '(completion, after) := healthCheck proxy in
  match completion with
  | Resolved result =>
      (Resolved tt,
       <[serviceName :=
           {| status := probe_status (health_status result);
              responseTime := Some (health_responseTime result);
              error := match health_error result with
                       | Some text => if truthy_str text then Some text else None
                       | None => None
                       end;
              lastChecked := toISOString (now (world after)) |}]> serviceStatuses)
  | Rejected thrown =>
      (Resolved tt,
       <[serviceName :=
           {| status := service_unhealthy;
              responseTime := Some (now (world after) - startTime);
              error := thrown_message thrown;
              lastChecked := toISOString (now (world after)) |}]> serviceStatuses)
  end.

Definition check_settle (toISOString : Z -> string) (entries : list (string * ProxyState))
    (serviceStatuses : gmap string ServiceHealthStatus) (i : nat)
  : gmap string ServiceHealthStatus :=
  match entries !! i with
  | Some (serviceName, proxy) => snd (check_leg toISOString serviceName proxy serviceStatuses)
  | None => serviceStatuses
  end.

(** [checkServicesHealth], on the proxies [getServiceProxies()] returns.
    The probes are in flight together; [order] is the order in which they
    settle, as indices into [Object.entries(proxies)]. *)
Definition checkServicesHealth (toISOString : Z -> string)
    (proxies : gmap string ProxyState) (order : list nat)
  : Completion (gmap string ServiceHealthStatus) :=
  Resolved (foldl (check_settle toISOString (map_to_list proxies)) ∅ order).

(** [determineOverallStatus]. *)
Definition determineOverallStatus (services : gmap string ServiceHealthStatus)
  : OverallStatus :=
  let statuses := snd <$> map_to_list services in
  if (length statuses =? 0)%nat then overall_healthy
  else
    let healthyCount := length (List.filter is_healthy statuses) in
    let totalCount := length statuses in
    if (healthyCount =? totalCount)%nat then overall_healthy
    else if (healthyCount =? 0)%nat then overall_unhealthy
    else overall_degraded.

(** What the process reports about itself; its numbers are floating
    point and are carried, not computed with. [started], [assembled],
    [finished] and [sent] are the four readings of the clock the
    middleware takes, in this order. *)
Record Process (Metrics Num : Type) := mkProcess {
  systemHealth : Metrics;
  uptime : Num;
  npm_package_version : option string;
  started : Z;
  assembled : Z;
  finished : Z;
  sent : Z
}.
Arguments systemHealth {Metrics Num} _.
Arguments uptime {Metrics Num} _.
Arguments npm_package_version {Metrics Num} _.
Arguments started {Metrics Num} _.
Arguments assembled {Metrics Num} _.
Arguments finished {Metrics Num} _.
Arguments sent {Metrics Num} _.

Record HealthCheckResult (Metrics Num : Type) := mkResult {
  overall : OverallStatus;
  timestamp : string;
  result_uptime : Num;
  version : string;
  services : gmap string ServiceHealthStatus;
  system : Metrics;
  result_responseTime : Z
}.
Arguments overall {Metrics Num} _.
Arguments services {Metrics Num} _.
Arguments version {Metrics Num} _.
Arguments result_responseTime {Metrics Num} _.

(** [res.status(httpStatus).json(body)]. *)
Record JsonResponse (Metrics Num : Type) := mkJson {
  httpStatus : Z;
  success : bool;
  data : option (HealthCheckResult Metrics Num);
  error_code : option string;
  body_timestamp : string
}.
Arguments httpStatus {Metrics Num} _.
Arguments success {Metrics Num} _.
Arguments data {Metrics Num} _.
Arguments error_code {Metrics Num} _.

(** The middleware [healthCheck]. *)
Definition healthCheck {Metrics Num : Type} (toISOString : Z -> string)
    (process : Process Metrics Num) (proxies : gmap string ProxyState) (order : list nat)
  : JsonResponse Metrics Num :=
  match checkServicesHealth toISOString proxies order with
  | Resolved servicesHealth =>
      let overallStatus := determineOverallStatus servicesHealth in
      let healthResult :=
        {| overall := overallStatus;
           timestamp := toISOString (assembled process);
           result_uptime := uptime process;
           version := str_or (npm_package_version process) "1.0.0";
           services := servicesHealth;
           system := systemHealth process;
           result_responseTime := finished process - started process |} in
      let httpStatus :=
        match overallStatus with
        | overall_healthy => 200
        | overall_degraded => 200
        | overall_unhealthy => 503
        end in
      {| httpStatus := httpStatus;
         success := match overallStatus with overall_unhealthy => false | _ => true end;
         data := Some healthResult;
         error_code := None;
         body_timestamp := toISOString (sent process) |}
  | Rejected _ =>
      {| httpStatus := 503;
         success := false;
         data := None;
         error_code := Some "HEALTH_CHECK_FAILED";
         body_timestamp := toISOString (sent process) |}
  end.

End HealthMiddleware.

(** The entry [checkServicesHealth] records for a proxy, by what the
    proxy's probe settles with. *)
Definition probe_entry (toISOString : Z -> string) (s : ProxyState)
  : HealthMiddleware.ServiceHealthStatus :=
  let i := axiosInstance (self s) in
  let took := latency (adapter i (issued (world s)) health_request) in
  let settled_at := toISOString (now (world s) + took) in
  match settled i (issued (world s)) health_request with
  | inl _ =>
      {| HealthMiddleware.status := HealthMiddleware.service_healthy;
         HealthMiddleware.responseTime := Some took;
         HealthMiddleware.error := None;
         HealthMiddleware.lastChecked := settled_at |}
  | inr failure =>
      {| HealthMiddleware.status := HealthMiddleware.service_unhealthy;
         HealthMiddleware.responseTime := Some took;
         HealthMiddleware.error :=
           match ServiceProxyError.message failure with
           | Some text => if truthy_str text then Some text else None
           | None => None
           end;
         HealthMiddleware.lastChecked := settled_at |}
  end.

(** A network that always answers. *)
Definition net_ok : Adapter := fun _ _ => mkReply (inl ok_response) 20.

(** Two backends: one refuses every connection, one answers. *)
Definition two_backends : gmap string ProxyState :=
  {[ "serviceA" := test_proxy (net_failing refused); "serviceB" := test_proxy net_ok ]}.

(** ** middleware/errorNormalizer.ts *)

Module ErrorNormalizer.

Local Abbreviation app_details := details.

(** Truthiness of a value, and [a || b]. *)
Definition truthy (v : Value) : bool :=
  match v with
  | VUndefined | VNull => false
  | VBool b => b
  | VNum n => truthy_num n
  | VStr s => truthy_str s
  | VRef _ => true
  end.

Definition or_val (a b : Value) : Value := if truthy a then a else b.

Definition truthy_field (f : Field) : bool :=
  match f with
  | Plain v => truthy v
  | Member _ => true
  end.

Definition or_field (a b : Field) : Field := if truthy_field a then a else b.

(** An optional text as a value. *)
Definition text (x : option string) : Value :=
  match x with
  | Some s => VStr s
  | None => VUndefined
  end.

(** [v.k] for a value that is not [null] or [undefined] and a name [k]
    that no prototype defines ("success", "error", "code", "message",
    "details"): a field of the object a reference names, [undefined] on a
    primitive or a missing field. The objects of the store are plain
    objects, as [JSON.parse] makes them. *)
Definition prop (σ : gmap positive (gmap string Value)) (v : Value) (k : string) : Value :=
  match v with
  | VRef l =>
      match σ !! l with
      | Some o => default VUndefined (o !! k)
      | None => VUndefined
      end
  | _ => VUndefined
  end.

(** The [TypeError] of calling [toLowerCase] on a value that has none. *)
Definition TypeError : Thrown :=
  ThrowError
    {| ServiceProxyError.message := Some "message.toLowerCase is not a function";
       ServiceProxyError.status := None;
       ServiceProxyError.code := None;
       ServiceProxyError.response := None;
       ServiceProxyError.isTimeout := None;
       ServiceProxyError.isNetworkError := None |}.

(** The [TypeError] of using as a property key an object that has no
    primitive value. *)
Definition TypeError_primitive : Thrown :=
  ThrowError
    {| ServiceProxyError.message := Some "Cannot convert object to primitive value";
       ServiceProxyError.status := None;
       ServiceProxyError.code := None;
       ServiceProxyError.response := None;
       ServiceProxyError.isTimeout := None;
       ServiceProxyError.isNetworkError := None |}.

(** [table[v]] for a table keyed by error code. The key is the text of
    [v]. The text of a number, of a boolean, of [undefined] and of [null]
    is no key of a table and no inherited name. A plain object has the
    text "[object Object]", which is neither, unless it has an own property
    "toString": that is no function, and neither it nor the inherited
    [valueOf] gives a primitive value. *)
Definition at_code (σ : gmap positive (gmap string Value)) (table : gmap string string)
    (v : Value) : Thrown + Field :=
  match v with
  | VStr c => inr (table_get VStr table c)
  | VRef l =>
      match σ !! l with
      | Some o =>
          if bool_decide (is_Some (o !! "toString")) then inl TypeError_primitive
          else inr (Plain VUndefined)
      | None => inr (Plain VUndefined)
      end
  | _ => inr (Plain VUndefined)
  end.

(** [deriveCodeFromMessage(message, status)] on a message of any type: a
    falsy message takes the fallback, a text is matched, and any other
    value has no [toLowerCase]. *)
Definition deriveCode (message : Value) (status : Z) : Thrown + string :=
  match message with
  | VStr m => inr (deriveCodeFromMessage m (Some status))
  | v =>
      if truthy v then inl TypeError
      else inr (mapStatusToDefaultCode (num_or (Some status) 500))
  end.

Record ErrorEnvelope := mkEnvelope {
  code : Value;
  message : Field;
  details : option Value
}.

Record ApiResponse := mkResponse {
  success : bool;
  error : ErrorEnvelope;
  timestamp : string
}.

(** [buildEnvelope]. [NODE_ENV] is [process.env.NODE_ENV] and [now] the
    text of [new Date().toISOString()]. *)
Definition buildEnvelope (NODE_ENV : option string) (now : string)
    (σ : gmap positive (gmap string Value))
    (code : Value) (message : Field) (details : Value) (status : option Z)
  : Thrown + ApiResponse :=
  let safeCode := or_val code (VStr (mapStatusToDefaultCode (num_or status 500))) in
  let safeMessage :=
    if truthy_field message then inr message
    else
      match at_code σ DEFAULT_MESSAGE_BY_CODE safeCode with
      | inl thrown => inl thrown
      | inr by_code =>
          inr (or_field by_code (table_get VStr DEFAULT_MESSAGE_BY_CODE ERROR_CODES.INTERNAL))
      end in
  match safeMessage with
  | inl thrown => inl thrown
  | inr safeMessage =>
      inr {| success := false;
             error :=
               {| code := safeCode;
                  message := safeMessage;
                  details :=
                    if truthy details
                       && negb (bool_decide (NODE_ENV = Some "production"))
                    then Some details else None |};
             timestamp := now |}
  end.

Record Normalized := mkNormalized {
  n_status : Z;
  n_code : Value;
  n_message : Field;
  n_details : Value
}.

(** [normalizeKnownShapes], on the values a call on a proxy throws and on
    an [AppError]. An error object of the proxy has none of the fields
    [isJoi], [name] (other than "Error"), [keyValue], [statusCode],
    [publicMessage] and [details] that the branches for Joi, Mongoose and
    MongoDB errors read, and its [code] is a text, so these branches are
    not taken. *)
Definition normalizeKnownShapes (σ : gmap positive (gmap string Value)) (err : Thrown)
  : Thrown + Normalized :=
  let upstream :=
    match err with
    | ThrowError e =>
        match ServiceProxyError.response e with
        | Some r => if truthy_num (ErrorResponse.status r) then Some (e, r) else None
        | None => None
        end
    | ThrowApp _ => None
    end in
  match upstream with
  | Some (e, r) =>
      let status := ErrorResponse.status r in
      let err_message := text (ServiceProxyError.message e) in
      (* const data = err.response.data || {} *)
      let given := truthy (ErrorResponse.data r) in
      let field k := if given then prop σ (ErrorResponse.data r) k else VUndefined in
      let data_is_object :=
        if given then match ErrorResponse.data r with VRef _ => true | _ => false end
        else true in
      let data_error := field "error" in
      let failed :=
        match field "success" with VBool false => true | _ => false end in
      if failed && truthy data_error
         && match data_error with VRef _ => true | _ => false end
      then
        let code :=
          or_val (prop σ data_error "code") (VStr (mapStatusToDefaultCode status)) in
        let message :=
          if truthy (prop σ data_error "message")
          then inr (Plain (prop σ data_error "message"))
          else at_code σ DEFAULT_MESSAGE_BY_CODE code in
        match message with
        | inl thrown => inl thrown
        | inr message =>
            let details := or_val (field "details") (prop σ data_error "details") in
            inr {| n_status := status; n_code := code; n_message := message;
                   n_details := details |}
        end
      else if failed && truthy data_error then
        let legacyMessage :=
          match data_error with
          | VStr _ => data_error
          | _ => or_val (prop σ data_error "message") err_message
          end in
        match deriveCode legacyMessage status with
        | inl thrown => inl thrown
        | inr code =>
            let message :=
              or_field legacyMessage (table_get VStr DEFAULT_MESSAGE_BY_CODE code) in
            let details :=
              or_val (field "details")
                     match data_error with VRef _ => data_error | _ => VUndefined end in
            inr {| n_status := status; n_code := VStr code; n_message := message;
                   n_details := details |}
        end
      else if data_is_object then
        let message := or_val (field "message") (or_val data_error err_message) in
        match deriveCode message status with
        | inl thrown => inl thrown
        | inr code =>
            inr {| n_status := status; n_code := VStr code; n_message := message;
                   n_details := field "details" |}
        end
      else
        inr {| n_status := status;
               n_code := VStr (mapStatusToDefaultCode status);
               n_message := err_message;
               n_details := VUndefined |}
  | None =>
      match err with
      | ThrowApp a =>
          inr {| n_status := app_status a;
                 n_code := VStr (app_code a);
                 n_message := VStr (app_message a);
                 n_details := default VUndefined (app_details a) |}
      | ThrowError e =>
          let status := num_or (ServiceProxyError.status e) 500 in
          (* err.code && STATUS_BY_CODE[err.code] *)
          let known c :=
            truthy_str c && truthy_field (table_get VNum STATUS_BY_CODE c) in
          let code :=
            match ServiceProxyError.code e with
            | Some c =>
                if known c then inr c
                else deriveCode (text (ServiceProxyError.message e)) status
            | None => deriveCode (text (ServiceProxyError.message e)) status
            end in
          match code with
          | inl thrown => inl thrown
          | inr code =>
              inr {| n_status := status; n_code := VStr code;
                     n_message :=
                       or_val (text (ServiceProxyError.message e))
                              (VStr "Internal server error");
                     n_details := VUndefined |}
          end
      end
  end.

Record Sent := mkSent {
  httpStatus : Z;
  body : ApiResponse
}.

(** [errorNormalizer]: the status and the envelope that
    [res.status(...).json(...)] is handed, or what the handler throws. Its
    [console.error] is left out. *)
Definition errorNormalizer (NODE_ENV : option string) (now : string)
    (σ : gmap positive (gmap string Value)) (err : Thrown) : Completion Sent :=
  match normalizeKnownShapes σ err with
  | inl thrown => Rejected thrown
  | inr n =>
      match buildEnvelope NODE_ENV now σ (n_code n) (n_message n) (n_details n)
                          (Some (n_status n)) with
      | inl thrown => Rejected thrown
      | inr envelope =>
          Resolved {| httpStatus := num_or (Some (n_status n)) 500; body := envelope |}
      end
  end.

End ErrorNormalizer.

(** ** middleware/notFound.ts and middleware/methodResolver.ts *)

(** The error [notFound] hands to [next]. *)
Definition notFound (method originalUrl : string) : AppError :=
  NotFoundError (Some ("Route " ++ method ++ " " ++ originalUrl ++ " not found")%string).

(** The error [methodResolver] hands to [next]. *)
Definition methodResolver (method originalUrl : string) : AppError :=
  built (new_AppError "AppError"
           ("Method " ++ method ++ " not allowed for " ++ originalUrl)%string
           (Some ERROR_CODES.METHOD_NOT_ALLOWED) (Some 405) None) I.

(** Two legs under one key: the first has data, the second fails. *)
Definition leg_items_again : Leg :=
  {| service := service_of (test_proxy (net_failing refused));
     path := "/api/items/backup"; params := None; key := "items" |}.

(** A backend's answer in the gateway's error shape, as objects of a store. *)
Definition upstream_store : gmap positive (gmap string Value) :=
  {[ 10%positive := {[ "success" := VBool false; "error" := VRef 11%positive ]};
     11%positive := {[ "code" := VStr "NOT_FOUND"; "message" := VStr "No such item" ]} ]}.

Definition not_found_upstream : ServiceProxyError.t :=
  transformError "items"
    (raw_failure (Some "ERR_BAD_REQUEST") (Some "Request failed with status code 404")
                 (Some (answered 404 (VRef 10%positive)))).

(** ** Vocabulary for the codes of classified failures *)

(** The substrings [deriveCodeFromMessage] looks for, in its order. *)
Definition patterns : list string :=
  ["duplicate"; "e11000"; "validation"; "invalid"; "not found"; "missing";
   "timeout"; "etimedout"; "unauthorized"; "auth"; "forbidden"; "access denied";
   "rate limit"; "too many"]%string.

(** The lowercased name contains none of them. *)
Definition pattern_free (name : string) : bool :=
  forallb (fun p => negb (includes p (toLowerCase name))) patterns.

Fixpoint suffixes (p : string) : list string :=
  p :: match p with
       | EmptyString => []
       | String _ p' => suffixes p'
       end.

(** [p] does not occur in [b], and no occurrence of [p] can end in [b]. *)
Definition clear_of (p b : string) : bool :=
  negb (includes p b)
  && forallb (fun y => negb (truthy_str y && String.prefix y b)) (suffixes p).

(** * Properties *)

Local Open Scope list_scope.

(** ** The retry loop, one pass at a time *)

Lemma issued_app (w : World) (evs : list Event) (t : Z) :
  issued {| now := t; log := log w ++ evs |}
  = (issued w + length (List.filter is_request evs))%nat.
Proof. unfold issued. simpl. now rewrite List.filter_app, List.length_app. Qed.

Lemma issued_axios_request i c w :
  issued (snd (axios_request i c w)) = S (issued w).
Proof. unfold axios_request. simpl. rewrite issued_app. simpl. lia. Qed.

Lemma issued_sleep ms w : issued (sleep ms w) = issued w.
Proof. unfold sleep. rewrite issued_app. simpl. lia. Qed.

Lemma log_axios_request i c w :
  log (snd (axios_request i c w)) = log w ++ [EvRequest c].
Proof. reflexivity. Qed.

Section RetryLoop.

Variable requestConfig : AxiosRequestConfig.t.
Variables retries startTime : Z.

Local Abbreviation loop := (request_loop requestConfig retries startTime).
Local Abbreviation body := (loop_body requestConfig retries startTime).

Lemma loop_unfold l s :
  loop l s =
  if attempt l <=? retries then
    match body l s with
    | (CReturn x, s') => (Resolved x, s')
    | (CBreak l', s') => after_loop l' s'
    | (CNext l', s') => loop l' s'
    end
  else after_loop l s.
Proof.
  funelim (request_loop requestConfig retries startTime l s).
  - now rewrite e.
  - now rewrite Hle, e.
  - now rewrite Hle, e.
  - now rewrite Hle, Hbody.
Qed.

Lemma loop_done l s :
  retries < attempt l -> loop l s = after_loop l s.
Proof.
  intros H. rewrite loop_unfold.
  destruct (Z.leb_spec (attempt l) retries); [lia | reflexivity].
Qed.

Lemma loop_success l s response :
  attempt l <= retries ->
  settles requestConfig s = inl response ->
  loop l s = (Resolved (respond startTime response (requested requestConfig s)), with_world s (requested requestConfig s)).
Proof.
  intros Hle Hs. rewrite loop_unfold.
  destruct (Z.leb_spec (attempt l) retries); [| lia].
  unfold loop_body, axios_request. fold (settles requestConfig s). now rewrite Hs.
Qed.

Lemma loop_fatal l s error :
  attempt l <= retries ->
  settles requestConfig s = inr error ->
  nonRetryable error = true ->
  loop l s = (Rejected (ThrowError error), with_world s (requested requestConfig s)).
Proof.
  intros Hle Hs Hn. rewrite loop_unfold.
  destruct (Z.leb_spec (attempt l) retries); [| lia].
  unfold loop_body, axios_request. fold (settles requestConfig s). now rewrite Hs, Hn.
Qed.

Lemma loop_exhausted l s error :
  attempt l = retries ->
  settles requestConfig s = inr error ->
  loop l s = (Rejected (ThrowError error), with_world s (requested requestConfig s)).
Proof.
  intros Heq Hs. rewrite loop_unfold.
  destruct (Z.leb_spec (attempt l) retries); [| lia].
  unfold loop_body, axios_request. fold (settles requestConfig s). rewrite Hs.
  destruct (nonRetryable error); [reflexivity |]. simpl.
  destruct (Z.gtb_spec (attempt l + 1) retries); [reflexivity | lia].
Qed.

Lemma loop_retry l s error :
  attempt l < retries ->
  settles requestConfig s = inr error ->
  nonRetryable error = false ->
  loop l s =
  loop {| attempt := attempt l + 1; lastError := Some error |}
       (with_world s (sleep (backoffDelay (attempt l + 1)) (requested requestConfig s))).
Proof.
  intros Hlt Hs Hn. rewrite loop_unfold.
  destruct (Z.leb_spec (attempt l) retries); [| lia].
  unfold loop_body, axios_request. fold (settles requestConfig s). rewrite Hs, Hn. simpl.
  destruct (Z.gtb_spec (attempt l + 1) retries); [lia | reflexivity].
Qed.

End RetryLoop.

(** ** The retry loop, whole runs *)

Section RetryRuns.

Variable requestConfig : AxiosRequestConfig.t.
Variables retries startTime : Z.

Local Abbreviation loop := (request_loop requestConfig retries startTime).
Local Abbreviation body := (loop_body requestConfig retries startTime).

(** One pass, by what its physical request settles with. *)
Lemma body_cases l s :
  body l s =
  match settles requestConfig s with
  | inl response =>
      (CReturn (respond startTime response (requested requestConfig s)), with_world s (requested requestConfig s))
  | inr error =>
      let l' := {| attempt := attempt l + 1; lastError := Some error |} in
      if nonRetryable error || (attempt l + 1 >? retries)
      then (CBreak l', with_world s (requested requestConfig s))
      else (CNext l', with_world s (sleep (backoffDelay (attempt l + 1)) (requested requestConfig s)))
  end.
Proof.
  unfold loop_body, axios_request. fold (settles requestConfig s).
  destruct (settles requestConfig s) as [response | error]; [reflexivity |].
  destruct (nonRetryable error); [reflexivity |]. simpl.
  now destruct (attempt l + 1 >? retries).
Qed.

Lemma issued_requested s : issued (requested requestConfig s) = S (issued (world s)).
Proof. apply issued_axios_request. Qed.

Lemma issued_retry_log first k :
  length (List.filter is_request (retry_log requestConfig first k)) = k.
Proof.
  revert first. induction k as [| k IH]; intros first; simpl; [reflexivity |].
  now rewrite IH.
Qed.

Lemma retry_log_closed k :
  retry_log requestConfig 0 k =
  flat_map (fun n => [EvRequest requestConfig;
                      EvSleep (Z.min (1000 * 2 ^ (Z.of_nat n - 1)) 5000)])
           (seq 1 k).
Proof.
  assert (H : forall first : nat,
             retry_log requestConfig (Z.of_nat first) k =
             flat_map (fun n => [EvRequest requestConfig;
                                 EvSleep (Z.min (1000 * 2 ^ (Z.of_nat n - 1)) 5000)])
                      (seq (S first) k)).
  { induction k as [| k IH]; intros first; [reflexivity |].
    cbn [retry_log seq flat_map app].
    replace (Z.of_nat first + 1) with (Z.of_nat (S first)) by lia.
    rewrite IH. reflexivity. }
  apply (H 0%nat).
Qed.

(** Induction along the passes of the loop. *)
Lemma loop_ind (P : Loop -> ProxyState -> Prop) :
  (forall l s,
     (forall l' s', attempt l <= retries -> attempt l' = attempt l + 1 -> P l' s') ->
     P l s) ->
  forall l s, P l s.
Proof.
  intros Hstep l.
  remember (Z.to_nat (retries + 1 - attempt l)) as m eqn:Hm.
  revert l Hm. induction (lt_wf m) as [m _ IH]. intros l Hm s.
  apply Hstep. intros l' s' Hle Hatt.
  apply (IH (Z.to_nat (retries + 1 - attempt l'))); [lia | reflexivity].
Qed.

(** The loop leaves [this] alone. *)
Lemma loop_self l s : self (snd (loop l s)) = self s.
Proof.
  revert l s. apply loop_ind. intros l s IH.
  rewrite loop_unfold.
  destruct (Z.leb_spec (attempt l) retries) as [Hle | Hgt].
  - rewrite body_cases. destruct (settles requestConfig s) as [response | error]; [reflexivity |].
    cbv zeta. destruct (_ || _).
    + unfold after_loop. reflexivity.
    + rewrite IH by (simpl; lia). reflexivity.
  - unfold after_loop. now destruct (lastError l).
Qed.

(** [k] retryable failures in a row, within the budget, take the loop
    through [k] passes. *)
Lemma run_failures k : forall l s,
  attempt l + Z.of_nat k <= retries ->
  (forall j, (j < k)%nat ->
     exists e, settled (axiosInstance (self s)) (issued (world s) + j) requestConfig = inr e
               /\ nonRetryable e = false) ->
  exists l' w',
    loop l s = loop l' (with_world s w')
    /\ attempt l' = attempt l + Z.of_nat k
    /\ issued w' = (issued (world s) + k)%nat
    /\ log w' = log (world s) ++ retry_log requestConfig (attempt l) k.
Proof.
  induction k as [| k IH]; intros l s Hle Hfail.
  - exists l, (world s). destruct s. unfold with_world. simpl.
    split; [reflexivity |]. split; [lia |]. split; [lia |]. now rewrite app_nil_r.
  - destruct (Hfail 0%nat ltac:(lia)) as (e & He & Hn).
    rewrite Nat.add_0_r in He.
    rewrite (loop_retry _ _ _ l s e) by (try lia; assumption).
    set (l1 := {| attempt := attempt l + 1; lastError := Some e |}).
    set (s1 := with_world s _).
    assert (Hi : issued (world s1) = S (issued (world s))).
    { unfold s1. simpl. now rewrite issued_sleep, issued_requested. }
    destruct (IH l1 s1) as (l' & w' & Hrun & Hatt & Hiss & Hlog).
    + simpl. lia.
    + intros j Hj. destruct (Hfail (S j) ltac:(lia)) as (e' & He' & Hn').
      exists e'. split; [| assumption].
      rewrite Hi. simpl. now replace (S (issued (world s) + j)) with (issued (world s) + S j)%nat by lia.
    + exists l', w'. split; [| split; [| split]].
      * exact Hrun.
      * rewrite Hatt. simpl. lia.
      * rewrite Hiss, Hi. lia.
      * rewrite Hlog. simpl. now rewrite <- !app_assoc.
Qed.

(** [k] retryable failures, then an attempt that succeeds. *)
Lemma run_then_success k l s response :
  attempt l + Z.of_nat k <= retries ->
  (forall j, (j < k)%nat ->
     exists e, settled (axiosInstance (self s)) (issued (world s) + j) requestConfig = inr e
               /\ nonRetryable e = false) ->
  settled (axiosInstance (self s)) (issued (world s) + k) requestConfig = inl response ->
  exists w,
    loop l s = (Resolved (respond startTime response w), with_world s w)
    /\ issued w = (issued (world s) + S k)%nat
    /\ log w = log (world s) ++ retry_log requestConfig (attempt l) k ++ [EvRequest requestConfig].
Proof.
  intros Hle Hfail Hok.
  destruct (run_failures k l s Hle Hfail) as (l' & w' & Hrun & Hatt & Hiss & Hlog).
  exists (requested requestConfig (with_world s w')). split; [| split].
  - rewrite Hrun.
    rewrite (loop_success _ _ _ l' (with_world s w') response); [reflexivity | lia |].
    unfold settles. simpl. now rewrite Hiss.
  - rewrite issued_requested. simpl. lia.
  - unfold requested. rewrite log_axios_request. simpl.
    now rewrite Hlog, <- app_assoc.
Qed.

(** [k] retryable failures, then a failure that ends the call: it is not
    retryable, or the budget is used up. *)
Lemma run_then_failure k l s error :
  attempt l + Z.of_nat k <= retries ->
  (forall j, (j < k)%nat ->
     exists e, settled (axiosInstance (self s)) (issued (world s) + j) requestConfig = inr e
               /\ nonRetryable e = false) ->
  settled (axiosInstance (self s)) (issued (world s) + k) requestConfig = inr error ->
  nonRetryable error = true \/ attempt l + Z.of_nat k = retries ->
  exists w,
    loop l s = (Rejected (ThrowError error), with_world s w)
    /\ issued w = (issued (world s) + S k)%nat
    /\ log w = log (world s) ++ retry_log requestConfig (attempt l) k ++ [EvRequest requestConfig].
Proof.
  intros Hle Hfail Herr Hend.
  destruct (run_failures k l s Hle Hfail) as (l' & w' & Hrun & Hatt & Hiss & Hlog).
  exists (requested requestConfig (with_world s w')). split; [| split].
  - rewrite Hrun.
    assert (Hs : settles requestConfig (with_world s w') = inr error).
    { unfold settles. simpl. now rewrite Hiss. }
    destruct Hend as [Hn | Heq].
    + now rewrite (loop_fatal _ _ _ l' (with_world s w') error); [| lia | |].
    + now rewrite (loop_exhausted _ _ _ l' (with_world s w') error); [| lia |].
  - rewrite issued_requested. simpl. lia.
  - unfold requested. rewrite log_axios_request. simpl.
    now rewrite Hlog, <- app_assoc.
Qed.

(** Once the loop is entered, the call ends with what its last physical
    request settled with. *)
Lemma loop_final : forall l s,
  attempt l <= retries ->
  exists n,
    issued (world (snd (loop l s))) = S n
    /\ (issued (world s) <= n)%nat
    /\ match settled (axiosInstance (self s)) n requestConfig with
       | inl response => exists w, fst (loop l s) = Resolved (respond startTime response w)
       | inr error => fst (loop l s) = Rejected (ThrowError error)
       end.
Proof.
  apply (loop_ind (fun l s => attempt l <= retries -> _)).
  intros l s IH Hle.
  rewrite loop_unfold.
  destruct (Z.leb_spec (attempt l) retries) as [_ | Hgt]; [| lia].
  rewrite body_cases. unfold settles.
  destruct (settled _ (issued (world s)) _) as [response | error] eqn:Hs.
  - exists (issued (world s)). simpl. rewrite issued_requested, Hs.
    split; [reflexivity |]. split; [lia |]. now exists (requested requestConfig s).
  - cbv zeta. destruct (nonRetryable error || (attempt l + 1 >? retries)) eqn:Hstop.
    + exists (issued (world s)). unfold after_loop. simpl.
      rewrite issued_requested, Hs. split; [reflexivity |]. split; [lia | reflexivity].
    + apply orb_false_elim in Hstop as [_ Hgt].
      destruct (Z.gtb_spec (attempt l + 1) retries); [discriminate |].
      match goal with
      | |- context [request_loop _ _ _ ?l1 ?s1] =>
          destruct (IH l1 s1 Hle eq_refl) as (n & Hn & Hge & Hend); [simpl; lia |]
      end.
      exists n. split; [exact Hn |]. split.
      * simpl in Hge. rewrite issued_sleep, issued_requested in Hge. lia.
      * exact Hend.
Qed.

End RetryRuns.

(** ** The error classifier *)

Lemma code_test (error : ServiceProxyError.t) (c : string) :
  match ServiceProxyError.code error with
  | Some c' => String.eqb c' c
  | None => false
  end = true <-> ServiceProxyError.code error = Some c.
Proof.
  destruct (ServiceProxyError.code error) as [c' |]; [| split; discriminate].
  rewrite String.eqb_eq. split; congruence.
Qed.

Lemma message_test (error : ServiceProxyError.t) (needle : string) :
  match ServiceProxyError.message error with
  | Some m => includes needle m
  | None => false
  end = true <->
  exists m, ServiceProxyError.message error = Some m /\ includes needle m = true.
Proof.
  destruct (ServiceProxyError.message error) as [m |].
  - split; [intros H; now exists m | intros (m' & [= <-] & H); exact H].
  - split; [discriminate | intros (m & H & _); discriminate].
Qed.

Lemma network_code_test error :
  (match ServiceProxyError.code error with
   | Some c' => String.eqb c' "ECONNREFUSED" | None => false end
   || match ServiceProxyError.code error with
      | Some c' => String.eqb c' "ENOTFOUND" | None => false end) = true
  <-> network_code error.
Proof.
  unfold network_code. rewrite orb_true_iff, !code_test. reflexivity.
Qed.

Lemma timeout_sign_test error :
  (match ServiceProxyError.code error with
   | Some c' => String.eqb c' "ETIMEDOUT" | None => false end
   || match ServiceProxyError.message error with
      | Some m => includes "timeout" m | None => false end) = true
  <-> timeout_sign error.
Proof.
  unfold timeout_sign. rewrite orb_true_iff, code_test, message_test. reflexivity.
Qed.

(** The classifier, branch by branch. *)
Lemma transformError_network name error :
  network_code error ->
  transformError name error =
  {| ServiceProxyError.message := Some ("Service " ++ name ++ " is unavailable")%string;
     ServiceProxyError.status := Some 503;
     ServiceProxyError.code :=
       Some (deriveCodeFromMessage ("Service " ++ name ++ " is unavailable")%string (Some 503));
     ServiceProxyError.response := None;
     ServiceProxyError.isTimeout := None;
     ServiceProxyError.isNetworkError := Some true |}.
Proof.
  intros H. apply network_code_test in H. unfold transformError. now rewrite H.
Qed.

Lemma transformError_timeout name error :
  ~ network_code error -> timeout_sign error ->
  transformError name error =
  {| ServiceProxyError.message := Some ("Request to " ++ name ++ " timed out")%string;
     ServiceProxyError.status := Some 504;
     ServiceProxyError.code :=
       Some (deriveCodeFromMessage ("Request to " ++ name ++ " timed out")%string (Some 504));
     ServiceProxyError.response := None;
     ServiceProxyError.isTimeout := Some true;
     ServiceProxyError.isNetworkError := None |}.
Proof.
  intros Hn Ht. rewrite <- network_code_test in Hn. apply not_true_is_false in Hn.
  apply timeout_sign_test in Ht. unfold transformError. now rewrite Hn, Ht.
Qed.

Lemma transformError_response name error r :
  ~ network_code error -> ~ timeout_sign error ->
  ServiceProxyError.response error = Some r ->
  transformError name error =
  let message := str_or (ServiceProxyError.message error) "Service request failed" in
  {| ServiceProxyError.message := Some message;
     ServiceProxyError.status := Some (ErrorResponse.status r);
     ServiceProxyError.code :=
       Some (deriveCodeFromMessage message (Some (ErrorResponse.status r)));
     ServiceProxyError.response := Some r;
     ServiceProxyError.isTimeout := None;
     ServiceProxyError.isNetworkError := None |}.
Proof.
  intros Hn Ht Hr. rewrite <- network_code_test in Hn. apply not_true_is_false in Hn.
  rewrite <- timeout_sign_test in Ht. apply not_true_is_false in Ht.
  unfold transformError. rewrite Hn, Ht, Hr. now destruct r.
Qed.

Lemma transformError_other name error :
  ~ network_code error -> ~ timeout_sign error ->
  ServiceProxyError.response error = None ->
  transformError name error =
  let message := str_or (ServiceProxyError.message error) "Unknown service error" in
  {| ServiceProxyError.message := Some message;
     ServiceProxyError.status := Some 502;
     ServiceProxyError.code := Some (deriveCodeFromMessage message (Some 502));
     ServiceProxyError.response := None;
     ServiceProxyError.isTimeout := None;
     ServiceProxyError.isNetworkError := None |}.
Proof.
  intros Hn Ht Hr. rewrite <- network_code_test in Hn. apply not_true_is_false in Hn.
  rewrite <- timeout_sign_test in Ht. apply not_true_is_false in Ht.
  unfold transformError. now rewrite Hn, Ht, Hr.
Qed.

Lemma network_code_dec error : {network_code error} + {~ network_code error}.
Proof.
  destruct (match ServiceProxyError.code error with
            | Some c' => String.eqb c' "ECONNREFUSED" | None => false end
            || match ServiceProxyError.code error with
               | Some c' => String.eqb c' "ENOTFOUND" | None => false end) eqn:E.
  - left. now apply network_code_test.
  - right. rewrite <- network_code_test. congruence.
Qed.

Lemma timeout_sign_dec error : {timeout_sign error} + {~ timeout_sign error}.
Proof.
  destruct (match ServiceProxyError.code error with
            | Some c' => String.eqb c' "ETIMEDOUT" | None => false end
            || match ServiceProxyError.message error with
               | Some m => includes "timeout" m | None => false end) eqn:E.
  - left. now apply timeout_sign_test.
  - right. rewrite <- timeout_sign_test. congruence.
Qed.

(** The classifier always assigns a status: 503, 504, the status of the
    answer it was given, or 502. *)
Lemma transformError_status name error :
  exists v, ServiceProxyError.status (transformError name error) = Some v
    /\ (v = 503 \/ v = 504 \/ v = 502
        \/ exists r, ServiceProxyError.response error = Some r /\ v = ErrorResponse.status r).
Proof.
  destruct (network_code_dec error) as [Hn | Hn].
  { rewrite transformError_network by assumption. exists 503. simpl. auto. }
  destruct (timeout_sign_dec error) as [Ht | Ht].
  { rewrite transformError_timeout by assumption. exists 504. simpl. auto. }
  destruct (ServiceProxyError.response error) as [r |] eqn:Hr.
  - rewrite (transformError_response name error r) by assumption.
    exists (ErrorResponse.status r). simpl. split; [reflexivity |].
    right. right. right. now exists r.
  - rewrite transformError_other by assumption. exists 502. simpl. auto.
Qed.

(** C4. [transformError] is a function of the service name and the raw
    failure alone, and labels the failure by this precedence: a
    connection-refused or host-not-found code gives a network-flagged error
    with status 503; otherwise a timeout code, or a message containing
    "timeout", gives a timeout-flagged error with status 504; otherwise, if
    the failure carries an answer, the answer's status is copied onto the
    error and the answer (body included) is kept on it; anything else gets
    status 502. *)
Theorem transformError_precedence (name : string) (error : ServiceProxyError.t) :
  let e := transformError name error in
  (network_code error ->
     ServiceProxyError.isNetworkError e = Some true
     /\ ServiceProxyError.status e = Some 503)
  /\ (~ network_code error -> timeout_sign error ->
        ServiceProxyError.isTimeout e = Some true
        /\ ServiceProxyError.isNetworkError e = None
        /\ ServiceProxyError.status e = Some 504)
  /\ (~ network_code error -> ~ timeout_sign error ->
      forall r, ServiceProxyError.response error = Some r ->
        ServiceProxyError.status e = Some (ErrorResponse.status r)
        /\ ServiceProxyError.isTimeout e = None
        /\ ServiceProxyError.isNetworkError e = None
        /\ exists r', ServiceProxyError.response e = Some r'
                      /\ ErrorResponse.data r' = ErrorResponse.data r
                      /\ ErrorResponse.status r' = ErrorResponse.status r)
  /\ (~ network_code error -> ~ timeout_sign error ->
      ServiceProxyError.response error = None ->
        ServiceProxyError.status e = Some 502
        /\ ServiceProxyError.isTimeout e = None
        /\ ServiceProxyError.isNetworkError e = None).
Proof.
  cbv zeta. split; [| split; [| split]].
  - intros Hn. now rewrite transformError_network.
  - intros Hn Ht. now rewrite transformError_timeout.
  - intros Hn Ht r Hr. rewrite (transformError_response name error r) by assumption.
    simpl. repeat split. now exists r.
  - intros Hn Ht Hr. now rewrite transformError_other.
Qed.

Lemma not_network_code (error : ServiceProxyError.t) (c : string) :
  ServiceProxyError.code error = Some c ->
  String.eqb c "ECONNREFUSED" = false -> String.eqb c "ENOTFOUND" = false ->
  ~ network_code error.
Proof.
  intros Hc H1 H2 [H | H]; rewrite Hc in H; injection H as ->; discriminate.
Qed.

Lemma not_timeout_sign (error : ServiceProxyError.t) (c m : string) :
  ServiceProxyError.code error = Some c ->
  ServiceProxyError.message error = Some m ->
  String.eqb c "ETIMEDOUT" = false -> includes "timeout" m = false ->
  ~ timeout_sign error.
Proof.
  intros Hc Hm H1 H2 [H | (m' & H & Hi)].
  - rewrite Hc in H. injection H as ->. discriminate.
  - rewrite Hm in H. injection H as <-. congruence.
Qed.

Lemma transformError_precedence_witness :
  ServiceProxyError.status (transformError "users" refused) = Some 503
  /\ ServiceProxyError.status (transformError "users" timed_out) = Some 504
  /\ ServiceProxyError.status (transformError "users" bad_request) = Some 400
  /\ ServiceProxyError.status (transformError "users" broken_pipe) = Some 502.
Proof.
  split; [| split; [| split]].
  - apply (proj1 (transformError_precedence "users" refused)).
    left. reflexivity.
  - apply (proj1 (proj2 (transformError_precedence "users" timed_out))).
    + apply (not_network_code _ "ECONNABORTED"); reflexivity.
    + right. exists "timeout of 5000ms exceeded". split; reflexivity.
  - apply (proj1 (proj2 (proj2 (transformError_precedence "users" bad_request)))
             ltac:(apply (not_network_code _ "ERR_BAD_REQUEST"); reflexivity)
             ltac:(apply (not_timeout_sign _ "ERR_BAD_REQUEST"
                            "Request failed with status code 400"); reflexivity)
             (answered 400 (VStr "bad input")) eq_refl).
  - apply (proj2 (proj2 (proj2 (transformError_precedence "users" broken_pipe)))).
    + apply (not_network_code _ "EPIPE"); reflexivity.
    + apply (not_timeout_sign _ "EPIPE" "write EPIPE"); reflexivity.
    + reflexivity.
Defined.

(** ** Logical calls *)

Lemma retryable_nonRetryable e : retryable e -> nonRetryable e = false.
Proof.
  intros (v & Hs & H500 & H501 & H505). unfold nonRetryable. rewrite Hs.
  destruct (Z.ltb_spec v 500); [lia |].
  destruct (Z.eqb_spec v 501); [lia |].
  destruct (Z.eqb_spec v 505); [lia |].
  now rewrite andb_false_r.
Qed.

Lemma client_error_nonRetryable e : client_error e -> nonRetryable e = true.
Proof.
  intros (v & Hs & Hv). unfold nonRetryable, truthy_num. rewrite Hs.
  destruct (Z.eqb_spec v 0); [lia |].
  destruct (Z.ltb_spec v 500); [reflexivity | lia].
Qed.

Lemma no_status_nonRetryable e :
  ServiceProxyError.status e = None -> nonRetryable e = false.
Proof. intros Hs. unfold nonRetryable. now rewrite Hs. Qed.

Lemma request_eq method path options s :
  request method path options s =
  request_loop (requestConfig_of method path options (self s))
               (retries_of options (self s)) (now (world s))
               {| attempt := 0; lastError := None |} s.
Proof. reflexivity. Qed.

(** C2. With retry budget [r >= 0]: if every physical attempt fails with a
    retryable error, exactly [r + 1] attempts are issued and the call
    throws; if, after [k <= r] retryable failures, an attempt fails with a
    client error, that attempt is the last and the call throws its error;
    if, after [k <= r] retryable failures, an attempt succeeds, that attempt
    is the last and the call returns its data. *)
Theorem attempts_per_call (method path : string) (options : RequestOptions)
    (s : ProxyState) :
  let c := requestConfig_of method path options (self s) in
  let r := retries_of options (self s) in
  let i := axiosInstance (self s) in
  let first := issued (world s) in
  let result := request method path options s in
  0 <= r ->
  ((forall n, exists e, settled i n c = inr e /\ retryable e) ->
     issued (world (snd result)) = (first + (Z.to_nat r + 1))%nat
     /\ exists e, fst result = Rejected (ThrowError e))
  /\ (forall (k : nat) (e : ServiceProxyError.t),
        Z.of_nat k <= r ->
        (forall j, (j < k)%nat ->
           exists e', settled i (first + j) c = inr e' /\ retryable e') ->
        settled i (first + k) c = inr e -> client_error e ->
        issued (world (snd result)) = (first + (k + 1))%nat
        /\ fst result = Rejected (ThrowError e))
  /\ (forall (k : nat) (response : AxiosResponse.t),
        Z.of_nat k <= r ->
        (forall j, (j < k)%nat ->
           exists e', settled i (first + j) c = inr e' /\ retryable e') ->
        settled i (first + k) c = inl response ->
        issued (world (snd result)) = (first + (k + 1))%nat
        /\ exists answer, fst result = Resolved answer
             /\ ServiceProxyResponse.data answer = AxiosResponse.data response).
Proof.
  cbv zeta. intros Hr. rewrite request_eq.
  set (c := requestConfig_of _ _ _ _). set (r := retries_of _ _) in *.
  assert (Hweak : forall k first,
            (forall j, (j < k)%nat ->
               exists e', settled (axiosInstance (self s)) (first + j) c = inr e'
                          /\ retryable e') ->
            forall j, (j < k)%nat ->
              exists e', settled (axiosInstance (self s)) (first + j) c = inr e'
                         /\ nonRetryable e' = false).
  { intros k first H j Hj. destruct (H j Hj) as (e' & He' & Hre).
    exists e'. split; [assumption | now apply retryable_nonRetryable]. }
  split; [| split].
  - intros Hall.
    destruct (Hall (issued (world s) + Z.to_nat r)%nat) as (e & He & _).
    destruct (run_then_failure c r (now (world s)) (Z.to_nat r)
                {| attempt := 0; lastError := None |} s e)
      as (w & Hrun & Hiss & _).
    + simpl. lia.
    + apply Hweak. intros j _. apply Hall.
    + exact He.
    + right. simpl. lia.
    + rewrite Hrun. simpl. split; [rewrite Hiss; lia | now exists e].
  - intros k e Hk Hfail He Hce.
    destruct (run_then_failure c r (now (world s)) k
                {| attempt := 0; lastError := None |} s e)
      as (w & Hrun & Hiss & _).
    + simpl. lia.
    + now apply Hweak.
    + exact He.
    + left. now apply client_error_nonRetryable.
    + rewrite Hrun. simpl. split; [rewrite Hiss; lia | reflexivity].
  - intros k response Hk Hfail Hok.
    destruct (run_then_success c r (now (world s)) k
                {| attempt := 0; lastError := None |} s response)
      as (w & Hrun & Hiss & _).
    + simpl. lia.
    + now apply Hweak.
    + exact Hok.
    + rewrite Hrun. simpl. split; [rewrite Hiss; lia |].
      eexists. split; reflexivity.
Qed.

Lemma retryable_server_error : retryable (transformError "testService" server_error).
Proof. exists 500. split; [reflexivity | lia]. Qed.

Lemma client_error_bad_request : client_error (transformError "testService" bad_request).
Proof. exists 400. split; [reflexivity | lia]. Qed.

Lemma attempts_per_call_witness :
  (let result := get "/api/test" None None (test_proxy net_flaky) in
   issued (world (snd result)) = 3%nat
   /\ exists answer, fst result = Resolved answer
        /\ ServiceProxyResponse.data answer = VStr "success")
  /\ (let result := get "/api/test" None None (test_proxy (net_failing bad_request)) in
      issued (world (snd result)) = 1%nat
      /\ fst result = Rejected (ThrowError (transformError "testService" bad_request)))
  /\ (let result := get "/api/test" None None (test_proxy (net_failing server_error)) in
      issued (world (snd result)) = 3%nat
      /\ exists e, fst result = Rejected (ThrowError e)).
Proof.
  split; [| split].
  - apply (proj2 (proj2 (attempts_per_call "GET" "/api/test" (spread None None None)
                           (test_proxy net_flaky) ltac:(vm_compute; discriminate)))
             2%nat ok_response).
    + vm_compute. discriminate.
    + intros j Hj. exists (transformError "testService" server_error).
      split; [| exact retryable_server_error].
      destruct j as [| [| j]]; [reflexivity | reflexivity | lia].
    + reflexivity.
  - apply (proj1 (proj2 (attempts_per_call "GET" "/api/test" (spread None None None)
                           (test_proxy (net_failing bad_request))
                           ltac:(vm_compute; discriminate)))
             0%nat (transformError "testService" bad_request)).
    + vm_compute. discriminate.
    + intros j Hj. lia.
    + reflexivity.
    + exact client_error_bad_request.
  - apply (proj1 (attempts_per_call "GET" "/api/test" (spread None None None)
                    (test_proxy (net_failing server_error))
                    ltac:(vm_compute; discriminate))).
    intros n. exists (transformError "testService" server_error).
    split; [reflexivity | exact retryable_server_error].
Defined.

Section RetryShape.

Variable requestConfig : AxiosRequestConfig.t.
Variables retries startTime : Z.

(** Every run of the loop that is entered is a number of failed attempts,
    each followed by its backoff sleep, and then one last attempt. *)
Lemma loop_log : forall l s,
  attempt l <= retries ->
  exists k : nat,
    attempt l + Z.of_nat k <= retries
    /\ log (world (snd (request_loop requestConfig retries startTime l s)))
       = log (world s) ++ retry_log requestConfig (attempt l) k ++ [EvRequest requestConfig].
Proof.
  apply (loop_ind retries (fun l s => attempt l <= retries -> _)).
  intros l s IH Hle.
  rewrite loop_unfold.
  destruct (Z.leb_spec (attempt l) retries) as [_ | Hgt]; [| lia].
  rewrite body_cases.
  destruct (settles requestConfig s) as [response | error].
  - exists 0%nat. split; [lia | reflexivity].
  - cbv zeta. destruct (nonRetryable error || (attempt l + 1 >? retries)) eqn:Hstop.
    + exists 0%nat. split; [lia | reflexivity].
    + apply orb_false_elim in Hstop as [_ Hgt].
      destruct (Z.gtb_spec (attempt l + 1) retries); [discriminate |].
      match goal with
      | |- context [request_loop _ _ _ ?l1 ?s1] =>
          destruct (IH l1 s1 Hle eq_refl) as (k & Hk & Hlog); [simpl; lia |]
      end.
      exists (S k). split; [simpl in Hk; lia |].
      rewrite Hlog. simpl. now rewrite <- !app_assoc.
Qed.

End RetryShape.

(** C3. The backoff slept after the n-th failed attempt, before attempt
    n+1, is min(1000 * 2^(n-1), 5000) ms, with nothing added: 1000, 2000,
    4000, then 5000 from the fourth failure on. Every logical call with a
    budget [r >= 0] is a run of [k <= r] failed attempts, the n-th followed
    by a sleep of exactly that length, and one last attempt; when every
    attempt fails and none of the failures stops the retrying, [k = r]. *)
Theorem backoff_schedule :
  (backoffDelay 1 = 1000 /\ backoffDelay 2 = 2000 /\ backoffDelay 3 = 4000
   /\ backoffDelay 5 = 5000)
  /\ (forall n, 4 <= n -> backoffDelay n = 5000)
  /\ (forall (method path : string) (options : RequestOptions) (s : ProxyState),
        let c := requestConfig_of method path options (self s) in
        0 <= retries_of options (self s) ->
        exists k : nat,
          Z.of_nat k <= retries_of options (self s)
          /\ log (world (snd (request method path options s)))
             = log (world s)
               ++ flat_map
                    (fun n => [EvRequest c;
                               EvSleep (Z.min (1000 * 2 ^ (Z.of_nat n - 1)) 5000)])
                    (seq 1 k)
               ++ [EvRequest c])
  /\ (forall (method path : string) (options : RequestOptions) (s : ProxyState),
        let c := requestConfig_of method path options (self s) in
        0 <= retries_of options (self s) ->
        (forall n, exists e, settled (axiosInstance (self s)) n c = inr e
                             /\ nonRetryable e = false) ->
        log (world (snd (request method path options s)))
        = log (world s)
          ++ flat_map
               (fun n => [EvRequest c;
                          EvSleep (Z.min (1000 * 2 ^ (Z.of_nat n - 1)) 5000)])
               (seq 1 (Z.to_nat (retries_of options (self s))))
          ++ [EvRequest c]).
Proof.
  split; [repeat split |]. split; [| split].
  - intros n Hn. unfold backoffDelay.
    assert (2 ^ 3 <= 2 ^ (n - 1)) by (apply Z.pow_le_mono_r; lia).
    change (2 ^ 3) with 8 in *. lia.
  - intros method path options s c Hr. rewrite request_eq.
    destruct (loop_log (requestConfig_of method path options (self s))
                (retries_of options (self s)) (now (world s))
                {| attempt := 0; lastError := None |} s Hr) as (k & Hk & Hlog).
    exists k. split; [exact Hk |].
    rewrite Hlog. simpl. now rewrite retry_log_closed.
  - intros method path options s c Hr Hall. rewrite request_eq. fold c.
    destruct (Hall (issued (world s) + Z.to_nat (retries_of options (self s)))%nat)
      as (e & He & _).
    destruct (run_then_failure c (retries_of options (self s)) (now (world s))
                (Z.to_nat (retries_of options (self s)))
                {| attempt := 0; lastError := None |} s e)
      as (w & Hrun & _ & Hlog).
    + simpl. lia.
    + intros j _. apply Hall.
    + exact He.
    + right. simpl. lia.
    + rewrite Hrun. simpl. rewrite Hlog. simpl. now rewrite retry_log_closed.
Qed.

Lemma backoff_schedule_witness :
  let c := requestConfig_of "GET" "/users" no_options (self refused_proxy) in
  log (world (snd (get "/users" None None refused_proxy)))
  = [EvRequest c; EvSleep 1000; EvRequest c; EvSleep 2000;
     EvRequest c; EvSleep 4000; EvRequest c].
Proof.
  apply (proj2 (proj2 (proj2 backoff_schedule)) "GET" "/users" no_options refused_proxy
           ltac:(vm_compute; discriminate)).
  intros n. exists (transformError "users" refused). split; reflexivity.
Defined.

Lemma nonRetryable_spec e :
  nonRetryable e = true <->
  exists v, ServiceProxyError.status e = Some v
            /\ v <> 0 /\ (v < 500 \/ v = 501 \/ v = 505).
Proof.
  unfold nonRetryable, truthy_num.
  destruct (ServiceProxyError.status e) as [v |].
  - rewrite andb_true_iff, negb_true_iff, !orb_true_iff, Z.eqb_neq, Z.ltb_lt, !Z.eqb_eq.
    split.
    + intros [Hv H]. exists v. intuition.
    + intros (v' & [= <-] & Hv & H). intuition.
  - split; [discriminate | intros (v & H & _); discriminate].
Qed.

Lemma settled_new net name cfg n c :
  settled (axiosInstance (ServiceProxy_new net name cfg)) n c =
  match outcome (net n c) with
  | inl response => inl response
  | inr raw => inr (transformError name raw)
  end.
Proof. reflexivity. Qed.

(** C10. Failures that reach the loop without a status field (they did not
    pass through the classifier, which always assigns one) are retried:
    with budget [r >= 0] the call makes exactly [r + 1] physical attempts,
    sleeping the backoff between them, and then throws the last failure.
    The test that stops retrying holds only of an error whose status is
    present and non-zero. *)
Theorem statusless_failures_retried (method path : string) (options : RequestOptions)
    (s : ProxyState) :
  let c := requestConfig_of method path options (self s) in
  let r := retries_of options (self s) in
  let result := request method path options s in
  0 <= r ->
  (forall n, exists e, settled (axiosInstance (self s)) n c = inr e
                       /\ ServiceProxyError.status e = None) ->
  issued (world (snd result)) = (issued (world s) + (Z.to_nat r + 1))%nat
  /\ log (world (snd result))
     = log (world s)
       ++ flat_map (fun n => [EvRequest c; EvSleep (backoffDelay (Z.of_nat n))])
                   (seq 1 (Z.to_nat r))
       ++ [EvRequest c]
  /\ (exists e, fst result = Rejected (ThrowError e)
                /\ ServiceProxyError.status e = None)
  /\ (forall e, nonRetryable e = true ->
        exists v, ServiceProxyError.status e = Some v /\ v <> 0).
Proof.
  cbv zeta. intros Hr Hall. rewrite request_eq.
  set (c := requestConfig_of _ _ _ _). set (r := retries_of _ _) in *.
  destruct (Hall (issued (world s) + Z.to_nat r)%nat) as (e & He & Hnone).
  destruct (run_then_failure c r (now (world s)) (Z.to_nat r)
              {| attempt := 0; lastError := None |} s e)
    as (w & Hrun & Hiss & Hlog).
  - simpl. lia.
  - intros j _. destruct (Hall (issued (world s) + j)%nat) as (e' & He' & Hn').
    exists e'. split; [assumption | now apply no_status_nonRetryable].
  - exact He.
  - right. simpl. lia.
  - rewrite Hrun. simpl. split; [rewrite Hiss; lia |]. split; [| split].
    + rewrite Hlog. simpl. rewrite retry_log_closed. reflexivity.
    + now exists e.
    + intros e' H. apply nonRetryable_spec in H as (v & Hv & Hnz & _). now exists v.
Qed.

Lemma statusless_failures_retried_witness :
  let c := requestConfig_of "POST" "/api/test" no_options (self stub_proxy) in
  let result := post "/api/test" None None stub_proxy in
  issued (world (snd result)) = 3%nat
  /\ log (world (snd result))
     = [EvRequest c; EvSleep 1000; EvRequest c; EvSleep 2000; EvRequest c]
  /\ fst result = Rejected (ThrowError bare_failure).
Proof.
  destruct (statusless_failures_retried "POST" "/api/test" no_options stub_proxy
              ltac:(vm_compute; discriminate)
              ltac:(intros n; exists bare_failure; split; reflexivity))
    as (Hiss & Hlog & _ & _).
  split; [exact Hiss |]. split; [exact Hlog | reflexivity].
Defined.

(** C8. A logical call on a constructed proxy, with budget [r >= 0], ends
    with what its last physical attempt ended with: if that attempt
    failed, the call throws exactly the classified error of that attempt
    (nothing else is thrown, and nothing is returned in its place); it
    returns an answer only if that attempt returned it. *)
Theorem failure_propagates_unchanged (net : Adapter) (name : string)
    (cfg : ServiceProxyConfig.t) (w : World)
    (method path : string) (options : RequestOptions) :
  let p := ServiceProxy_new net name cfg in
  let s := {| self := p; world := w |} in
  let c := requestConfig_of method path options p in
  let result := request method path options s in
  0 <= retries_of options p ->
  exists last : nat,
    issued (world (snd result)) = S last
    /\ (issued w <= last)%nat
    /\ match outcome (net last c) with
       | inl response =>
           exists answer, fst result = Resolved answer
             /\ ServiceProxyResponse.data answer = AxiosResponse.data response
       | inr raw => fst result = Rejected (ThrowError (transformError name raw))
       end.
Proof.
  cbv zeta. intros Hr. rewrite request_eq.
  destruct (loop_final
              (requestConfig_of method path options (ServiceProxy_new net name cfg))
              (retries_of options (ServiceProxy_new net name cfg)) (now w)
              {| attempt := 0; lastError := None |}
              {| self := ServiceProxy_new net name cfg; world := w |} Hr)
    as (last & Hiss & Hge & Hend).
  exists last. split; [exact Hiss |]. split; [exact Hge |].
  simpl self in Hend. rewrite settled_new in Hend.
  destruct (outcome (net last _)) as [response | raw].
  - destruct Hend as (w' & Hres). eexists. split; [exact Hres | reflexivity].
  - exact Hend.
Qed.

Lemma failure_propagates_unchanged_witness :
  fst (get "/api/test" None None (test_proxy (net_failing bad_request)))
  = Rejected (ThrowError (transformError "testService" bad_request)).
Proof.
  destruct (failure_propagates_unchanged (net_failing bad_request) "testService"
              test_config {| now := 0; log := [] |} "GET" "/api/test" no_options
              ltac:(vm_compute; discriminate))
    as (last & _ & _ & Hend).
  exact Hend.
Defined.

(** C1. On a constructed proxy, a failed physical attempt (number
    [attempt + 1] of its call) is followed by another attempt exactly when
    the status the classifier gave it is at least 500, is neither 501 nor
    505, and the attempt number does not exceed the budget. The classifier
    gives 503, 504, 502 or the status of the answer received, which is
    taken not to be 0 (no HTTP status code is). A failure with a status in
    [400, 500), 429 included, ends the call at once whatever the attempt
    number. *)
Theorem retry_decision (net : Adapter) (name : string) (cfg : ServiceProxyConfig.t)
    (w : World) (c : AxiosRequestConfig.t) (r startTime : Z)
    (l : Loop) (raw : ServiceProxyError.t) :
  let s := {| self := ServiceProxy_new net name cfg; world := w |} in
  let result := request_loop c r startTime l s in
  attempt l <= r ->
  outcome (net (issued w) c) = inr raw ->
  (forall answer, ServiceProxyError.response raw = Some answer ->
                  ErrorResponse.status answer <> 0) ->
  exists v,
    ServiceProxyError.status (transformError name raw) = Some v
    /\ (v = 503 \/ v = 504 \/ v = 502
        \/ exists answer, ServiceProxyError.response raw = Some answer
                          /\ v = ErrorResponse.status answer)
    /\ ((issued w + 1 < issued (world (snd result)))%nat
        <-> 500 <= v /\ v <> 501 /\ v <> 505 /\ attempt l + 1 <= r)
    /\ (400 <= v < 500 ->
        issued (world (snd result)) = (issued w + 1)%nat
        /\ fst result = Rejected (ThrowError (transformError name raw))).
Proof.
  cbv zeta. intros Hle Hraw Hanswer.
  destruct (transformError_status name raw) as (v & Hv & Hkind).
  exists v. split; [exact Hv |]. split; [exact Hkind |].
  assert (Hnz : v <> 0).
  { destruct Hkind as [-> | [-> | [-> | (answer & Ha & ->)]]]; try lia.
    now apply Hanswer. }
  set (s := {| self := ServiceProxy_new net name cfg; world := w |}).
  assert (Hs : settles c s = inr (transformError name raw)).
  { unfold settles, s. simpl self. rewrite settled_new. simpl. now rewrite Hraw. }
  assert (Hstop : nonRetryable (transformError name raw) = true \/ attempt l = r ->
            issued (world (snd (request_loop c r startTime l s))) = (issued w + 1)%nat
            /\ fst (request_loop c r startTime l s)
               = Rejected (ThrowError (transformError name raw))).
  { intros [Hn | Heq].
    - rewrite (loop_fatal c r startTime l s _ Hle Hs Hn). simpl.
      rewrite (issued_requested c s). simpl. split; [lia | reflexivity].
    - rewrite (loop_exhausted c r startTime l s _ Heq Hs). simpl.
      rewrite (issued_requested c s). simpl. split; [lia | reflexivity]. }
  destruct (nonRetryable (transformError name raw)) eqn:Hn.
  - destruct (Hstop (or_introl eq_refl)) as [Hiss Hres].
    apply nonRetryable_spec in Hn as (v' & Hv' & _ & Hlow).
    rewrite Hv in Hv'. injection Hv' as <-.
    split; [| intros _; now split].
    rewrite Hiss. split; lia.
  - assert (Hhigh : 500 <= v /\ v <> 501 /\ v <> 505).
    { destruct (Z.lt_ge_cases v 500) as [H | H];
        [| destruct (Z.eq_dec v 501) as [H1 | H1];
           [| destruct (Z.eq_dec v 505) as [H5 | H5]; [| lia]]];
        exfalso; apply not_true_iff_false in Hn; apply Hn;
        apply nonRetryable_spec; exists v; (split; [exact Hv | split; [exact Hnz | lia]]). }
    split; [| intros ?; lia].
    destruct (Z.eq_dec (attempt l) r) as [Heq | Hne].
    + destruct (Hstop (or_intror Heq)) as [Hiss _]. rewrite Hiss. split; lia.
    + rewrite (loop_retry c r startTime l s _ ltac:(lia) Hs Hn).
      match goal with
      | |- context [request_loop _ _ _ ?l1 ?s1] =>
          destruct (loop_final c r startTime l1 s1) as (last & Hiss & Hge & _);
            [simpl; lia |]
      end.
      rewrite Hiss. simpl in Hge.
      rewrite issued_sleep, (issued_requested c s) in Hge. simpl in Hge.
      split; lia.
Qed.

Lemma retry_decision_witness :
  let c := requestConfig_of "GET" "/api/test" no_options
             (self (test_proxy (net_failing server_error))) in
  let first := {| attempt := 0; lastError := None |} in
  (1 < issued (world (snd (request_loop c 2 0 first
                             (test_proxy (net_failing server_error))))))%nat
  /\ issued (world (snd (request_loop c 2 0 first
                           (test_proxy (net_failing rate_limited))))) = 1%nat
  /\ fst (request_loop c 2 0 first (test_proxy (net_failing rate_limited)))
     = Rejected (ThrowError (transformError "testService" rate_limited)).
Proof.
  cbv zeta. split.
  - destruct (retry_decision (net_failing server_error) "testService" test_config
                {| now := 0; log := [] |}
                (requestConfig_of "GET" "/api/test" no_options
                   (self (test_proxy (net_failing server_error))))
                2 0 {| attempt := 0; lastError := None |} server_error
                ltac:(simpl; lia) eq_refl
                ltac:(intros answer [= <-]; simpl; lia))
      as (v & Hv & _ & Hiff & _).
    change (Some 500 = Some v) in Hv. injection Hv as <-.
    apply Hiff. simpl. lia.
  - destruct (retry_decision (net_failing rate_limited) "testService" test_config
                {| now := 0; log := [] |}
                (requestConfig_of "GET" "/api/test" no_options
                   (self (test_proxy (net_failing server_error))))
                2 0 {| attempt := 0; lastError := None |} rate_limited
                ltac:(simpl; lia) eq_refl
                ltac:(intros answer [= <-]; simpl; lia))
      as (v & Hv & _ & _ & Hclient).
    change (Some 429 = Some v) in Hv. injection Hv as <-.
    apply Hclient. lia.
Defined.

(** ** The health probe *)

(** C7. [healthCheck] never throws. It issues one GET of "/health" with a
    timeout of 5000 ms and nothing else (no retry, no sleep), whatever
    configuration the proxy stores, and resolves to a healthy result with
    the response time when the request succeeds and to an unhealthy result
    with the response time and the failure's message when it fails. *)
Theorem healthCheck_total (s : ProxyState) :
  let i := axiosInstance (self s) in
  let took := latency (adapter i (issued (world s)) health_request) in
  log (world (snd (healthCheck s))) = log (world s) ++ [EvRequest health_request]
  /\ fst (healthCheck s) =
     Resolved
       match settled i (issued (world s)) health_request with
       | inl _ =>
           {| health_status := healthy; health_responseTime := took; health_error := None |}
       | inr error =>
           {| health_status := unhealthy; health_responseTime := took;
              health_error := ServiceProxyError.message error |}
       end
  /\ (forall cfg,
        let s' := {| self := with_config (self s) cfg; world := world s |} in
        fst (healthCheck s') = fst (healthCheck s)
        /\ world (snd (healthCheck s')) = world (snd (healthCheck s))).
Proof.
  cbv zeta. unfold healthCheck, axios_get, axios_request. fold health_request.
  split; [| split].
  - now destruct (settled _ _ _).
  - destruct (settled _ _ _); simpl; do 2 f_equal; lia.
  - intros cfg. simpl. now destruct (settled _ _ _).
Qed.

(** ** The proxy is never written to *)

Lemma request_self method path options s :
  self (snd (request method path options s)) = self s.
Proof. rewrite request_eq. apply loop_self. Qed.

Lemma healthCheck_self s : self (snd (healthCheck s)) = self s.
Proof.
  unfold healthCheck. destruct (axios_get _ _ _ _) as [[response | error] w]; reflexivity.
Qed.

Lemma run_op_self o s : self (snd (run_op o s)) = self s.
Proof.
  destruct o as [pa pr op | pa da op | pa da op | pa op | pa da op |]; simpl.
  - unfold get. pose proof (request_self "GET" pa (spread None pr op) s) as H.
    now destruct (request _ _ _ _).
  - unfold post. pose proof (request_self "POST" pa (spread da None op) s) as H.
    now destruct (request _ _ _ _).
  - unfold put. pose proof (request_self "PUT" pa (spread da None op) s) as H.
    now destruct (request _ _ _ _).
  - unfold delete_. pose proof (request_self "DELETE" pa (spread None None op) s) as H.
    now destruct (request _ _ _ _).
  - unfold patch. pose proof (request_self "PATCH" pa (spread da None op) s) as H.
    now destruct (request _ _ _ _).
  - pose proof (healthCheck_self s) as H. now destruct (healthCheck s).
Qed.

Lemma run_ops_self os : forall s, self (run_ops os s) = self s.
Proof.
  induction os as [| o os IH]; intros s; [reflexivity |].
  unfold run_ops in *. simpl. rewrite IH. apply run_op_self.
Qed.

(** C9. No operation on a proxy ([get], [post], [put], [delete], [patch],
    with or without per-call overrides, or [healthCheck]), and no sequence
    of them, changes the proxy's stored configuration, service name or
    transport client. An override of a call governs that call: its
    requests carry the overriding timeout and its retries stay within the
    overriding budget. A call made without overrides after any sequence of
    operations runs on the configured timeout and budget. (Every verb is
    [request] on its spread options, so the last two parts are stated for
    [request].) *)
Theorem proxy_never_modified :
  (forall o s, self (snd (run_op o s)) = self s)
  /\ (forall os s, self (run_ops os s) = self s)
  /\ (forall os s method path data params r t,
        0 <= r -> t <> 0 ->
        let s1 := run_ops os s in
        let c := {| AxiosRequestConfig.method := toLowerCase method;
                    AxiosRequestConfig.url := path;
                    AxiosRequestConfig.data := data;
                    AxiosRequestConfig.params := params;
                    AxiosRequestConfig.timeout := t |} in
        let options := spread data params
                         (Some {| call_retries := Some r; call_timeout := Some t |}) in
        exists k : nat,
          Z.of_nat k <= r
          /\ log (world (snd (request method path options s1)))
             = log (world s1)
               ++ flat_map (fun n => [EvRequest c; EvSleep (backoffDelay (Z.of_nat n))])
                           (seq 1 k)
               ++ [EvRequest c])
  /\ (forall os s method path data params,
        0 <= ServiceProxyConfig.retries (config (self s)) ->
        let s1 := run_ops os s in
        let c := {| AxiosRequestConfig.method := toLowerCase method;
                    AxiosRequestConfig.url := path;
                    AxiosRequestConfig.data := data;
                    AxiosRequestConfig.params := params;
                    AxiosRequestConfig.timeout :=
                      ServiceProxyConfig.timeout (config (self s)) |} in
        exists k : nat,
          Z.of_nat k <= ServiceProxyConfig.retries (config (self s))
          /\ log (world (snd (request method path (spread data params None) s1)))
             = log (world s1)
               ++ flat_map (fun n => [EvRequest c; EvSleep (backoffDelay (Z.of_nat n))])
                           (seq 1 k)
               ++ [EvRequest c]).
Proof.
  split; [exact run_op_self |]. split; [exact run_ops_self |]. split.
  - intros os s method pa da pr r t Hr Ht s1 c options.
    rewrite request_eq.
    destruct (loop_log (requestConfig_of method pa options (self s1))
                (retries_of options (self s1)) (now (world s1))
                {| attempt := 0; lastError := None |} s1 Hr) as (k & Hk & Hlog).
    exists k. split; [exact Hk |].
    rewrite Hlog. simpl attempt. rewrite retry_log_closed.
    unfold requestConfig_of, spread, options, num_or, truthy_num. simpl.
    destruct (Z.eqb_spec t 0); [contradiction | reflexivity].
  - intros os s method pa da pr Hr s1 c.
    rewrite request_eq.
    assert (Hself : self s1 = self s) by apply run_ops_self.
    destruct (loop_log (requestConfig_of method pa (spread da pr None) (self s1))
                (retries_of (spread da pr None) (self s1)) (now (world s1))
                {| attempt := 0; lastError := None |} s1) as (k & Hk & Hlog).
    + unfold retries_of. simpl. now rewrite Hself.
    + exists k. split.
      * unfold retries_of in Hk. simpl in Hk. now rewrite Hself in Hk.
      * rewrite Hlog. simpl attempt. rewrite retry_log_closed.
        unfold requestConfig_of, spread. simpl. now rewrite Hself.
Qed.

Lemma proxy_never_modified_witness :
  let s := test_proxy (net_failing server_error) in
  let s1 := run_ops earlier_ops s in
  let c := {| AxiosRequestConfig.method := "get";
              AxiosRequestConfig.url := "/api/test";
              AxiosRequestConfig.data := None;
              AxiosRequestConfig.params := None;
              AxiosRequestConfig.timeout := 5000 |} in
  let c' := {| AxiosRequestConfig.method := "put";
               AxiosRequestConfig.url := "/api/test";
               AxiosRequestConfig.data := None;
               AxiosRequestConfig.params := None;
               AxiosRequestConfig.timeout := 250 |} in
  self s1 = self s
  /\ (exists k : nat,
        Z.of_nat k <= 2
        /\ log (world (snd (get "/api/test" None None s1)))
           = log (world s1)
             ++ flat_map (fun n => [EvRequest c; EvSleep (backoffDelay (Z.of_nat n))])
                         (seq 1 k)
             ++ [EvRequest c])
  /\ (exists k : nat,
        Z.of_nat k <= 1
        /\ log (world (snd (put "/api/test" None
                              (Some {| call_retries := Some 1; call_timeout := Some 250 |})
                              s1)))
           = log (world s1)
             ++ flat_map (fun n => [EvRequest c'; EvSleep (backoffDelay (Z.of_nat n))])
                         (seq 1 k)
             ++ [EvRequest c']).
Proof.
  cbv zeta. split; [| split].
  - apply (proj1 (proj2 proxy_never_modified)).
  - apply (proj2 (proj2 (proj2 proxy_never_modified)) earlier_ops
             (test_proxy (net_failing server_error)) "GET" "/api/test" None None).
    simpl. lia.
  - apply (proj1 (proj2 (proj2 proxy_never_modified)) earlier_ops
             (test_proxy (net_failing server_error)) "PUT" "/api/test" None None 1 250);
      lia.
Defined.

(** ** Plain objects *)

(** A key other than [__proto__] is assigned as an own property, whatever
    the prototype chain holds. *)
Lemma assign_ordinary h me o k v :
  k <> "__proto__" -> assign h me o k v = inr (set_field o k v).
Proof.
  intros Hk. unfold assign. destruct (has_own o k); [reflexivity |].
  destruct (find_property _ _ _ _); try reflexivity.
  destruct (String.eqb_spec k "__proto__"); [contradiction | reflexivity].
Qed.

(** On an object whose prototype is [Object.prototype], [k in o] holds of
    the own properties and of the inherited names. *)
Lemma has_property_plain h o k :
  proto o = ProtoObject -> has_property h o k = has_own o k || inherited k.
Proof.
  intros Hp. unfold has_property. rewrite Hp.
  destruct (size h); simpl; now destruct (inherited k).
Qed.

Lemma key_in_plain (h : Heap) l e k :
  h !! l = Some (mkObject ProtoObject e) ->
  key_in k l h = bool_decide (is_Some (e !! k)) || inherited k.
Proof.
  intros H. unfold key_in. rewrite H. now apply has_property_plain.
Qed.

Lemma ordinary_key (legs : list Leg) i r :
  "__proto__" ∉ key <$> legs -> legs !! i = Some r -> key r <> "__proto__".
Proof.
  intros Hkeys Hi Hk. apply Hkeys. rewrite <- Hk.
  apply list_elem_of_fmap_2, list_elem_of_lookup. now exists i.
Qed.

(** ** The aggregator *)

Lemma aggregate_leg_results h r st :
  key r <> "__proto__" ->
  fst (snd (aggregate_leg h r st)) = set_field (fst st) (key r) (leg_value r).
Proof.
  intros Hk. destruct st as [results console]. unfold aggregate_leg, leg_value.
  cbv zeta beta. destruct (service_get _ _ _); now rewrite !assign_ordinary.
Qed.

Section Batch.

Variable h : Heap.
Variable requests : list Leg.
Hypothesis ordinary_keys : "__proto__" ∉ key <$> requests.

Lemma aggregate_settle_results st i :
  fst (aggregate_settle h requests st i) =
  match requests !! i with
  | Some r => set_field (fst st) (key r) (leg_value r)
  | None => fst st
  end.
Proof.
  unfold aggregate_settle. destruct (requests !! i) as [r |] eqn:Hi; [| reflexivity].
  apply aggregate_leg_results. now apply (ordinary_key requests i).
Qed.

(** The prototype of the result is never changed. *)
Lemma aggregate_proto order : forall st,
  proto (fst (foldl (aggregate_settle h requests) st order)) = proto (fst st).
Proof.
  induction order as [| j order IH]; intros st; [reflexivity |].
  simpl. rewrite IH, aggregate_settle_results. now destruct (requests !! j).
Qed.

(** Every entry of the aggregate was written by a leg that settled. *)
Lemma aggregate_origin order k v :
  fields (fst (foldl (aggregate_settle h requests) (mkObject ProtoObject ∅, []) order)) !! k
  = Some v ->
  exists i r, i ∈ order /\ requests !! i = Some r /\ key r = k.
Proof.
  revert v. induction order as [| j order IH] using rev_ind; intros v.
  - simpl. now rewrite lookup_empty.
  - rewrite foldl_app. simpl. rewrite aggregate_settle_results.
    destruct (requests !! j) as [r |] eqn:Hj.
    + simpl. destruct (decide (key r = k)) as [<- | Hne].
      * intros _. exists j, r. rewrite elem_of_app, list_elem_of_singleton. auto.
      * rewrite lookup_insert_ne by assumption. intros H.
        destruct (IH v H) as (i & r' & Hi & Hr' & Hk). exists i, r'.
        rewrite elem_of_app. auto.
    + intros H. destruct (IH v H) as (i & r' & Hi & Hr' & Hk). exists i, r'.
      rewrite elem_of_app. auto.
Qed.

(** Legs that settle later and name other keys leave an entry alone. *)
Lemma aggregate_frame (k : string) (later : list nat) :
  forall st,
    (forall j r, j ∈ later -> requests !! j = Some r -> key r <> k) ->
    fields (fst (foldl (aggregate_settle h requests) st later)) !! k = fields (fst st) !! k.
Proof.
  induction later as [| j later IH]; intros st Hother; [reflexivity |].
  simpl. rewrite IH by (intros j' r Hj'; apply Hother; now right).
  rewrite aggregate_settle_results.
  destruct (requests !! j) as [r |] eqn:Hj; [| reflexivity].
  simpl. apply lookup_insert_ne.
  apply (Hother j r); [apply list_elem_of_here | exact Hj].
Qed.

(** Once a key has an entry, it keeps one. *)
Lemma aggregate_keeps_keys (k : string) (later : list nat) :
  forall st,
    is_Some (fields (fst st) !! k) ->
    is_Some (fields (fst (foldl (aggregate_settle h requests) st later)) !! k).
Proof.
  induction later as [| j later IH]; intros st Hk; [exact Hk |].
  simpl. apply IH. rewrite aggregate_settle_results.
  destruct (requests !! j) as [r |] eqn:Hj; [| exact Hk].
  simpl. destruct (decide (key r = k)) as [<- | Hne].
  - rewrite lookup_insert_eq. eauto.
  - now rewrite lookup_insert_ne.
Qed.

(** The entry of a key is that of the leg that settled last among the legs
    that name it. *)
Lemma aggregate_last earlier i later r :
  requests !! i = Some r ->
  (forall j r', j ∈ later -> requests !! j = Some r' -> key r' <> key r) ->
  fields (fst (foldl (aggregate_settle h requests) (mkObject ProtoObject ∅, [])
                 (earlier ++ i :: later))) !! key r
  = Some (leg_value r).
Proof.
  intros Hi Hother. rewrite foldl_app. simpl.
  rewrite aggregate_frame by assumption.
  rewrite aggregate_settle_results, Hi. simpl. apply lookup_insert_eq.
Qed.

End Batch.


(** What [aggregateServiceData] resolves to when no key is [__proto__]. *)
Lemma aggregate_entries (requests : list Leg) (order : list nat) (h : Heap) :
  "__proto__" ∉ key <$> requests ->
  order ≡ₚ seq 0 (length requests) ->
  exists results,
    fst (aggregateServiceData requests order h) = Resolved results
    /\ proto results = ProtoObject
    /\ dom (fields results) = list_to_set (key <$> requests)
    /\ forall earlier i later r,
         order = earlier ++ i :: later ->
         requests !! i = Some r ->
         (forall j r', j ∈ later -> requests !! j = Some r' -> key r' <> key r) ->
         fields results !! key r = Some (leg_value r).
Proof.
  intros Hordinary Horder. unfold aggregateServiceData.
  pose proof (aggregate_origin h requests Hordinary order) as Horigin.
  pose proof (aggregate_proto h requests Hordinary order (mkObject ProtoObject ∅, []))
    as Hproto.
  destruct (foldl (aggregate_settle h requests) (mkObject ProtoObject ∅, []) order)
    as [results console] eqn:Hfold.
  simpl in *. exists results.
  assert (Hlast : forall earlier i later r,
            order = earlier ++ i :: later ->
            requests !! i = Some r ->
            (forall j r', j ∈ later -> requests !! j = Some r' -> key r' <> key r) ->
            fields results !! key r = Some (leg_value r)).
  { intros earlier i later r -> Hi Hother.
    change results with (fst (results, console)). rewrite <- Hfold.
    now apply aggregate_last. }
  split; [reflexivity |]. split; [exact Hproto |]. split; [| exact Hlast].
  apply set_eq. intros k. rewrite elem_of_dom, elem_of_list_to_set. split.
  - intros [v Hv]. destruct (Horigin k v Hv) as (i & r & _ & Hr & <-).
    apply list_elem_of_fmap_2. apply list_elem_of_lookup. now exists i.
  - intros (r & -> & (i & Hi)%list_elem_of_lookup)%list_elem_of_fmap.
    assert (Hin : i ∈ order).
    { rewrite Horder. apply elem_of_seq. apply lookup_lt_Some in Hi. lia. }
    apply list_elem_of_split in Hin as (earlier & later & ->).
    rewrite foldl_app in Hfold. simpl in Hfold.
    change results with (fst (results, console)). rewrite <- Hfold.
    apply aggregate_keeps_keys; [exact Hordinary |].
    rewrite aggregate_settle_results, Hi by exact Hordinary.
    simpl. rewrite lookup_insert_eq. eauto.
Qed.




(** ** The enricher *)

(** What a leg whose key is not [__proto__] does to the copy, while the
    prototype of the copy is [Object.prototype]. *)
Lemma enrich_leg_heap l r st o :
  key r <> "__proto__" -> fst st !! l = Some o -> proto o = ProtoObject ->
  fst (snd (enrich_leg l r st)) =
  match service_get (service r) (path r) (params r) with
  | Resolved response =>
      <[l := set_field o (key r) (ServiceProxyResponse.data response)]> (fst st)
  | Rejected _ =>
      if has_own o (key r) || inherited (key r) then fst st
      else <[l := set_field o (key r) VNull]> (fst st)
  end.
Proof.
  intros Hk Ho Hp. destruct st as [h console]. simpl in Ho.
  unfold enrich_leg, obj_set, key_in. cbv zeta beta.
  rewrite Ho, (assign_ordinary h (Some l) o (key r) VNull Hk).
  rewrite has_property_plain by assumption.
  destruct (service_get _ _ _) as [response | error].
  - now rewrite (assign_ordinary h (Some l) o (key r) _ Hk).
  - now destruct (has_own o (key r) || inherited (key r)).
Qed.

Section Enrich.

Variable enrichedData : loc.
Variable enrichments : list Leg.
Hypothesis ordinary_keys : "__proto__" ∉ key <$> enrichments.
Variable b : gmap string Value.
Variable h0 : Heap.
Hypothesis copied : h0 !! enrichedData = Some (mkObject ProtoObject b).

(** One leg settles: only the copy changes, its prototype stays, it loses
    no own property, its key is in it afterwards, and its own property of
    that key is left alone when the leg failed and the copy or
    [Object.prototype] has the key. *)
Lemma enrich_step r st e :
  key r <> "__proto__" ->
  fst st !! enrichedData = Some (mkObject ProtoObject e) ->
  exists e',
    fst (snd (enrich_leg enrichedData r st)) !! enrichedData
    = Some (mkObject ProtoObject e')
    /\ (forall l, l <> enrichedData ->
          fst (snd (enrich_leg enrichedData r st)) !! l = fst st !! l)
    /\ (forall k, k <> key r -> e' !! k = e !! k)
    /\ e' !! key r =
       match service_get (service r) (path r) (params r) with
       | Resolved response => Some (ServiceProxyResponse.data response)
       | Rejected _ =>
           match e !! key r with
           | Some v => Some v
           | None => if inherited (key r) then None else Some VNull
           end
       end.
Proof.
  intros Hk He.
  rewrite (enrich_leg_heap enrichedData r st (mkObject ProtoObject e) Hk He eq_refl).
  unfold has_own, set_field. simpl.
  destruct (service_get _ _ _) as [response | error].
  - exists (<[key r := ServiceProxyResponse.data response]> e).
    split; [apply lookup_insert_eq |].
    split; [intros l Hl; now apply lookup_insert_ne |].
    split; [intros k Hne; now apply lookup_insert_ne | apply lookup_insert_eq].
  - destruct (e !! key r) as [v |] eqn:Hv.
    + rewrite bool_decide_eq_true_2 by eauto. simpl.
      exists e. rewrite Hv. auto.
    + rewrite bool_decide_eq_false_2 by (intros [? ?]; discriminate). simpl.
      destruct (inherited (key r)).
      * exists e. rewrite Hv. auto.
      * exists (<[key r := VNull]> e).
        split; [apply lookup_insert_eq |].
        split; [intros l Hl; now apply lookup_insert_ne |].
        split; [intros k Hne; now apply lookup_insert_ne | apply lookup_insert_eq].
Qed.


(** Whatever the order and however the keys repeat: only the copy
    changes, it never loses an own property, the key of a settled leg is in
    it, and a field of the record is still there unchanged unless a leg
    that names it succeeded. *)
Lemma enrich_monotone order :
  let h := fst (foldl (enrich_settle enrichedData enrichments) (h0, []) order) in
  (forall l, l <> enrichedData -> h !! l = h0 !! l)
  /\ exists e,
       h !! enrichedData = Some (mkObject ProtoObject e)
       /\ dom b ⊆ dom e
       /\ (forall i r, i ∈ order -> enrichments !! i = Some r ->
             key r ∈ dom e \/ inherited (key r) = true)
       /\ (forall k v, b !! k = Some v ->
             (forall i r, i ∈ order -> enrichments !! i = Some r -> key r = k ->
                exists err, service_get (service r) (path r) (params r) = Rejected err) ->
             e !! k = Some v).
Proof.
  induction order as [| j order IH] using rev_ind; cbv zeta.
  - simpl. split; [reflexivity |]. exists b. split; [exact copied |].
    split; [reflexivity |]. split; [| auto].
    intros i r Hin. now apply elem_of_nil in Hin.
  - destruct IH as (Hframe & e & He & Hdom & Hkeys & Hkeep).
    rewrite foldl_app. simpl.
    set (st := foldl _ _ order) in *.
    unfold enrich_settle.
    destruct (enrichments !! j) as [r |] eqn:Hj.
    2: { split; [exact Hframe |]. exists e. split; [exact He |]. split; [exact Hdom |].
         split.
         - intros i r [Hi | ->%list_elem_of_singleton]%elem_of_app Hr;
             [now apply (Hkeys i) | congruence].
         - intros k v Hb Hfail. apply (Hkeep k v Hb).
           intros i r Hi. apply Hfail. rewrite elem_of_app. auto. }
    destruct (enrich_step r st e (ordinary_key enrichments j r ordinary_keys Hj) He)
      as (e' & He' & Hframe' & Hother & Hkey).
    assert (Hgrow : dom e ⊆ dom e').
    { intros k [v Hv]%elem_of_dom. apply elem_of_dom.
      destruct (decide (k = key r)) as [-> | Hne]; [| rewrite Hother by assumption; eauto].
      rewrite Hkey, Hv. now destruct (service_get _ _ _). }
    split.
    + intros l Hl. rewrite Hframe' by assumption. now apply Hframe.
    + exists e'. split; [exact He' |]. split; [now transitivity (dom e) |]. split.
      * intros i r' [Hi | ->%list_elem_of_singleton]%elem_of_app Hr'.
        -- destruct (Hkeys i r' Hi Hr') as [Hin | Hin]; [left; now apply Hgrow | now right].
        -- rewrite Hj in Hr'. injection Hr' as <-.
           destruct (inherited (key r)) eqn:Hinh; [now right | left].
           apply elem_of_dom. rewrite Hkey.
           destruct (service_get _ _ _); [eauto |]. now destruct (e !! key r).
      * intros k v Hb Hfail.
        assert (Hbefore : e !! k = Some v).
        { apply (Hkeep k v Hb). intros i r' Hi. apply Hfail. rewrite elem_of_app. auto. }
        destruct (decide (k = key r)) as [-> | Hne]; [| now rewrite Hother].
        destruct (Hfail j r) as (err & Herr); [| exact Hj | reflexivity |].
        { rewrite elem_of_app, list_elem_of_singleton. auto. }
        now rewrite Hkey, Herr, Hbefore.
Qed.

End Enrich.




(** ** Error codes and error classes *)

(** Membership in a list of numerals, decided entry by entry. *)
Ltac listed := repeat constructor.
Ltac not_listed H :=
  repeat (apply elem_of_cons in H as [H | H]; [lia |]); now apply elem_of_nil in H.

(** X1. The default code of a status always has an entry in
    [STATUS_BY_CODE]. For the eleven statuses the gateway names (400, 401,
    403, 404, 405, 409, 429, 500, 502, 503, 504) that entry is the status
    itself; any other status of at least 500 maps to a code of status 500,
    and any other status below 500 to a code of status 400. *)
Theorem status_code_round_trip (status : Z) :
  exists v,
    STATUS_BY_CODE !! mapStatusToDefaultCode status = Some v
    /\ (status ∈ [400; 401; 403; 404; 405; 409; 429; 500; 502; 503; 504] -> v = status)
    /\ (status ∉ [400; 401; 403; 404; 405; 409; 429; 500; 502; 503; 504] ->
        v = if status >=? 500 then 500 else 400).
Proof.
  unfold mapStatusToDefaultCode.
  repeat match goal with
         | |- context [if ?x =? ?y then _ else _] =>
             destruct (Z.eqb_spec x y) as [-> | ?]
         end;
    try (eexists; split; [vm_compute; reflexivity |];
         split; [reflexivity | intros H; exfalso; apply H; listed]).
  destruct (status >=? 500) eqn:E;
    (eexists; split; [vm_compute; reflexivity |];
     split; [intros H; exfalso; not_listed H | reflexivity]).
Qed.

Lemma status_code_round_trip_witness :
  STATUS_BY_CODE !! mapStatusToDefaultCode 404 = Some 404
  /\ STATUS_BY_CODE !! mapStatusToDefaultCode 418 = Some 400.
Proof.
  destruct (status_code_round_trip 404) as (v & Hv & Hsame & _).
  destruct (status_code_round_trip 418) as (v' & Hv' & _ & Hother).
  rewrite Hv, Hv'. split; f_equal.
  - apply Hsame. listed.
  - apply Hother. intros H. not_listed H.
Defined.

Lemma mapStatusToDefaultCode_known (status : Z) :
  exists v text,
    STATUS_BY_CODE !! mapStatusToDefaultCode status = Some v
    /\ DEFAULT_MESSAGE_BY_CODE !! mapStatusToDefaultCode status = Some text
    /\ 400 <= v <= 504 /\ truthy_str text = true.
Proof.
  unfold mapStatusToDefaultCode.
  repeat match goal with
         | |- context [if ?b then _ else _] => destruct b
         end;
    (do 2 eexists; split; [vm_compute; reflexivity |];
     split; [vm_compute; reflexivity |]; split; [lia | reflexivity]).
Qed.

Lemma deriveCodeFromMessage_known (message : string) (status : option Z) :
  exists v text,
    STATUS_BY_CODE !! deriveCodeFromMessage message status = Some v
    /\ DEFAULT_MESSAGE_BY_CODE !! deriveCodeFromMessage message status = Some text
    /\ 400 <= v <= 504 /\ truthy_str text = true.
Proof.
  unfold deriveCodeFromMessage.
  repeat match goal with
         | |- context [if ?b then _ else _] => destruct b
         end;
    try apply mapStatusToDefaultCode_known;
    (do 2 eexists; split; [vm_compute; reflexivity |];
     split; [vm_compute; reflexivity |]; split; [lia | reflexivity]).
Qed.

(** X2. Whatever the message and the status, [deriveCodeFromMessage]
    returns a code that has a status in [STATUS_BY_CODE] (between 400 and
    504) and a non-empty text in [DEFAULT_MESSAGE_BY_CODE]: looking up the
    derived code in either table never misses. *)
Theorem derived_code_is_known (message : string) (status : option Z) :
  exists v text,
    STATUS_BY_CODE !! deriveCodeFromMessage message status = Some v
    /\ DEFAULT_MESSAGE_BY_CODE !! deriveCodeFromMessage message status = Some text
    /\ 400 <= v <= 504 /\ truthy_str text = true.
Proof. apply deriveCodeFromMessage_known. Qed.

Lemma lower_ascii_idempotent (c : ascii) : lower_ascii (lower_ascii c) = lower_ascii c.
Proof.
  destruct c as [[] [] [] [] [] [] [] []]; reflexivity.
Qed.

Lemma toLowerCase_idempotent (s : string) : toLowerCase (toLowerCase s) = toLowerCase s.
Proof.
  induction s as [| c s IH]; simpl; [reflexivity |].
  now rewrite lower_ascii_idempotent, IH.
Qed.

Lemma truthy_toLowerCase (s : string) : truthy_str (toLowerCase s) = truthy_str s.
Proof. now destruct s. Qed.

(** X3. [deriveCodeFromMessage] does not see the case of ASCII letters:
    two messages that are equal once lowercased get the same code. *)
Theorem derived_code_ignores_case (m1 m2 : string) (status : option Z) :
  toLowerCase m1 = toLowerCase m2 ->
  deriveCodeFromMessage m1 status = deriveCodeFromMessage m2 status.
Proof.
  intros H. unfold deriveCodeFromMessage.
  rewrite <- (truthy_toLowerCase m1), <- (truthy_toLowerCase m2), H.
  reflexivity.
Qed.

Lemma derived_code_ignores_case_witness :
  deriveCodeFromMessage "Upstream TIMEOUT" (Some 500)
  = deriveCodeFromMessage "upstream timeout" (Some 500).
Proof.
  apply (derived_code_ignores_case "Upstream TIMEOUT" "upstream timeout" (Some 500)).
  reflexivity.
Defined.

(** X4. The status reaches the result of [deriveCodeFromMessage] only
    through the fallback [mapStatusToDefaultCode(status || 500)]: two calls
    on one message that differ in the status either agree, or both come
    from the fallback. An absent status and a status of 0 both count as
    500. *)
Theorem derived_code_status_fallback (message : string) :
  (forall s1 s2,
     deriveCodeFromMessage message s1 = deriveCodeFromMessage message s2
     \/ (deriveCodeFromMessage message s1 = mapStatusToDefaultCode (num_or s1 500)
         /\ deriveCodeFromMessage message s2 = mapStatusToDefaultCode (num_or s2 500)))
  /\ deriveCodeFromMessage message None = deriveCodeFromMessage message (Some 500)
  /\ deriveCodeFromMessage message (Some 0) = deriveCodeFromMessage message (Some 500).
Proof.
  split; [| split; reflexivity].
  intros s1 s2. unfold deriveCodeFromMessage.
  repeat match goal with
         | |- context [if ?b then _ else _] => destruct b
         end; auto.
Qed.

Lemma truthy_num_nonzero (n : Z) : n <> 0 -> truthy_num n = true.
Proof. intros H. unfold truthy_num. now destruct (Z.eqb_spec n 0). Qed.

Lemma num_or_nonzero (n d : Z) : n <> 0 -> num_or (Some n) d = n.
Proof. intros H. unfold num_or. now rewrite truthy_num_nonzero. Qed.

Lemma STATUS_BY_CODE_range (c : string) (v : Z) :
  STATUS_BY_CODE !! c = Some v -> 400 <= v <= 504.
Proof.
  intros H. apply elem_of_list_to_map_2 in H.
  repeat (apply elem_of_cons in H as [[= -> ->] | H]; [lia |]).
  now apply elem_of_nil in H.
Qed.

(** X5. The status of a constructed [AppError] is never 0. A non-zero
    status passed to the constructor is the error's status. Without one
    (absent or 0) the status is the entry of the code in [STATUS_BY_CODE];
    when the code has no entry, it is 500, unless the code is a name every
    object inherits (such as "constructor"): then the status is no number
    but that member. An absent code is [INTERNAL]. *)
Theorem AppError_status_fallback (name message : string) (code : option string)
    (status : option Z) (details : option Value) :
  let c := default ERROR_CODES.INTERNAL code in
  match new_AppError name message code status details with
  | inl e =>
      app_status e <> 0
      /\ app_code e = c /\ app_name e = name /\ app_message e = message
      /\ (forall v, status = Some v -> v <> 0 -> app_status e = v)
      /\ (status = None \/ status = Some 0 ->
          app_status e = default 500 (STATUS_BY_CODE !! c))
  | inr member =>
      (status = None \/ status = Some 0)
      /\ STATUS_BY_CODE !! c = None /\ inherited c = true /\ member = c
  end
  /\ ((exists v, status = Some v /\ v <> 0) \/ inherited c = false ->
      is_built (new_AppError name message code status details))
  /\ (status = None \/ status = Some 0 ->
      STATUS_BY_CODE !! c = None -> inherited c = true ->
      new_AppError name message code status details = inr c).
Proof.
  cbv zeta.
  assert (Hmember : status = None \/ status = Some 0 ->
            STATUS_BY_CODE !! default ERROR_CODES.INTERNAL code = None ->
            inherited (default ERROR_CODES.INTERNAL code) = true ->
            new_AppError name message code status details
            = inr (default ERROR_CODES.INTERNAL code)).
  { intros Hs Ht Hi. unfold new_AppError, AppError_status, table_get.
    rewrite Ht, Hi. now destruct Hs as [-> | ->]. }
  refine ((fun H => conj (proj1 H) (conj (proj2 H) Hmember)) _). clear Hmember.
  unfold new_AppError, AppError_status, table_get.
  set (c := default ERROR_CODES.INTERNAL code).
  assert (Hfalsy : forall v, truthy_num v = false -> v = 0).
  { intros v. unfold truthy_num. destruct (Z.eqb_spec v 0); [auto | discriminate]. }
  destruct status as [v |]; [destruct (truthy_num v) eqn:Hv |].
  - assert (v <> 0) by (intros ->; discriminate). simpl.
    split; [| auto].
    split; [assumption |]. do 3 (split; [reflexivity |]).
    split; [congruence | intros [[=] | [=]]; contradiction].
  - apply Hfalsy in Hv as ->.
    destruct (STATUS_BY_CODE !! c) as [v |] eqn:E.
    + pose proof (STATUS_BY_CODE_range c v E). rewrite truthy_num_nonzero by lia. simpl.
      split; [| auto]. split; [lia |]. do 3 (split; [reflexivity |]).
      split; [intros v' [= <-]; contradiction | reflexivity].
    + destruct (inherited c) eqn:Hinh; simpl.
      * split; [auto |]. intros [(v & [= <-] & Hv) | [=]]. contradiction.
      * split; [| auto]. split; [lia |]. do 3 (split; [reflexivity |]).
        split; [intros v' [= <-]; contradiction | reflexivity].
  - destruct (STATUS_BY_CODE !! c) as [v |] eqn:E.
    + pose proof (STATUS_BY_CODE_range c v E). rewrite truthy_num_nonzero by lia. simpl.
      split; [| auto]. split; [lia |]. do 3 (split; [reflexivity |]).
      split; [discriminate | reflexivity].
    + destruct (inherited c) eqn:Hinh; simpl.
      * split; [auto |]. intros [(v & [=] & _) | [=]].
      * split; [| auto]. split; [lia |]. do 3 (split; [reflexivity |]).
        split; [discriminate | reflexivity].
Qed.

Lemma AppError_status_fallback_witness :
  new_AppError "AppError" "boom" (Some "constructor") None None = inr "constructor"
  /\ is_built (new_AppError "AppError" "teapot" (Some "constructor") (Some 418) None).
Proof.
  split.
  - apply (proj2 (proj2 (AppError_status_fallback "AppError" "boom" (Some "constructor")
                           None None))); [now left | reflexivity | reflexivity].
  - apply (proj1 (proj2 (AppError_status_fallback "AppError" "teapot" (Some "constructor")
                           (Some 418) None))).
    left. exists 418. split; [reflexivity | lia].
Defined.

(** X6. Every subclass of [AppError] passes the status that
    [STATUS_BY_CODE] holds for the code it passes, is operational, and is
    recognised by [isOperationalError]; the [GatewayError] the proxy throws
    is the one the class constructs. *)
Theorem error_classes_agree_with_table :
  let agrees e :=
    STATUS_BY_CODE !! app_code e = Some (app_status e)
    /\ isOperationalError (ThrowApp e) = true in
  (forall m d, agrees (ValidationError m d))
  /\ (forall m, agrees (AuthenticationError m))
  /\ (forall m, agrees (AuthorizationError m))
  /\ (forall m, agrees (NotFoundError m))
  /\ (forall m d, agrees (ConflictError m d))
  /\ (forall m, agrees (RateLimitError m))
  /\ (forall m d, agrees (ServiceUnavailableError m d))
  /\ (forall m d, agrees (TimeoutError m d))
  /\ (forall m d, agrees (new_GatewayError m d))
  /\ (forall m, GatewayError m = new_GatewayError (Some m) None).
Proof.
  cbv zeta. repeat split; vm_compute; reflexivity.
Qed.

(** ** Edge cases of a logical call *)

(** X7. With a negative retry budget the loop is never entered: the call
    issues no request, leaves the world as it was, and throws the
    [GatewayError] "Failed to connect to <service name>". *)
Theorem negative_budget_throws_GatewayError (method path : string)
    (options : RequestOptions) (s : ProxyState) :
  retries_of options (self s) < 0 ->
  request method path options s
  = (Rejected (ThrowApp (GatewayError ("Failed to connect to " ++ serviceName (self s))%string)),
     s).
Proof.
  intros H. rewrite request_eq. now rewrite loop_done by (simpl; lia).
Qed.

Lemma negative_budget_throws_GatewayError_witness :
  get "/api/test" None (Some {| call_retries := Some (-1); call_timeout := None |})
      (test_proxy net_flaky)
  = (Rejected (ThrowApp (GatewayError "Failed to connect to testService")),
     test_proxy net_flaky).
Proof.
  apply (negative_budget_throws_GatewayError "GET" "/api/test"
           (spread None None (Some {| call_retries := Some (-1); call_timeout := None |}))
           (test_proxy net_flaky)).
  vm_compute. reflexivity.
Defined.

(** What a call adds to the log, for any budget. *)
Lemma request_log (method path : string) (options : RequestOptions) (s : ProxyState) :
  let c := requestConfig_of method path options (self s) in
  let r := retries_of options (self s) in
  (r < 0 /\ log (world (snd (request method path options s))) = log (world s))
  \/ (0 <= r /\ exists k : nat,
        Z.of_nat k <= r
        /\ log (world (snd (request method path options s)))
           = log (world s) ++ retry_log c 0 k ++ [EvRequest c]).
Proof.
  cbv zeta. destruct (Z.lt_ge_cases (retries_of options (self s)) 0) as [Hneg | Hpos].
  - left. split; [exact Hneg |]. rewrite request_eq. rewrite loop_done by (simpl; lia).
    unfold after_loop. reflexivity.
  - right. split; [lia |]. rewrite request_eq.
    destruct (loop_log (requestConfig_of method path options (self s))
                (retries_of options (self s)) (now (world s))
                {| attempt := 0; lastError := None |} s) as (k & Hk & Hlog);
      [simpl; lia |].
    exists k. split; [exact Hk | exact Hlog].
Qed.

Lemma retry_log_sleeps c first k ms :
  0 <= first -> EvSleep ms ∈ retry_log c first k -> 1000 <= ms <= 5000.
Proof.
  revert first. induction k as [| k IH]; intros first Hfirst H; simpl in H.
  - now apply elem_of_nil in H.
  - apply elem_of_cons in H as [[=] | H].
    apply elem_of_cons in H as [[= ->] | H].
    + unfold backoffDelay. replace (first + 1 - 1) with first by lia.
      pose proof (Z.pow_pos_nonneg 2 first). lia.
    + apply (IH (first + 1)); [lia | exact H].
Qed.

(** X8. Whatever the attempts end with, what a logical call with budget
    [r] adds to the log is nothing when [r < 0] and otherwise, for some
    [k <= r], [k] times a request followed by its backoff sleep and then
    one last request: at most [r + 1] requests, exactly one sleep between
    two consecutive requests and none after the last one. Each of these
    sleeps lasts between 1000 and 5000 ms. *)
Theorem attempts_and_backoff_are_bounded (method path : string)
    (options : RequestOptions) (s : ProxyState) :
  let c := requestConfig_of method path options (self s) in
  let r := retries_of options (self s) in
  let after := world (snd (request method path options s)) in
  (r < 0 -> log after = log (world s))
  /\ (0 <= r ->
      exists k : nat,
        Z.of_nat k <= r
        /\ log after = log (world s) ++ retry_log c 0 k ++ [EvRequest c]
        /\ issued after = (issued (world s) + k + 1)%nat
        /\ forall ms, EvSleep ms ∈ retry_log c 0 k -> 1000 <= ms <= 5000).
Proof.
  cbv zeta.
  destruct (request_log method path options s) as [[Hneg Hlog] | [Hpos (k & Hk & Hlog)]].
  - split; [intros _; exact Hlog | lia].
  - split; [lia |]. intros _. exists k. split; [exact Hk |]. split; [exact Hlog |].
    split.
    + unfold issued. rewrite Hlog, !List.filter_app, !List.length_app.
      rewrite issued_retry_log. simpl. lia.
    + intros ms. apply retry_log_sleeps. lia.
Qed.

Lemma attempts_and_backoff_are_bounded_witness :
  exists k : nat,
    Z.of_nat k <= 3
    /\ issued (world (snd (get "/users" None None refused_proxy))) = (k + 1)%nat.
Proof.
  destruct (proj2 (attempts_and_backoff_are_bounded "GET" "/users" no_options
                     refused_proxy)) as (k & Hk & _ & Hiss & _).
  - vm_compute. discriminate.
  - exists k. split; [exact Hk | exact Hiss].
Defined.

Lemma retry_log_events c first k e :
  e ∈ retry_log c first k -> e = EvRequest c \/ exists ms, e = EvSleep ms.
Proof.
  revert first. induction k as [| k IH]; intros first H; simpl in H.
  - now apply elem_of_nil in H.
  - apply elem_of_cons in H as [-> | H]; [now left |].
    apply elem_of_cons in H as [-> | H]; [right; eauto |].
    now apply (IH (first + 1)).
Qed.

(** What a call adds to the log holds no request but its own. *)
Lemma request_added (method path : string) (options : RequestOptions) (s : ProxyState) :
  let c := requestConfig_of method path options (self s) in
  let r := retries_of options (self s) in
  exists added,
    log (world (snd (request method path options s))) = log (world s) ++ added
    /\ (forall c', EvRequest c' ∈ added -> c' = c)
    /\ (r < 0 -> added = [])
    /\ (0 <= r -> exists earlier, added = earlier ++ [EvRequest c]).
Proof.
  cbv zeta.
  destruct (request_log method path options s) as [[Hneg Hlog] | [Hpos (k & _ & Hlog)]].
  - exists []. rewrite app_nil_r. split; [exact Hlog |].
    split; [intros c' H; now apply elem_of_nil in H |]. split; [reflexivity | lia].
  - eexists. split; [exact Hlog |]. split; [| split; [lia | eauto]].
    intros c'. rewrite elem_of_app, list_elem_of_singleton.
    intros [H | [= ->]]; [| reflexivity].
    now apply retry_log_events in H as [[= ->] | (ms & [=])].
Qed.

(** X9. The two per-call overrides treat 0 differently. A [retries]
    override of 0 is honoured: the call adds exactly one request to the log
    and no sleep, whatever that request ends with. A [timeout] override of
    0 is not: the call's request carries the configured timeout, and every
    request the call adds to the log is that request. *)
Theorem zero_overrides (method path : string) (options : RequestOptions)
    (s : ProxyState) :
  let c := requestConfig_of method path options (self s) in
  let after := world (snd (request method path options s)) in
  (opt_retries options = Some 0 -> log after = log (world s) ++ [EvRequest c])
  /\ (opt_timeout options = Some 0 ->
      AxiosRequestConfig.timeout c = ServiceProxyConfig.timeout (config (self s))
      /\ exists added,
           log after = log (world s) ++ added
           /\ (forall c', EvRequest c' ∈ added -> c' = c)
           /\ (0 <= retries_of options (self s) ->
               exists earlier, added = earlier ++ [EvRequest c])).
Proof.
  cbv zeta. split.
  - intros H0.
    destruct (request_log method path options s) as [[Hneg _] | [_ (k & Hk & Hlog)]].
    + unfold retries_of in Hneg. rewrite H0 in Hneg. simpl in Hneg. lia.
    + unfold retries_of in Hk. rewrite H0 in Hk. simpl in Hk.
      assert (k = 0%nat) as -> by lia. exact Hlog.
  - intros H0. split; [unfold requestConfig_of; simpl; now rewrite H0 |].
    destruct (request_added method path options s) as (added & Hlog & Hall & _ & Hlast).
    exists added. split; [exact Hlog |]. split; [exact Hall | exact Hlast].
Qed.

Lemma zero_overrides_witness :
  log (world (snd (get "/api/test" None
                       (Some {| call_retries := Some 0; call_timeout := Some 0 |})
                       (test_proxy (net_failing server_error)))))
  = [EvRequest {| AxiosRequestConfig.method := "get";
                  AxiosRequestConfig.url := "/api/test";
                  AxiosRequestConfig.data := None;
                  AxiosRequestConfig.params := None;
                  AxiosRequestConfig.timeout := 5000 |}]
  /\ AxiosRequestConfig.timeout
       (requestConfig_of "GET" "/api/test"
          (spread None None (Some {| call_retries := Some 0; call_timeout := Some 0 |}))
          (self (test_proxy (net_failing server_error))))
     = 5000.
Proof.
  split.
  - apply (proj1 (zero_overrides "GET" "/api/test"
                    (spread None None (Some {| call_retries := Some 0; call_timeout := Some 0 |}))
                    (test_proxy (net_failing server_error)))).
    reflexivity.
  - apply (proj2 (zero_overrides "GET" "/api/test"
                    (spread None None (Some {| call_retries := Some 0; call_timeout := Some 0 |}))
                    (test_proxy (net_failing server_error)))).
    reflexivity.
Defined.

(** X10. What an operation adds to the log holds no request but the
    request of its verb: [get] sends the query and never a body, [post],
    [put] and [patch] send the body and never a query, [delete] sends
    neither, each with the verb in lower case, the path as given and the
    overriding or configured timeout; with a budget of at least 0 that
    request is sent at least once, and is the last event added, and with a
    negative budget nothing is added. [healthCheck] adds exactly one
    request, a GET of "/health" with timeout 5000. *)
Theorem operations_send_their_request (o : Op) (s : ProxyState) :
  let c := op_request o (self s) in
  exists added,
    log (world (snd (run_op o s))) = log (world s) ++ added
    /\ (forall c', EvRequest c' ∈ added -> c' = c)
    /\ match op_retries o (self s) with
       | Some r =>
           if r <? 0 then added = []
           else exists earlier, added = earlier ++ [EvRequest c]
       | None => added = [EvRequest c]
       end.
Proof.
  assert (Hcall : forall method pa options,
            let c := requestConfig_of method pa options (self s) in
            exists added,
              log (world (snd (request method pa options s))) = log (world s) ++ added
              /\ (forall c', EvRequest c' ∈ added -> c' = c)
              /\ if retries_of options (self s) <? 0 then added = []
                 else exists earlier, added = earlier ++ [EvRequest c]).
  { intros method pa options. cbv zeta.
    destruct (request_added method pa options s) as (added & Hlog & Hall & Hneg & Hpos).
    exists added. split; [exact Hlog |]. split; [exact Hall |].
    destruct (Z.ltb_spec (retries_of options (self s)) 0); auto. }
  destruct o as [pa pr op | pa da op | pa da op | pa op | pa da op |]; cbv zeta; simpl.
  - unfold get. specialize (Hcall "GET" pa (spread None pr op)).
    now destruct (request _ _ _ _).
  - unfold post. specialize (Hcall "POST" pa (spread da None op)).
    now destruct (request _ _ _ _).
  - unfold put. specialize (Hcall "PUT" pa (spread da None op)).
    now destruct (request _ _ _ _).
  - unfold delete_. specialize (Hcall "DELETE" pa (spread None None op)).
    now destruct (request _ _ _ _).
  - unfold patch. specialize (Hcall "PATCH" pa (spread da None op)).
    now destruct (request _ _ _ _).
  - unfold healthCheck, axios_get, axios_request.
    eexists. split; [destruct (settled _ _ _); reflexivity |].
    split; [| reflexivity].
    intros c'. rewrite list_elem_of_singleton. now intros [= ->].
Qed.

(** ** What the classifier always produces *)

Lemma str_or_truthy (x : option string) (d : string) :
  truthy_str d = true -> truthy_str (str_or x d) = true.
Proof.
  intros Hd. unfold str_or. destruct x as [m |]; [| exact Hd].
  destruct (truthy_str m) eqn:E; assumption.
Qed.

Lemma transformError_shape name error :
  exists m v,
    transformError name error =
    {| ServiceProxyError.message := Some m;
       ServiceProxyError.status := Some v;
       ServiceProxyError.code := Some (deriveCodeFromMessage m (Some v));
       ServiceProxyError.response := ServiceProxyError.response (transformError name error);
       ServiceProxyError.isTimeout := ServiceProxyError.isTimeout (transformError name error);
       ServiceProxyError.isNetworkError :=
         ServiceProxyError.isNetworkError (transformError name error) |}
    /\ truthy_str m = true.
Proof.
  destruct (network_code_dec error) as [Hn | Hn].
  { rewrite transformError_network by assumption. do 2 eexists. split; reflexivity. }
  destruct (timeout_sign_dec error) as [Ht | Ht].
  { rewrite transformError_timeout by assumption. do 2 eexists. split; reflexivity. }
  destruct (ServiceProxyError.response error) as [r |] eqn:Hr.
  - rewrite (transformError_response name error r) by assumption.
    do 2 eexists. split; [reflexivity |]. now apply str_or_truthy.
  - rewrite transformError_other by assumption.
    do 2 eexists. split; [reflexivity |]. now apply str_or_truthy.
Qed.

(** X11. Whatever failure it is given, the classifier produces an error
    with a non-empty message and with a code that [STATUS_BY_CODE] and
    [DEFAULT_MESSAGE_BY_CODE] know; it never flags an error as both a
    timeout and a network error, and it keeps an answer on the error only
    when it copies the answer's status. *)
Theorem classified_error_is_well_formed (name : string) (error : ServiceProxyError.t) :
  let e := transformError name error in
  (exists m, ServiceProxyError.message e = Some m /\ truthy_str m = true)
  /\ (exists c v, ServiceProxyError.code e = Some c /\ STATUS_BY_CODE !! c = Some v
                  /\ is_Some (DEFAULT_MESSAGE_BY_CODE !! c))
  /\ ~ (ServiceProxyError.isTimeout e = Some true
        /\ ServiceProxyError.isNetworkError e = Some true)
  /\ (forall r, ServiceProxyError.response e = Some r ->
        ServiceProxyError.status e = Some (ErrorResponse.status r)
        /\ ServiceProxyError.isTimeout e = None
        /\ ServiceProxyError.isNetworkError e = None).
Proof.
  cbv zeta. split; [| split; [| split]].
  - destruct (transformError_shape name error) as (m & v & -> & Hm). now exists m.
  - destruct (transformError_shape name error) as (m & v & -> & Hm). simpl.
    destruct (deriveCodeFromMessage_known m (Some v)) as (v' & text & Hv & Ht & _ & _).
    exists (deriveCodeFromMessage m (Some v)), v'.
    split; [reflexivity |]. split; [exact Hv | eauto].
  - destruct (network_code_dec error) as [Hn | Hn].
    { rewrite transformError_network by assumption. simpl. intros [[=] _]. }
    destruct (timeout_sign_dec error) as [Ht | Ht].
    { rewrite transformError_timeout by assumption. simpl. intros [_ [=]]. }
    destruct (ServiceProxyError.response error) as [r |] eqn:Hr.
    + rewrite (transformError_response name error r) by assumption. simpl. intros [[=] _].
    + rewrite transformError_other by assumption. simpl. intros [[=] _].
  - intros r. destruct (network_code_dec error) as [Hn | Hn].
    { rewrite transformError_network by assumption. simpl. discriminate. }
    destruct (timeout_sign_dec error) as [Ht | Ht].
    { rewrite transformError_timeout by assumption. simpl. discriminate. }
    destruct (ServiceProxyError.response error) as [r' |] eqn:Hr.
    + rewrite (transformError_response name error r') by assumption. simpl.
      intros [= <-]. auto.
    + rewrite transformError_other by assumption. simpl. discriminate.
Qed.

Lemma classified_error_is_well_formed_witness :
  ServiceProxyError.status (transformError "testService" bad_request) = Some 400.
Proof.
  destruct (classified_error_is_well_formed "testService" bad_request)
    as (_ & _ & _ & Hkept).
  destruct (Hkept (answered 400 (VStr "bad input")) eq_refl) as (Hstatus & _).
  exact Hstatus.
Defined.

(** ** The health endpoint *)

Lemma filter_length_all {A} (f : A -> bool) (l : list A) :
  length (List.filter f l) = length l <-> forall x, x ∈ l -> f x = true.
Proof.
  induction l as [| a l IH]; simpl.
  - split; [intros _ x H; now apply elem_of_nil in H | reflexivity].
  - pose proof (List.filter_length_le f l) as Hle.
    destruct (f a) eqn:E; simpl.
    + split.
      * intros H x [-> | Hx]%elem_of_cons; [exact E |]. apply IH; [lia | exact Hx].
      * intros H. f_equal. apply IH. intros x Hx. apply H. now right.
    + split; [lia |]. intros H. specialize (H a (list_elem_of_here _ _)). congruence.
Qed.

Lemma filter_length_none {A} (f : A -> bool) (l : list A) :
  length (List.filter f l) = 0%nat <-> forall x, x ∈ l -> f x = false.
Proof.
  induction l as [| a l IH]; simpl.
  - split; [intros _ x H; now apply elem_of_nil in H | reflexivity].
  - destruct (f a) eqn:E; simpl.
    + split; [discriminate |]. intros H.
      specialize (H a (list_elem_of_here _ _)). congruence.
    + rewrite IH. split.
      * intros H x [-> | Hx]%elem_of_cons; [exact E | now apply H].
      * intros H x Hx. apply H. now right.
Qed.

Lemma elem_of_statuses (services : gmap string HealthMiddleware.ServiceHealthStatus) v :
  v ∈ snd <$> map_to_list services <-> exists k, services !! k = Some v.
Proof.
  rewrite list_elem_of_fmap. split.
  - intros ([k v'] & -> & H%elem_of_map_to_list). now exists k.
  - intros (k & H). exists (k, v). split; [reflexivity |]. now apply elem_of_map_to_list.
Qed.

Lemma determineOverallStatus_cases
    (services : gmap string HealthMiddleware.ServiceHealthStatus) :
  let all_healthy :=
    forall k v, services !! k = Some v -> HealthMiddleware.is_healthy v = true in
  let none_healthy :=
    forall k v, services !! k = Some v -> HealthMiddleware.is_healthy v = false in
  match HealthMiddleware.determineOverallStatus services with
  | HealthMiddleware.overall_healthy => all_healthy
  | HealthMiddleware.overall_unhealthy => services <> ∅ /\ none_healthy
  | HealthMiddleware.overall_degraded => ~ all_healthy /\ ~ none_healthy
  end.
Proof.
  cbv zeta. unfold HealthMiddleware.determineOverallStatus.
  set (statuses := snd <$> map_to_list services).
  assert (Hall : length (List.filter HealthMiddleware.is_healthy statuses) = length statuses
                 <-> forall k v, services !! k = Some v ->
                       HealthMiddleware.is_healthy v = true).
  { rewrite filter_length_all. split.
    - intros H k v Hk. apply H, elem_of_statuses. now exists k.
    - intros H v (k & Hk)%elem_of_statuses. now apply (H k). }
  assert (Hnone : length (List.filter HealthMiddleware.is_healthy statuses) = 0%nat
                  <-> forall k v, services !! k = Some v ->
                        HealthMiddleware.is_healthy v = false).
  { rewrite filter_length_none. split.
    - intros H k v Hk. apply H, elem_of_statuses. now exists k.
    - intros H v (k & Hk)%elem_of_statuses. now apply (H k). }
  destruct (Nat.eqb_spec (length statuses) 0) as [Hempty | Hnonempty].
  - apply Hall. rewrite Hempty.
    pose proof (List.filter_length_le HealthMiddleware.is_healthy statuses). lia.
  - destruct (Nat.eqb_spec (length (List.filter HealthMiddleware.is_healthy statuses))
                           (length statuses)) as [Heq | Hne].
    + now apply Hall.
    + destruct (Nat.eqb_spec (length (List.filter HealthMiddleware.is_healthy statuses)) 0)
        as [H0 | Hn0].
      * split; [| now apply Hnone].
        intros ->. apply Hnonempty. unfold statuses. now rewrite map_to_list_empty.
      * split; [now rewrite <- Hall | now rewrite <- Hnone].
Qed.

(** X12. [determineOverallStatus] is "healthy" exactly when every service
    is healthy (in particular when none is configured), "unhealthy" exactly
    when there is at least one service and none is healthy, and "degraded"
    exactly when some service is healthy and some is not. *)
Theorem overall_status_characterised
    (services : gmap string HealthMiddleware.ServiceHealthStatus) :
  let all_healthy :=
    forall k v, services !! k = Some v -> HealthMiddleware.is_healthy v = true in
  let none_healthy :=
    forall k v, services !! k = Some v -> HealthMiddleware.is_healthy v = false in
  (HealthMiddleware.determineOverallStatus services = HealthMiddleware.overall_healthy
   <-> all_healthy)
  /\ (HealthMiddleware.determineOverallStatus services = HealthMiddleware.overall_unhealthy
      <-> services <> ∅ /\ none_healthy)
  /\ (HealthMiddleware.determineOverallStatus services = HealthMiddleware.overall_degraded
      <-> (exists k v, services !! k = Some v /\ HealthMiddleware.is_healthy v = true)
          /\ (exists k v, services !! k = Some v /\ HealthMiddleware.is_healthy v = false)).
Proof.
  cbv zeta. pose proof (determineOverallStatus_cases services) as H. cbv zeta in H.
  assert (Hsome : forall (b : bool),
            ~ (forall k v, services !! k = Some v -> HealthMiddleware.is_healthy v = b)
            <-> exists k v, services !! k = Some v
                            /\ HealthMiddleware.is_healthy v = negb b).
  { intros b. split.
    - intros Hnot.
      destruct (decide (map_Forall (fun _ v => HealthMiddleware.is_healthy v = b) services))
        as [Hall | Hex].
      + exfalso. apply Hnot. exact Hall.
      + apply map_not_Forall in Hex; [| apply _].
        destruct Hex as (k & v & Hk & Hv). exists k, v. split; [exact Hk |].
        destruct (HealthMiddleware.is_healthy v), b; simpl; congruence.
    - intros (k & v & Hk & Hv) Hall. rewrite (Hall k v Hk) in Hv. now destruct b. }
  assert (Hexcl : services <> ∅ ->
            (forall k v, services !! k = Some v -> HealthMiddleware.is_healthy v = true) ->
            (forall k v, services !! k = Some v -> HealthMiddleware.is_healthy v = false) ->
            False).
  { intros Hne Ht Hf. apply Hne. apply map_empty. intros k.
    destruct (services !! k) as [v |] eqn:Hk; [| reflexivity].
    specialize (Ht k v Hk). specialize (Hf k v Hk). congruence. }
  destruct (HealthMiddleware.determineOverallStatus services).
  - split; [tauto |]. split.
    + split; [discriminate |]. intros [Hne Hnone]. exfalso. now apply Hexcl.
    + split; [discriminate |]. intros [_ Hex]. apply (Hsome true) in Hex. tauto.
  - destruct H as [Hne Hnone]. split; [| split].
    + split; [discriminate |]. intros Hall. exfalso. now apply Hexcl.
    + tauto.
    + split; [discriminate |]. intros [Hex _]. apply (Hsome false) in Hex. tauto.
  - destruct H as [Hnall Hnnone]. split; [| split].
    + split; [discriminate | tauto].
    + split; [discriminate | tauto].
    + split; [| reflexivity]. intros _. split.
      * now apply (Hsome false).
      * now apply (Hsome true).
Qed.

Lemma check_leg_entry toISOString name s statuses :
  snd (HealthMiddleware.check_leg toISOString name s statuses)
  = <[name := probe_entry toISOString s]> statuses.
Proof.
  unfold HealthMiddleware.check_leg, healthCheck, axios_get, axios_request, probe_entry.
  fold health_request.
  destruct (settled _ _ _); simpl; do 2 f_equal; f_equal; lia.
Qed.

Section Probes.

Variable toISOString : Z -> string.
Variable entries : list (string * ProxyState).
Hypothesis distinct_names : NoDup (fst <$> entries).

Lemma check_origin order k v :
  foldl (HealthMiddleware.check_settle toISOString entries) ∅ order !! k = Some v ->
  exists i s, i ∈ order /\ entries !! i = Some (k, s).
Proof.
  revert v. induction order as [| j order IH] using rev_ind; intros v.
  - simpl. now rewrite lookup_empty.
  - rewrite foldl_app. simpl. unfold HealthMiddleware.check_settle at 1.
    destruct (entries !! j) as [[name s] |] eqn:Hj.
    + rewrite check_leg_entry.
      destruct (decide (name = k)) as [<- | Hne].
      * intros _. exists j, s. rewrite elem_of_app, list_elem_of_singleton. auto.
      * rewrite lookup_insert_ne by assumption. intros H.
        destruct (IH v H) as (i & s' & Hi & Hs'). exists i, s'.
        rewrite elem_of_app. auto.
    + intros H. destruct (IH v H) as (i & s' & Hi & Hs'). exists i, s'.
      rewrite elem_of_app. auto.
Qed.

Lemma check_values order i k s :
  i ∈ order -> entries !! i = Some (k, s) ->
  foldl (HealthMiddleware.check_settle toISOString entries) ∅ order !! k
  = Some (probe_entry toISOString s).
Proof.
  induction order as [| j order IH] using rev_ind; intros Hin Hi.
  - now apply elem_of_nil in Hin.
  - rewrite foldl_app. simpl. unfold HealthMiddleware.check_settle at 1.
    apply elem_of_app in Hin as [Hin | Hin%list_elem_of_singleton].
    + destruct (entries !! j) as [[name s'] |] eqn:Hj; [| now apply IH].
      rewrite check_leg_entry.
      destruct (decide (name = k)) as [-> | Hne].
      * assert (j = i) as ->.
        { apply (NoDup_lookup (fst <$> entries) j i k distinct_names).
          - now rewrite list_lookup_fmap, Hj.
          - now rewrite list_lookup_fmap, Hi. }
        rewrite Hi in Hj. injection Hj as <-. apply lookup_insert_eq.
      * rewrite lookup_insert_ne by assumption. now apply IH.
    + subst j. rewrite Hi, check_leg_entry. apply lookup_insert_eq.
Qed.

End Probes.

Lemma checkServicesHealth_entries toISOString (proxies : gmap string ProxyState) order :
  order ≡ₚ seq 0 (length (map_to_list proxies)) ->
  HealthMiddleware.checkServicesHealth toISOString proxies order
  = Resolved (probe_entry toISOString <$> proxies).
Proof.
  intros Horder. unfold HealthMiddleware.checkServicesHealth. f_equal.
  apply map_eq. intros k. rewrite lookup_fmap.
  destruct (proxies !! k) as [s |] eqn:Hk; simpl.
  - apply elem_of_map_to_list, list_elem_of_lookup in Hk as (i & Hi).
    apply (check_values toISOString (map_to_list proxies) (NoDup_fst_map_to_list _)
             order i k s); [| exact Hi].
    rewrite Horder. apply elem_of_seq. apply lookup_lt_Some in Hi. lia.
  - destruct (foldl _ _ order !! k) as [v |] eqn:Hv; [| reflexivity].
    apply check_origin in Hv as (i & s & _ & Hi).
    assert ((k, s) ∈ map_to_list proxies) as Hin
      by (apply list_elem_of_lookup; now exists i).
    apply elem_of_map_to_list in Hin. congruence.
Qed.

(** X13. [checkServicesHealth] never throws and, in whatever order the
    probes settle, returns exactly one entry per configured proxy: healthy
    with no error when the proxy's GET of "/health" succeeded, unhealthy
    with the failure's message (when it is a non-empty text) when it
    failed, each with the time the probe took. *)
Theorem services_health_is_complete (toISOString : Z -> string)
    (proxies : gmap string ProxyState) (order : list nat) :
  order ≡ₚ seq 0 (length (map_to_list proxies)) ->
  exists statuses,
    HealthMiddleware.checkServicesHealth toISOString proxies order = Resolved statuses
    /\ dom statuses = dom proxies
    /\ forall name s, proxies !! name = Some s ->
         exists entry,
           statuses !! name = Some entry
           /\ HealthMiddleware.responseTime entry
              = Some (latency (adapter (axiosInstance (self s)) (issued (world s))
                                       health_request))
           /\ match settled (axiosInstance (self s)) (issued (world s)) health_request with
              | inl _ =>
                  HealthMiddleware.status entry = HealthMiddleware.service_healthy
                  /\ HealthMiddleware.error entry = None
              | inr failure =>
                  HealthMiddleware.status entry = HealthMiddleware.service_unhealthy
                  /\ HealthMiddleware.error entry
                     = match ServiceProxyError.message failure with
                       | Some text => if truthy_str text then Some text else None
                       | None => None
                       end
              end.
Proof.
  intros Horder. exists (probe_entry toISOString <$> proxies).
  split; [now apply checkServicesHealth_entries |]. split; [apply dom_fmap_L |].
  intros name s Hs. exists (probe_entry toISOString s).
  split; [now rewrite lookup_fmap, Hs |].
  unfold probe_entry. now destruct (settled _ _ _).
Qed.

Lemma services_health_is_complete_witness :
  exists statuses,
    HealthMiddleware.checkServicesHealth (fun _ => "2026-01-01T00:00:00.000Z")
      two_backends [1; 0]%nat = Resolved statuses
    /\ dom statuses = dom two_backends.
Proof.
  destruct (services_health_is_complete (fun _ => "2026-01-01T00:00:00.000Z")
              two_backends [1; 0]%nat) as (statuses & Hres & Hdom & _).
  - vm_compute length. simpl. apply perm_swap.
  - exists statuses. split; [exact Hres | exact Hdom].
Defined.

Lemma probe_entry_healthy toISOString s :
  HealthMiddleware.is_healthy (probe_entry toISOString s) = true
  <-> exists response,
        settled (axiosInstance (self s)) (issued (world s)) health_request = inl response.
Proof.
  unfold probe_entry, HealthMiddleware.is_healthy.
  destruct (settled _ _ _) as [response | failure]; simpl.
  - split; [eauto | reflexivity].
  - split; [discriminate | intros (response & [=])].
Qed.

(** X14. The health endpoint never answers with [HEALTH_CHECK_FAILED]. In
    whatever order the probes settle, it answers 503 with [success: false]
    exactly when at least one proxy is configured and the probe of every
    proxy fails, and 200 with [success: true] otherwise: with no proxy
    configured, or with at least one backend that answers its probe. *)
Theorem health_endpoint_status {Metrics Num : Type} (toISOString : Z -> string)
    (process : HealthMiddleware.Process Metrics Num)
    (proxies : gmap string ProxyState) (order : list nat) :
  order ≡ₚ seq 0 (length (map_to_list proxies)) ->
  let response := HealthMiddleware.healthCheck toISOString process proxies order in
  let probe_fails s :=
    exists failure,
      settled (axiosInstance (self s)) (issued (world s)) health_request = inr failure in
  HealthMiddleware.error_code response = None
  /\ is_Some (HealthMiddleware.data response)
  /\ (HealthMiddleware.httpStatus response = 503
      /\ HealthMiddleware.success response = false
      \/ HealthMiddleware.httpStatus response = 200
         /\ HealthMiddleware.success response = true)
  /\ (HealthMiddleware.httpStatus response = 503
      <-> proxies <> ∅ /\ forall name s, proxies !! name = Some s -> probe_fails s).
Proof.
  intros Horder. cbv zeta. unfold HealthMiddleware.healthCheck.
  rewrite checkServicesHealth_entries by assumption.
  pose proof (determineOverallStatus_cases (probe_entry toISOString <$> proxies)) as H.
  cbv zeta in H.
  assert (Hfails : forall s,
            HealthMiddleware.is_healthy (probe_entry toISOString s) = false
            <-> exists failure,
                  settled (axiosInstance (self s)) (issued (world s)) health_request
                  = inr failure).
  { intros s. rewrite <- not_true_iff_false, probe_entry_healthy.
    destruct (settled _ _ _) as [response | failure].
    - split; [intros Hn; exfalso; apply Hn; eauto | intros (f & [=])].
    - split; [eauto | intros _ (r & [=])]. }
  destruct (HealthMiddleware.determineOverallStatus _); simpl.
  - split; [reflexivity |]. split; [eauto |]. split; [now right |].
    split; [discriminate |]. intros [Hne Hall]. exfalso.
    apply Hne. apply map_empty. intros k.
    destruct (proxies !! k) as [s |] eqn:Hk; [| reflexivity].
    specialize (H k (probe_entry toISOString s)).
    rewrite lookup_fmap, Hk in H. specialize (H eq_refl).
    apply Hall, Hfails in Hk. congruence.
  - destruct H as [Hne Hnone].
    split; [reflexivity |]. split; [eauto |]. split; [now left |].
    split; [| reflexivity]. intros _. split.
    + intros ->. apply Hne. apply fmap_empty.
    + intros name s Hs. apply Hfails. apply (Hnone name).
      now rewrite lookup_fmap, Hs.
  - destruct H as [_ Hnnone].
    split; [reflexivity |]. split; [eauto |]. split; [now right |].
    split; [discriminate |]. intros [_ Hall]. exfalso. apply Hnnone.
    intros k v (s & <- & Hs)%lookup_fmap_Some. apply Hfails. now apply (Hall k).
Qed.

Lemma health_endpoint_status_witness :
  HealthMiddleware.httpStatus
    (HealthMiddleware.healthCheck (fun _ => "2026-01-01T00:00:00.000Z")
       {| HealthMiddleware.systemHealth := tt;
          HealthMiddleware.uptime := tt;
          HealthMiddleware.npm_package_version := None;
          HealthMiddleware.started := 0;
          HealthMiddleware.assembled := 30;
          HealthMiddleware.finished := 30;
          HealthMiddleware.sent := 31 |}
       two_backends [1; 0]%nat) = 200.
Proof.
  destruct (health_endpoint_status (fun _ => "2026-01-01T00:00:00.000Z")
              {| HealthMiddleware.systemHealth := tt;
                 HealthMiddleware.uptime := tt;
                 HealthMiddleware.npm_package_version := None;
                 HealthMiddleware.started := 0;
                 HealthMiddleware.assembled := 30;
                 HealthMiddleware.finished := 30;
                 HealthMiddleware.sent := 31 |}
              two_backends [1; 0]%nat)
    as (_ & _ & Hcases & Hiff).
  - vm_compute length. simpl. apply perm_swap.
  - destruct Hcases as [[H503 _] | [H200 _]]; [| exact H200].
    apply Hiff in H503 as [_ Hall].
    destruct (Hall "serviceB" (test_proxy net_ok) eq_refl) as (failure & Hf).
    discriminate Hf.
Defined.

(** ** Batches whose keys repeat *)

(** X15. Also when keys repeat, as long as none is [__proto__],
    [aggregateServiceData] resolves to an object whose own properties are
    exactly the keys of the request specs (none for no specs). Where
    several specs share a key, the entry is that of the leg that settles
    last among them: its data, or [null] if it failed, whatever the earlier
    ones returned. *)
Theorem aggregate_last_settled_wins (requests : list Leg) (order : list nat) (h : Heap) :
  "__proto__" ∉ key <$> requests ->
  order ≡ₚ seq 0 (length requests) ->
  exists results,
    fst (aggregateServiceData requests order h) = Resolved results
    /\ proto results = ProtoObject
    /\ dom (fields results) = list_to_set (key <$> requests)
    /\ (requests = [] -> fields results = ∅)
    /\ forall earlier i later r,
         order = earlier ++ i :: later ->
         requests !! i = Some r ->
         (forall j r', j ∈ later -> requests !! j = Some r' -> key r' <> key r) ->
         fields results !! key r = Some (leg_value r).
Proof.
  intros Hordinary Horder.
  destruct (aggregate_entries requests order h Hordinary Horder)
    as (results & Hres & Hproto & Hdom & Hlast).
  exists results. split; [exact Hres |]. split; [exact Hproto |].
  split; [exact Hdom |]. split; [| exact Hlast].
  intros ->. apply dom_empty_iff_L. rewrite Hdom. reflexivity.
Qed.

Lemma aggregate_last_settled_wins_witness :
  exists results,
    fst (aggregateServiceData [leg_items; leg_items_again] [0; 1]%nat ∅) = Resolved results
    /\ fields results !! "items" = Some VNull
    /\ dom (fields results) = {[ "items" ]}.
Proof.
  destruct (aggregate_last_settled_wins [leg_items; leg_items_again] [0; 1]%nat ∅)
    as (results & Hres & _ & Hdom & _ & Hlast).
  - apply (bool_decide_unpack _). vm_compute. reflexivity.
  - reflexivity.
  - exists results. split; [exact Hres |]. split.
    + apply (Hlast [0%nat] 1%nat [] leg_items_again); [reflexivity | reflexivity |].
      intros j r' Hj. now apply elem_of_nil in Hj.
    + rewrite Hdom. simpl. now rewrite union_empty_r_L, union_idemp_L.
Defined.

(** X16. Also when keys repeat and whichever legs have settled, as long as
    no key is [__proto__], [enrichData] never removes a field: every own
    property of the base record is an own property of the result, and the
    key of every settled leg is in the result, as an own property unless it
    is a name every object inherits. A field of the base record keeps its
    value unless a leg that names it succeeds; a failed leg never changes
    it. The prototype of the result is [Object.prototype], and the base
    record and every other object of the heap are left as they were. *)
Theorem enrich_never_loses_a_field (baseData : loc) (enrichments : list Leg)
    (order : list nat) (h : Heap) (base : JsObject) :
  h !! baseData = Some base ->
  "__proto__" ∉ key <$> enrichments ->
  let result := enrichData baseData enrichments order h in
  let h' := fst (snd result) in
  exists enrichedData e,
    fst result = Resolved enrichedData
    /\ h' !! enrichedData = Some {| proto := ProtoObject; fields := e |}
    /\ h' !! baseData = Some base
    /\ (forall l, l <> enrichedData -> h' !! l = h !! l)
    /\ dom (fields base) ⊆ dom e
    /\ (forall i r, i ∈ order -> enrichments !! i = Some r ->
          key_in (key r) enrichedData h' = true
          /\ (inherited (key r) = false -> key r ∈ dom e))
    /\ (forall k v, fields base !! k = Some v ->
          (forall i r, i ∈ order -> enrichments !! i = Some r -> key r = k ->
             exists err, service_get (service r) (path r) (params r) = Rejected err) ->
          e !! k = Some v).
Proof.
  intros Hbase Hordinary. cbv zeta. unfold enrichData. simpl.
  set (l := fresh (dom h)).
  assert (Hfresh : h !! l = None) by (apply not_elem_of_dom, is_fresh).
  rewrite Hbase.
  destruct (enrich_monotone l enrichments Hordinary (fields base)
              (<[l := mkObject ProtoObject (fields base)]> h)
              (lookup_insert_eq _ _ _) order)
    as (Hframe & e & He & Hdom & Hkeys & Hkeep).
  assert (Hrest : forall l', l' <> l ->
            fst (foldl (enrich_settle l enrichments)
                   (<[l := mkObject ProtoObject (fields base)]> h, []) order) !! l'
            = h !! l').
  { intros l' Hl'. rewrite Hframe by assumption. now apply lookup_insert_ne. }
  exists l, e. split; [reflexivity |]. split; [exact He |].
  split; [rewrite Hrest by congruence; exact Hbase |].
  split; [exact Hrest |]. split; [exact Hdom |]. split; [| exact Hkeep].
  intros i r Hi Hr. cbn [fst snd]. destruct (Hkeys i r Hi Hr) as [Hin | Hinh].
  - split; [| intros _; exact Hin].
    rewrite (key_in_plain _ _ e _ He). apply elem_of_dom in Hin.
    now rewrite bool_decide_eq_true_2.
  - split; [| congruence].
    rewrite (key_in_plain _ _ e _ He), Hinh. apply orb_true_r.
Qed.

Lemma enrich_never_loses_a_field_witness :
  exists l e,
    fst (enrichData 1%positive [failing_leg "extra"; failing_leg "extra"] [1; 0]%nat
           {[ 1%positive := mkObject ProtoObject record_extra ]}) = Resolved l
    /\ fst (snd (enrichData 1%positive [failing_leg "extra"; failing_leg "extra"]
                   [1; 0]%nat {[ 1%positive := mkObject ProtoObject record_extra ]})) !! l
       = Some (mkObject ProtoObject e)
    /\ e !! "extra" = Some (VStr "kept").
Proof.
  destruct (enrich_never_loses_a_field 1%positive
              [failing_leg "extra"; failing_leg "extra"] [1; 0]%nat
              {[ 1%positive := mkObject ProtoObject record_extra ]}
              (mkObject ProtoObject record_extra))
    as (l & e & Hres & He & _ & _ & _ & _ & Hkeep).
  - reflexivity.
  - apply (bool_decide_unpack _). vm_compute. reflexivity.
  - exists l, e. split; [exact Hres |]. split; [exact He |].
    apply Hkeep; [reflexivity |].
    intros i r Hi Hr _.
    destruct i as [| [| i]]; simpl in Hr; [| | discriminate];
      injection Hr as <-; eexists; vm_compute; reflexivity.
Defined.

(** ** The error envelope *)

Lemma mapStatusToDefaultCode_nonempty (status : Z) :
  truthy_str (mapStatusToDefaultCode status) = true.
Proof.
  unfold mapStatusToDefaultCode.
  repeat match goal with
         | |- context [if ?b then _ else _] => destruct b
         end; reflexivity.
Qed.

Lemma DEFAULT_MESSAGE_BY_CODE_nonempty (c t : string) :
  DEFAULT_MESSAGE_BY_CODE !! c = Some t -> truthy_str t = true.
Proof.
  intros H. apply elem_of_list_to_map_2 in H.
  repeat (apply elem_of_cons in H as [[= -> ->] | H]; [reflexivity |]).
  now apply elem_of_nil in H.
Qed.

Lemma STATUS_BY_CODE_key_nonempty (c : string) (v : Z) :
  STATUS_BY_CODE !! c = Some v -> truthy_str c = true.
Proof.
  intros H. apply elem_of_list_to_map_2 in H.
  repeat (apply elem_of_cons in H as [[= -> ->] | H]; [reflexivity |]).
  now apply elem_of_nil in H.
Qed.


Lemma or_val_truthy (a b : Value) :
  ErrorNormalizer.truthy b = true ->
  ErrorNormalizer.truthy (ErrorNormalizer.or_val a b) = true.
Proof.
  intros Hb. unfold ErrorNormalizer.or_val.
  destruct (ErrorNormalizer.truthy a) eqn:E; assumption.
Qed.

Lemma or_val_left (a b : Value) :
  ErrorNormalizer.truthy a = true -> ErrorNormalizer.or_val a b = a.
Proof. intros Ha. unfold ErrorNormalizer.or_val. now rewrite Ha. Qed.

Lemma or_field_truthy (a b : Field) :
  ErrorNormalizer.truthy_field b = true ->
  ErrorNormalizer.truthy_field (ErrorNormalizer.or_field a b) = true.
Proof.
  intros Hb. unfold ErrorNormalizer.or_field.
  destruct (ErrorNormalizer.truthy_field a) eqn:E; assumption.
Qed.

(** What a table of default messages gives for a text. *)
Lemma table_get_message (c : string) :
  table_get VStr DEFAULT_MESSAGE_BY_CODE c
  = match DEFAULT_MESSAGE_BY_CODE !! c with
    | Some t => Plain (VStr t)
    | None => if inherited c then Member c else Plain VUndefined
    end.
Proof. reflexivity. Qed.

(** The key of a table lookup that throws is an object with an own
    property "toString". *)
Lemma at_code_throws σ table v x :
  ErrorNormalizer.at_code σ table v = inl x ->
  x = ErrorNormalizer.TypeError_primitive
  /\ exists l o, v = VRef l /\ σ !! l = Some o /\ is_Some (o !! "toString").
Proof.
  unfold ErrorNormalizer.at_code. destruct v as [| | | | | l]; try discriminate.
  destruct (σ !! l) as [o |] eqn:Hl; [| discriminate].
  case_bool_decide as Hown; [| discriminate].
  intros [= <-]. split; [reflexivity |]. now exists l, o.
Qed.

(** A table lookup gives an inherited member only for a text that names
    one and is no key of the table. *)
Lemma at_code_member σ v name :
  ErrorNormalizer.at_code σ DEFAULT_MESSAGE_BY_CODE v = inr (Member name) ->
  v = VStr name /\ inherited name = true /\ DEFAULT_MESSAGE_BY_CODE !! name = None.
Proof.
  unfold ErrorNormalizer.at_code. destruct v as [| | | | c | l]; try discriminate.
  - rewrite table_get_message.
    destruct (DEFAULT_MESSAGE_BY_CODE !! c) eqn:Hc; [discriminate |].
    destruct (inherited c) eqn:Hi; [| discriminate]. now intros [= <-].
  - destruct (σ !! l); [case_bool_decide |]; discriminate.
Qed.

Lemma buildEnvelope_given NODE_ENV now σ code message details status :
  ErrorNormalizer.truthy_field message = true ->
  ErrorNormalizer.buildEnvelope NODE_ENV now σ code message details status
  = inr {| ErrorNormalizer.success := false;
           ErrorNormalizer.error :=
             {| ErrorNormalizer.code :=
                  ErrorNormalizer.or_val code
                    (VStr (mapStatusToDefaultCode (num_or status 500)));
                ErrorNormalizer.message := message;
                ErrorNormalizer.details :=
                  if ErrorNormalizer.truthy details
                     && negb (bool_decide (NODE_ENV = Some "production"))
                  then Some details else None |};
           ErrorNormalizer.timestamp := now |}.
Proof. intros H. unfold ErrorNormalizer.buildEnvelope. cbv zeta. now rewrite H. Qed.

Lemma buildEnvelope_missing NODE_ENV now σ code message details status :
  ErrorNormalizer.truthy_field message = false ->
  ErrorNormalizer.buildEnvelope NODE_ENV now σ code message details status
  = match ErrorNormalizer.at_code σ DEFAULT_MESSAGE_BY_CODE
            (ErrorNormalizer.or_val code
               (VStr (mapStatusToDefaultCode (num_or status 500)))) with
    | inl thrown => inl thrown
    | inr by_code =>
        inr {| ErrorNormalizer.success := false;
               ErrorNormalizer.error :=
                 {| ErrorNormalizer.code :=
                      ErrorNormalizer.or_val code
                        (VStr (mapStatusToDefaultCode (num_or status 500)));
                    ErrorNormalizer.message :=
                      ErrorNormalizer.or_field by_code (Plain (VStr "Internal server error"));
                    ErrorNormalizer.details :=
                      if ErrorNormalizer.truthy details
                         && negb (bool_decide (NODE_ENV = Some "production"))
                      then Some details else None |};
               ErrorNormalizer.timestamp := now |}
    end.
Proof.
  intros H. unfold ErrorNormalizer.buildEnvelope. cbv zeta. rewrite H.
  now destruct (ErrorNormalizer.at_code _ _ _).
Qed.

Lemma buildEnvelope_well_formed NODE_ENV now σ code message details status r :
  ErrorNormalizer.buildEnvelope NODE_ENV now σ code message details status = inr r ->
  ErrorNormalizer.success r = false
  /\ ErrorNormalizer.code (ErrorNormalizer.error r)
     = ErrorNormalizer.or_val code (VStr (mapStatusToDefaultCode (num_or status 500)))
  /\ ErrorNormalizer.truthy (ErrorNormalizer.code (ErrorNormalizer.error r)) = true
  /\ ErrorNormalizer.truthy_field (ErrorNormalizer.message (ErrorNormalizer.error r)) = true
  /\ (forall name,
        ErrorNormalizer.message (ErrorNormalizer.error r) = Member name ->
        message = Member name
        \/ (ErrorNormalizer.code (ErrorNormalizer.error r) = VStr name
            /\ inherited name = true)).
Proof.
  assert (Hcode : ErrorNormalizer.truthy
                    (ErrorNormalizer.or_val code
                       (VStr (mapStatusToDefaultCode (num_or status 500)))) = true).
  { apply or_val_truthy. simpl. apply mapStatusToDefaultCode_nonempty. }
  destruct (ErrorNormalizer.truthy_field message) eqn:Hm.
  - rewrite buildEnvelope_given by assumption. intros [= <-]. simpl. auto 6.
  - rewrite buildEnvelope_missing by assumption.
    destruct (ErrorNormalizer.at_code _ _ _) as [thrown | by_code] eqn:Hat; [discriminate |].
    intros [= <-]. simpl.
    split; [reflexivity |]. split; [reflexivity |]. split; [exact Hcode |].
    split; [now apply or_field_truthy |].
    intros name. unfold ErrorNormalizer.or_field.
    destruct (ErrorNormalizer.truthy_field by_code); [| discriminate].
    intros ->. apply at_code_member in Hat as (Hv & Hi & _). auto.
Qed.

Lemma buildEnvelope_throws NODE_ENV now σ code message details status x :
  ErrorNormalizer.buildEnvelope NODE_ENV now σ code message details status = inl x ->
  x = ErrorNormalizer.TypeError_primitive
  /\ ErrorNormalizer.truthy_field message = false
  /\ exists l o, code = VRef l /\ σ !! l = Some o /\ is_Some (o !! "toString").
Proof.
  destruct (ErrorNormalizer.truthy_field message) eqn:Hm.
  - rewrite buildEnvelope_given by assumption. discriminate.
  - rewrite buildEnvelope_missing by assumption.
    destruct (ErrorNormalizer.at_code _ _ _) as [thrown | by_code] eqn:Hat; [| discriminate].
    intros [= <-]. apply at_code_throws in Hat as (-> & l & o & Hv & Hl & Hown).
    split; [reflexivity |]. split; [reflexivity |]. exists l, o.
    split; [| auto]. unfold ErrorNormalizer.or_val in Hv.
    now destruct (ErrorNormalizer.truthy code).
Qed.

(** X17. [buildEnvelope] throws only when it has no message and the code
    is an object with an own property "toString". Otherwise the envelope
    has [success: false], a truthy code and a truthy message: a truthy code
    or message it is given is kept, a missing code is the default code of
    the status (of 500 without a status), and a missing message is the
    default text of the code, "Internal server error" when the code is no
    text or has no default text, and, when the code is no key of the table
    but a name every object inherits (such as "constructor"), that member,
    which is no text. Details are attached only when they are truthy and
    [NODE_ENV] is not "production". *)
Theorem envelope_is_never_empty (NODE_ENV : option string) (now : string)
    (σ : gmap positive (gmap string Value))
    (code : Value) (message : Field) (details : Value) (status : option Z) :
  match ErrorNormalizer.buildEnvelope NODE_ENV now σ code message details status with
  | inr r =>
      let e := ErrorNormalizer.error r in
      ErrorNormalizer.success r = false
      /\ ErrorNormalizer.truthy (ErrorNormalizer.code e) = true
      /\ ErrorNormalizer.truthy_field (ErrorNormalizer.message e) = true
      /\ (ErrorNormalizer.truthy code = true -> ErrorNormalizer.code e = code)
      /\ (ErrorNormalizer.truthy code = false ->
          ErrorNormalizer.code e = VStr (mapStatusToDefaultCode (num_or status 500)))
      /\ (ErrorNormalizer.truthy_field message = true ->
          ErrorNormalizer.message e = message)
      /\ (ErrorNormalizer.truthy_field message = false ->
          forall c, ErrorNormalizer.code e = VStr c ->
            ErrorNormalizer.message e
            = match DEFAULT_MESSAGE_BY_CODE !! c with
              | Some t => Plain (VStr t)
              | None =>
                  if inherited c then Member c
                  else Plain (VStr "Internal server error")
              end)
      /\ (ErrorNormalizer.truthy_field message = false ->
          (forall c, ErrorNormalizer.code e <> VStr c) ->
          ErrorNormalizer.message e = Plain (VStr "Internal server error"))
      /\ (ErrorNormalizer.details e = Some details
          <-> ErrorNormalizer.truthy details = true /\ NODE_ENV <> Some "production")
      /\ (ErrorNormalizer.details e = None
          <-> ErrorNormalizer.truthy details = false \/ NODE_ENV = Some "production")
  | inl thrown =>
      thrown = ErrorNormalizer.TypeError_primitive
      /\ ErrorNormalizer.truthy_field message = false
      /\ exists l o, code = VRef l /\ σ !! l = Some o /\ is_Some (o !! "toString")
  end.
Proof.
  destruct (ErrorNormalizer.buildEnvelope NODE_ENV now σ code message details status)
    as [thrown | r] eqn:Hbuild; [now apply buildEnvelope_throws in Hbuild |].
  cbv zeta.
  destruct (buildEnvelope_well_formed _ _ _ _ _ _ _ _ Hbuild) as (Hs & Hc & Hct & Hmt & _).
  split; [exact Hs |]. split; [exact Hct |]. split; [exact Hmt |].
  split; [intros H; rewrite Hc; now apply or_val_left |].
  split; [intros H; rewrite Hc; unfold ErrorNormalizer.or_val; now rewrite H |].
  assert (Hdetails : ErrorNormalizer.details (ErrorNormalizer.error r)
                     = if ErrorNormalizer.truthy details
                          && negb (bool_decide (NODE_ENV = Some "production"))
                       then Some details else None).
  { destruct (ErrorNormalizer.truthy_field message) eqn:Hm.
    - rewrite buildEnvelope_given in Hbuild by assumption. now injection Hbuild as <-.
    - rewrite buildEnvelope_missing in Hbuild by assumption.
      destruct (ErrorNormalizer.at_code _ _ _); [discriminate |].
      now injection Hbuild as <-. }
  split; [| split; [| split]].
  - intros Hm. rewrite buildEnvelope_given in Hbuild by assumption.
    now injection Hbuild as <-.
  - intros Hm c Hcode. rewrite buildEnvelope_missing in Hbuild by assumption.
    rewrite <- Hc, Hcode in Hbuild. simpl in Hbuild. rewrite table_get_message in Hbuild.
    injection Hbuild as <-. simpl.
    destruct (DEFAULT_MESSAGE_BY_CODE !! c) as [t |] eqn:Ht.
    + unfold ErrorNormalizer.or_field. simpl.
      now rewrite (DEFAULT_MESSAGE_BY_CODE_nonempty c t Ht).
    + now destruct (inherited c).
  - intros Hm Hno. rewrite buildEnvelope_missing in Hbuild by assumption.
    rewrite <- Hc in Hbuild.
    destruct (ErrorNormalizer.code (ErrorNormalizer.error r)) as [| | | | c | l] eqn:Hcode;
      simpl in Hbuild;
      try (injection Hbuild as <-; reflexivity).
    + now destruct (Hno c).
    + unfold ErrorNormalizer.at_code in Hbuild. revert Hbuild.
      match goal with
      | |- context [match ?x with Some _ => _ | None => _ end] => destruct x
      end; [destruct (bool_decide (is_Some (_ !! "toString"))) |];
        intros Hb; cbn in Hb; try discriminate Hb;
        injection Hb as <-; reflexivity.
  - rewrite Hdetails. split.
    + destruct (ErrorNormalizer.truthy details); simpl.
      * case_bool_decide; simpl.
        -- split; [discriminate | intros [_ H']; contradiction].
        -- split; [intros _; now split | reflexivity].
      * split; [discriminate | intros [[=] _]].
    + destruct (ErrorNormalizer.truthy details); simpl.
      * case_bool_decide; simpl.
        -- split; [intros _; now right | reflexivity].
        -- split; [discriminate | intros [[=] | H']; contradiction].
      * split; [intros _; now left | reflexivity].
Qed.

Lemma envelope_is_never_empty_witness :
  exists r,
    ErrorNormalizer.buildEnvelope (Some "production") "2026-01-01T00:00:00.000Z" ∅
      (VStr "constructor") VUndefined (VStr "stack trace") (Some 404) = inr r
    /\ ErrorNormalizer.error r
       = {| ErrorNormalizer.code := VStr "constructor";
            ErrorNormalizer.message := Member "constructor";
            ErrorNormalizer.details := None |}.
Proof.
  pose proof (envelope_is_never_empty (Some "production") "2026-01-01T00:00:00.000Z" ∅
                (VStr "constructor") VUndefined (VStr "stack trace") (Some 404)) as H.
  destruct (ErrorNormalizer.buildEnvelope _ _ _ _ _ _ _) as [thrown | r].
  - destruct H as (_ & _ & l & o & [=] & _).
  - exists r. split; [reflexivity |]. cbv zeta in H.
    destruct H as (_ & _ & _ & Hc & _ & _ & Hm & _ & _ & Hd).
    destruct (ErrorNormalizer.error r) as [c m d]. simpl in *.
    rewrite (Hc eq_refl) in *.
    rewrite (Hm eq_refl "constructor" eq_refl).
    rewrite (proj2 Hd (or_intror eq_refl)). reflexivity.
Defined.

(** ** From a thrown error to the response *)

Lemma errorNormalizer_sends NODE_ENV now σ err n :
  ErrorNormalizer.normalizeKnownShapes σ err = inr n ->
  ErrorNormalizer.truthy (ErrorNormalizer.n_code n) = true ->
  ErrorNormalizer.truthy_field (ErrorNormalizer.n_message n) = true ->
  ErrorNormalizer.n_status n <> 0 ->
  exists sent,
    ErrorNormalizer.errorNormalizer NODE_ENV now σ err = Resolved sent
    /\ ErrorNormalizer.httpStatus sent = ErrorNormalizer.n_status n
    /\ ErrorNormalizer.success (ErrorNormalizer.body sent) = false
    /\ ErrorNormalizer.code (ErrorNormalizer.error (ErrorNormalizer.body sent))
       = ErrorNormalizer.n_code n
    /\ ErrorNormalizer.message (ErrorNormalizer.error (ErrorNormalizer.body sent))
       = ErrorNormalizer.n_message n.
Proof.
  intros Hn Hc Hm Hs. unfold ErrorNormalizer.errorNormalizer. rewrite Hn.
  rewrite buildEnvelope_given by assumption.
  eexists. split; [reflexivity |]. simpl.
  split; [now apply num_or_nonzero |]. split; [reflexivity |].
  split; [now apply or_val_left | reflexivity].
Qed.

(** Whatever is sent has [success: false]. *)
Lemma errorNormalizer_success NODE_ENV now σ err sent :
  ErrorNormalizer.errorNormalizer NODE_ENV now σ err = Resolved sent ->
  ErrorNormalizer.success (ErrorNormalizer.body sent) = false.
Proof.
  unfold ErrorNormalizer.errorNormalizer.
  destruct (ErrorNormalizer.normalizeKnownShapes σ err) as [thrown | n]; [discriminate |].
  destruct (ErrorNormalizer.buildEnvelope _ _ _ _ _ _ _) as [thrown | r] eqn:Hb;
    [discriminate |].
  intros [= <-]. simpl.
  now destruct (buildEnvelope_well_formed _ _ _ _ _ _ _ _ Hb).
Qed.

(** X18. An [AppError] with a non-zero status, a non-empty code and a
    non-empty message is answered as it stands: the response has its
    status, and the envelope its code and its message. *)
Theorem AppError_is_answered_as_is (NODE_ENV : option string) (now : string)
    (σ : gmap positive (gmap string Value)) (a : AppError) :
  app_status a <> 0 ->
  truthy_str (app_code a) = true ->
  truthy_str (app_message a) = true ->
  exists sent,
    ErrorNormalizer.errorNormalizer NODE_ENV now σ (ThrowApp a) = Resolved sent
    /\ ErrorNormalizer.httpStatus sent = app_status a
    /\ ErrorNormalizer.success (ErrorNormalizer.body sent) = false
    /\ ErrorNormalizer.code (ErrorNormalizer.error (ErrorNormalizer.body sent))
       = VStr (app_code a)
    /\ ErrorNormalizer.message (ErrorNormalizer.error (ErrorNormalizer.body sent))
       = VStr (app_message a).
Proof.
  intros Hs Hc Hm.
  apply (errorNormalizer_sends NODE_ENV now σ (ThrowApp a)
           {| ErrorNormalizer.n_status := app_status a;
              ErrorNormalizer.n_code := VStr (app_code a);
              ErrorNormalizer.n_message := VStr (app_message a);
              ErrorNormalizer.n_details := default VUndefined (details a) |});
    [reflexivity | exact Hc | exact Hm | exact Hs].
Qed.

Lemma AppError_is_answered_as_is_witness :
  exists sent,
    ErrorNormalizer.errorNormalizer (Some "production") "2026-01-01T00:00:00.000Z" ∅
      (ThrowApp (NotFoundError (Some "Route GET /nowhere not found")))
    = Resolved sent
    /\ ErrorNormalizer.httpStatus sent = 404
    /\ ErrorNormalizer.code (ErrorNormalizer.error (ErrorNormalizer.body sent))
       = VStr "NOT_FOUND".
Proof.
  destruct (AppError_is_answered_as_is (Some "production") "2026-01-01T00:00:00.000Z" ∅
              (NotFoundError (Some "Route GET /nowhere not found")))
    as (sent & Hsent & Hstatus & _ & Hcode & _);
    [vm_compute; discriminate | reflexivity | reflexivity |].
  exists sent. split; [exact Hsent |]. split; [exact Hstatus | exact Hcode].
Defined.

Lemma normalize_without_answer σ e m v c v' :
  ServiceProxyError.response e = None ->
  ServiceProxyError.message e = Some m -> truthy_str m = true ->
  ServiceProxyError.status e = Some v -> v <> 0 ->
  ServiceProxyError.code e = Some c -> STATUS_BY_CODE !! c = Some v' ->
  ErrorNormalizer.normalizeKnownShapes σ (ThrowError e)
  = inr {| ErrorNormalizer.n_status := v;
           ErrorNormalizer.n_code := VStr c;
           ErrorNormalizer.n_message := VStr m;
           ErrorNormalizer.n_details := VUndefined |}.
Proof.
  intros Hr Hm Hmt Hs Hv Hc Ht.
  unfold ErrorNormalizer.normalizeKnownShapes, table_get. rewrite Hr, Hs, Hc, Hm, Ht.
  rewrite (STATUS_BY_CODE_key_nonempty c v' Ht).
  apply STATUS_BY_CODE_range in Ht. simpl. rewrite (truthy_num_nonzero v') by lia. simpl.
  rewrite (truthy_num_nonzero v) by assumption.
  unfold ErrorNormalizer.or_val. simpl. now rewrite Hmt.
Qed.

Lemma derived_error_sends NODE_ENV now σ e m v :
  ServiceProxyError.response e = None ->
  ServiceProxyError.message e = Some m -> truthy_str m = true ->
  ServiceProxyError.status e = Some v -> v <> 0 ->
  ServiceProxyError.code e = Some (deriveCodeFromMessage m (Some v)) ->
  exists sent,
    ErrorNormalizer.errorNormalizer NODE_ENV now σ (ThrowError e) = Resolved sent
    /\ ErrorNormalizer.httpStatus sent = v
    /\ ErrorNormalizer.code (ErrorNormalizer.error (ErrorNormalizer.body sent))
       = VStr (deriveCodeFromMessage m (Some v))
    /\ ErrorNormalizer.message (ErrorNormalizer.error (ErrorNormalizer.body sent)) = VStr m.
Proof.
  intros Hr Hm Hmt Hs Hv Hc.
  destruct (deriveCodeFromMessage_known m (Some v)) as (v' & t & Ht & _ & _ & _).
  destruct (errorNormalizer_sends NODE_ENV now σ (ThrowError e)
              {| ErrorNormalizer.n_status := v;
                 ErrorNormalizer.n_code := VStr (deriveCodeFromMessage m (Some v));
                 ErrorNormalizer.n_message := VStr m;
                 ErrorNormalizer.n_details := VUndefined |})
    as (sent & Hsent & Hstatus & _ & Hcode & Hmsg).
  - now apply (normalize_without_answer σ e m v _ v').
  - simpl. exact (STATUS_BY_CODE_key_nonempty _ _ Ht).
  - exact Hmt.
  - exact Hv.
  - exists sent. auto.
Qed.

Lemma classified_failure_sends (NODE_ENV : option string) (now : string)
    (σ : gmap positive (gmap string Value)) (name : string)
    (raw : ServiceProxyError.t) :
  let e := transformError name raw in
  ServiceProxyError.response e = None ->
  exists sent v c m,
    ErrorNormalizer.errorNormalizer NODE_ENV now σ (ThrowError e) = Resolved sent
    /\ ServiceProxyError.status e = Some v
    /\ ServiceProxyError.code e = Some c
    /\ ServiceProxyError.message e = Some m
    /\ (v = 503 \/ v = 504 \/ v = 502)
    /\ ErrorNormalizer.httpStatus sent = v
    /\ ErrorNormalizer.code (ErrorNormalizer.error (ErrorNormalizer.body sent)) = VStr c
    /\ ErrorNormalizer.message (ErrorNormalizer.error (ErrorNormalizer.body sent)) = VStr m.
Proof.
  cbv zeta.
  assert (Hgen : forall e m v,
            ServiceProxyError.response e = None ->
            ServiceProxyError.message e = Some m -> truthy_str m = true ->
            ServiceProxyError.status e = Some v -> v = 503 \/ v = 504 \/ v = 502 ->
            ServiceProxyError.code e = Some (deriveCodeFromMessage m (Some v)) ->
            exists sent v c m,
              ErrorNormalizer.errorNormalizer NODE_ENV now σ (ThrowError e) = Resolved sent
              /\ ServiceProxyError.status e = Some v
              /\ ServiceProxyError.code e = Some c
              /\ ServiceProxyError.message e = Some m
              /\ (v = 503 \/ v = 504 \/ v = 502)
              /\ ErrorNormalizer.httpStatus sent = v
              /\ ErrorNormalizer.code (ErrorNormalizer.error (ErrorNormalizer.body sent))
                 = VStr c
              /\ ErrorNormalizer.message (ErrorNormalizer.error (ErrorNormalizer.body sent))
                 = VStr m).
  { intros e m v Hr Hm Hmt Hs Hv Hc.
    destruct (derived_error_sends NODE_ENV now σ e m v Hr Hm Hmt Hs ltac:(lia) Hc)
      as (sent & Hsent & Hstatus & Hcode & Hmsg).
    exists sent, v, (deriveCodeFromMessage m (Some v)), m. auto 10. }
  destruct (network_code_dec raw) as [Hn | Hn].
  { rewrite transformError_network by assumption. intros _.
    eapply Hgen; try reflexivity. auto. }
  destruct (timeout_sign_dec raw) as [Ht | Ht].
  { rewrite transformError_timeout by assumption. intros _.
    eapply Hgen; try reflexivity. auto. }
  destruct (ServiceProxyError.response raw) as [r |] eqn:Hr.
  - rewrite (transformError_response name raw r) by assumption. discriminate.
  - rewrite transformError_other by assumption. intros _.
    eapply Hgen; try reflexivity; [| auto].
    now apply str_or_truthy.
Qed.

(** X19. A failure the classifier labelled without keeping an answer (a
    network error, a timeout, or a failure of no known kind) leaves the
    gateway as the classifier made it: the response has the classified
    status (503, 504 or 502), and the envelope the classified code and
    message. *)
Theorem classified_failure_reaches_the_client (NODE_ENV : option string) (now : string)
    (σ : gmap positive (gmap string Value)) (name : string)
    (raw : ServiceProxyError.t) :
  let e := transformError name raw in
  ServiceProxyError.response e = None ->
  exists sent v c m,
    ErrorNormalizer.errorNormalizer NODE_ENV now σ (ThrowError e) = Resolved sent
    /\ ServiceProxyError.status e = Some v
    /\ ServiceProxyError.code e = Some c
    /\ ServiceProxyError.message e = Some m
    /\ (v = 503 \/ v = 504 \/ v = 502)
    /\ ErrorNormalizer.httpStatus sent = v
    /\ ErrorNormalizer.code (ErrorNormalizer.error (ErrorNormalizer.body sent)) = VStr c
    /\ ErrorNormalizer.message (ErrorNormalizer.error (ErrorNormalizer.body sent)) = VStr m.
Proof. apply classified_failure_sends. Qed.

Lemma classified_failure_reaches_the_client_witness :
  exists sent,
    ErrorNormalizer.errorNormalizer None "2026-01-01T00:00:00.000Z" ∅
      (ThrowError (transformError "users" refused)) = Resolved sent
    /\ ErrorNormalizer.httpStatus sent = 503
    /\ ErrorNormalizer.code (ErrorNormalizer.error (ErrorNormalizer.body sent))
       = VStr "SERVICE_UNAVAILABLE".
Proof.
  destruct (classified_failure_reaches_the_client None "2026-01-01T00:00:00.000Z" ∅
              "users" refused eq_refl)
    as (sent & v & c & m & Hsent & Hv & Hc & _ & _ & Hstatus & Hcode & _).
  exists sent. split; [exact Hsent |].
  change (Some 503 = Some v) in Hv. injection Hv as <-.
  change (Some "SERVICE_UNAVAILABLE" = Some c) in Hc. injection Hc as <-.
  split; [exact Hstatus | exact Hcode].
Defined.

(** X20. An answer of a backend that already has the gateway's error
    shape, [{ success: false, error: { code, message } }] with a non-empty
    code and message, is forwarded: the response has the backend's status,
    and the envelope the backend's code and message. *)
Theorem upstream_envelope_is_forwarded (NODE_ENV : option string) (now : string)
    (σ : gmap positive (gmap string Value)) (e : ServiceProxyError.t)
    (r : ErrorResponse.t) (l l' : loc) (answer failure : gmap string Value)
    (c m : string) :
  ServiceProxyError.response e = Some r ->
  ErrorResponse.status r <> 0 ->
  ErrorResponse.data r = VRef l ->
  σ !! l = Some answer ->
  answer !! "success" = Some (VBool false) ->
  answer !! "error" = Some (VRef l') ->
  σ !! l' = Some failure ->
  failure !! "code" = Some (VStr c) -> truthy_str c = true ->
  failure !! "message" = Some (VStr m) -> truthy_str m = true ->
  exists sent,
    ErrorNormalizer.errorNormalizer NODE_ENV now σ (ThrowError e) = Resolved sent
    /\ ErrorNormalizer.httpStatus sent = ErrorResponse.status r
    /\ ErrorNormalizer.success (ErrorNormalizer.body sent) = false
    /\ ErrorNormalizer.code (ErrorNormalizer.error (ErrorNormalizer.body sent)) = VStr c
    /\ ErrorNormalizer.message (ErrorNormalizer.error (ErrorNormalizer.body sent)) = VStr m.
Proof.
  intros Hr Hs Hd Hl Hsucc Herr Hl' Hc Hct Hm Hmt.
  apply (errorNormalizer_sends NODE_ENV now σ (ThrowError e)
           {| ErrorNormalizer.n_status := ErrorResponse.status r;
              ErrorNormalizer.n_code := VStr c;
              ErrorNormalizer.n_message := VStr m;
              ErrorNormalizer.n_details :=
                ErrorNormalizer.or_val (default VUndefined (answer !! "details"))
                                       (default VUndefined (failure !! "details")) |});
    [| exact Hct | exact Hmt | exact Hs].
  unfold ErrorNormalizer.normalizeKnownShapes.
  rewrite Hr, (truthy_num_nonzero _ Hs), Hd. simpl.
  rewrite Hl, Hsucc, Herr. simpl. rewrite Hl', Hc, Hm. simpl.
  unfold ErrorNormalizer.or_val at 1 2. simpl. now rewrite Hct, Hmt.
Qed.

Lemma upstream_envelope_is_forwarded_witness :
  exists sent,
    ErrorNormalizer.errorNormalizer None "2026-01-01T00:00:00.000Z" upstream_store
      (ThrowError not_found_upstream) = Resolved sent
    /\ ErrorNormalizer.httpStatus sent = 404
    /\ ErrorNormalizer.code (ErrorNormalizer.error (ErrorNormalizer.body sent))
       = VStr "NOT_FOUND"
    /\ ErrorNormalizer.message (ErrorNormalizer.error (ErrorNormalizer.body sent))
       = VStr "No such item".
Proof.
  destruct (upstream_envelope_is_forwarded None "2026-01-01T00:00:00.000Z" upstream_store
              not_found_upstream (answered 404 (VRef 10%positive)) 10%positive 11%positive
              {[ "success" := VBool false; "error" := VRef 11%positive ]}
              {[ "code" := VStr "NOT_FOUND"; "message" := VStr "No such item" ]}
              "NOT_FOUND" "No such item")
    as (sent & Hsent & Hstatus & _ & Hcode & Hmsg);
    try reflexivity; [simpl; lia |].
  exists sent. auto.
Defined.








(** X22. A logical call on a constructed proxy, with a budget of at least
    0, that fails throws the classified error of a raw failure; when the
    classifier kept no answer on it, the gateway's error handler answers
    with the classified status, 503, 504 or 502, and [success: false]. *)
Theorem failed_call_is_answered (NODE_ENV : option string) (stamp : string)
    (σ : gmap positive (gmap string Value)) (net : Adapter) (name : string)
    (cfg : ServiceProxyConfig.t) (w : World)
    (method path : string) (options : RequestOptions) (thrown : Thrown) :
  let p := ServiceProxy_new net name cfg in
  let s := {| self := p; world := w |} in
  0 <= retries_of options p ->
  fst (request method path options s) = Rejected thrown ->
  exists raw,
    thrown = ThrowError (transformError name raw)
    /\ (ServiceProxyError.response (transformError name raw) = None ->
        exists sent v,
          ErrorNormalizer.errorNormalizer NODE_ENV stamp σ thrown = Resolved sent
          /\ ServiceProxyError.status (transformError name raw) = Some v
          /\ (v = 503 \/ v = 504 \/ v = 502)
          /\ ErrorNormalizer.httpStatus sent = v
          /\ ErrorNormalizer.success (ErrorNormalizer.body sent) = false).
Proof.
  cbv zeta. intros Hr Hthrown. rewrite request_eq in Hthrown.
  simpl self in Hthrown. simpl world in Hthrown. simpl now in Hthrown.
  destruct (loop_final
              (requestConfig_of method path options (ServiceProxy_new net name cfg))
              (retries_of options (ServiceProxy_new net name cfg)) (now w)
              {| attempt := 0; lastError := None |}
              {| self := ServiceProxy_new net name cfg; world := w |} Hr)
    as (last & _ & _ & Hend).
  rewrite Hthrown in Hend.
  simpl self in Hend. rewrite settled_new in Hend.
  destruct (outcome (net last _)) as [response | raw].
  - destruct Hend as (w' & Hres). discriminate.
  - injection Hend as ->.
    exists raw. split; [reflexivity |]. intros Hnone.
    destruct (classified_failure_sends NODE_ENV stamp σ name raw Hnone)
      as (sent & v & c & m & Hsent & Hv & _ & _ & Hkind & Hstatus & _ & _).
    exists sent, v.
    split; [exact Hsent |]. split; [exact Hv |]. split; [exact Hkind |].
    split; [exact Hstatus |].
    exact (errorNormalizer_success _ _ _ _ _ Hsent).
Qed.

Lemma failed_call_is_answered_witness :
  exists sent,
    ErrorNormalizer.errorNormalizer (Some "production") "2026-01-01T00:00:00.000Z" ∅
      (ThrowError (transformError "users" refused)) = Resolved sent
    /\ ErrorNormalizer.httpStatus sent = 503.
Proof.
  destruct (failed_call_is_answered (Some "production") "2026-01-01T00:00:00.000Z" ∅
              (net_failing refused) "users"
              {| ServiceProxyConfig.baseUrl := "http://users:3001";
                 ServiceProxyConfig.timeout := 3000;
                 ServiceProxyConfig.retries := 3;
                 ServiceProxyConfig.headers := ∅ |}
              {| now := 0; log := [] |} "GET" "/api/users" no_options
              (ThrowError (transformError "users" refused)))
    as (raw & Hraw & Hsent); [vm_compute; discriminate | reflexivity |].
  destruct Hsent as (sent & v & Hsent & Hv & _ & Hstatus & _).
  { now injection Hraw as <-. }
  exists sent. split; [exact Hsent |].
  rewrite Hstatus. injection Hraw as Hraw. rewrite <- Hraw in Hv.
  now injection Hv as <-.
Defined.

(** X23. The two catch-all middlewares: a request no route matches is
    answered 404 with code [NOT_FOUND], and a request whose method no route
    accepts 405 with code [METHOD_NOT_ALLOWED], both with [success: false]
    and a message that names the method and the URL. *)
Theorem unmatched_requests_are_answered (NODE_ENV : option string) (stamp : string)
    (σ : gmap positive (gmap string Value)) (method originalUrl : string) :
  (exists sent,
     ErrorNormalizer.errorNormalizer NODE_ENV stamp σ (ThrowApp (notFound method originalUrl))
     = Resolved sent
     /\ ErrorNormalizer.httpStatus sent = 404
     /\ ErrorNormalizer.success (ErrorNormalizer.body sent) = false
     /\ ErrorNormalizer.code (ErrorNormalizer.error (ErrorNormalizer.body sent))
        = VStr ERROR_CODES.NOT_FOUND
     /\ ErrorNormalizer.message (ErrorNormalizer.error (ErrorNormalizer.body sent))
        = VStr ("Route " ++ method ++ " " ++ originalUrl ++ " not found")%string)
  /\ (exists sent,
     ErrorNormalizer.errorNormalizer NODE_ENV stamp σ
       (ThrowApp (methodResolver method originalUrl))
     = Resolved sent
     /\ ErrorNormalizer.httpStatus sent = 405
     /\ ErrorNormalizer.success (ErrorNormalizer.body sent) = false
     /\ ErrorNormalizer.code (ErrorNormalizer.error (ErrorNormalizer.body sent))
        = VStr ERROR_CODES.METHOD_NOT_ALLOWED
     /\ ErrorNormalizer.message (ErrorNormalizer.error (ErrorNormalizer.body sent))
        = VStr ("Method " ++ method ++ " not allowed for " ++ originalUrl)%string).
Proof.
  split.
  - apply (errorNormalizer_sends NODE_ENV stamp σ (ThrowApp (notFound method originalUrl))
             {| ErrorNormalizer.n_status := 404;
                ErrorNormalizer.n_code := VStr ERROR_CODES.NOT_FOUND;
                ErrorNormalizer.n_message :=
                  VStr ("Route " ++ method ++ " " ++ originalUrl ++ " not found")%string;
                ErrorNormalizer.n_details := VUndefined |});
      [reflexivity | reflexivity | reflexivity | discriminate].
  - apply (errorNormalizer_sends NODE_ENV stamp σ
             (ThrowApp (methodResolver method originalUrl))
             {| ErrorNormalizer.n_status := 405;
                ErrorNormalizer.n_code := VStr ERROR_CODES.METHOD_NOT_ALLOWED;
                ErrorNormalizer.n_message :=
                  VStr ("Method " ++ method ++ " not allowed for " ++ originalUrl)%string;
                ErrorNormalizer.n_details := VUndefined |});
      [reflexivity | reflexivity | reflexivity | discriminate].
Qed.

(** X24. On a constructed proxy a failed probe always names its failure:
    the unhealthy result carries a non-empty error text, which is
    "Service <name> is unavailable" when the connection was refused or the
    host not found, and "Request to <name> timed out" when the probe timed
    out. *)
Theorem unhealthy_probe_names_the_failure (net : Adapter) (name : string)
    (cfg : ServiceProxyConfig.t) (w : World) (raw : ServiceProxyError.t) :
  let s := {| self := ServiceProxy_new net name cfg; world := w |} in
  outcome (net (issued w) health_request) = inr raw ->
  exists h m,
    fst (healthCheck s) = Resolved h
    /\ health_status h = unhealthy
    /\ health_error h = Some m
    /\ truthy_str m = true
    /\ (network_code raw -> m = ("Service " ++ name ++ " is unavailable")%string)
    /\ (~ network_code raw -> timeout_sign raw ->
        m = ("Request to " ++ name ++ " timed out")%string).
Proof.
  cbv zeta. intros Hraw.
  destruct (transformError_shape name raw) as (m & v & Hshape & Hm).
  unfold healthCheck, axios_get, axios_request. fold health_request.
  simpl self. simpl world. rewrite settled_new, Hraw.
  eexists; exists m. split; [reflexivity |]. simpl.
  split; [reflexivity |]. split; [now rewrite Hshape |]. split; [exact Hm |].
  split.
  - intros Hn. rewrite (transformError_network name raw Hn) in Hshape.
    now injection Hshape as <-.
  - intros Hn Ht. rewrite (transformError_timeout name raw Hn Ht) in Hshape.
    now injection Hshape as <-.
Qed.

Lemma unhealthy_probe_names_the_failure_witness :
  exists h,
    fst (healthCheck (test_proxy (net_failing timed_out))) = Resolved h
    /\ health_error h = Some "Request to testService timed out".
Proof.
  destruct (unhealthy_probe_names_the_failure (net_failing timed_out) "testService"
              test_config {| now := 0; log := [] |} timed_out eq_refl)
    as (h & m & Hh & _ & He & _ & _ & Ht).
  exists h. split; [exact Hh |]. rewrite He. f_equal. apply Ht.
  - intros [H | H]; discriminate.
  - right. exists "timeout of 5000ms exceeded". split; reflexivity.
Defined.

(** ** The service's name in the classified message *)

Lemma toLowerCase_app (a b : string) :
  toLowerCase (a ++ b) = (toLowerCase a ++ toLowerCase b)%string.
Proof. induction a as [| c a IH]; simpl; [reflexivity | now rewrite IH]. Qed.

Lemma prefix_app (p : string) : forall m b : string,
  String.prefix p m = true -> String.prefix p (m ++ b) = true.
Proof.
  induction p as [| a p IH]; intros m b H; [now destruct (m ++ b)%string |].
  destruct m as [| c m]; [discriminate |]. simpl in *.
  destruct (ascii_dec a c); [now apply IH | discriminate].
Qed.

Lemma prefix_app_false (p : string) : forall m b : string,
  forallb (fun y => negb (truthy_str y && String.prefix y b)) (suffixes p) = true ->
  String.prefix p m = false -> String.prefix p (m ++ b) = false.
Proof.
  induction p as [| a p IH]; intros m b Hclear H; [now destruct m |].
  simpl suffixes in Hclear. simpl forallb in Hclear.
  apply andb_prop in Hclear as [Hhere Hrest].
  destruct m as [| c m].
  - apply negb_true_iff in Hhere. exact Hhere.
  - simpl in *. destruct (ascii_dec a c); [now apply IH | reflexivity].
Qed.

Lemma includes_app_r (p n b : string) :
  includes p n = true -> includes p (n ++ b) = true.
Proof.
  induction n as [| c n IH]; intros H.
  - destruct p; [now destruct b | discriminate].
  - change (includes p (String c n))
      with (if String.prefix p (String c n) then true else includes p n) in H.
    change (includes p (String c n ++ b))
      with (if String.prefix p (String c n ++ b) then true else includes p (n ++ b)).
    destruct (String.prefix p (String c n)) eqn:Hp.
    + now rewrite (prefix_app p (String c n) b Hp).
    + rewrite (IH H). now destruct (String.prefix p (String c n ++ b)).
Qed.

Lemma includes_app_false (p n b : string) :
  clear_of p b = true -> includes p n = false -> includes p (n ++ b) = false.
Proof.
  unfold clear_of. intros Hclear. apply andb_prop in Hclear as [Hb Hclear].
  apply negb_true_iff in Hb.
  induction n as [| c n IH]; intros H; [exact Hb |].
  change (includes p (String c n))
    with (if String.prefix p (String c n) then true else includes p n) in H.
  change (includes p (String c n ++ b))
    with (if String.prefix p (String c n ++ b) then true else includes p (n ++ b)).
  destruct (String.prefix p (String c n)) eqn:Hp; [discriminate |].
  now rewrite (prefix_app_false p (String c n) b Hclear Hp), (IH H).
Qed.

Lemma includes_before (p n b : string) :
  clear_of p b = true -> includes p (n ++ b) = includes p n.
Proof.
  intros Hclear. destruct (includes p n) eqn:H.
  - now apply includes_app_r.
  - now apply includes_app_false.
Qed.

(** In the two messages the classifier writes, a pattern occurs exactly
    when it occurs in the service's name. *)
Ltac framed_pattern Hin b :=
  unfold patterns in Hin;
  repeat (apply elem_of_cons in Hin as [-> | Hin];
          [etransitivity; [| apply (includes_before _ _ b); vm_compute; reflexivity];
           reflexivity |]);
  now apply elem_of_nil in Hin.

Lemma includes_unavailable (p name : string) :
  p ∈ patterns ->
  includes p (toLowerCase ("Service " ++ name ++ " is unavailable"))
  = includes p (toLowerCase name).
Proof.
  intros Hin. rewrite !toLowerCase_app.
  change (toLowerCase "Service ") with "service ".
  change (toLowerCase " is unavailable") with " is unavailable".
  generalize (toLowerCase name). intros n.
  framed_pattern Hin " is unavailable".
Qed.

Lemma includes_timed_out (p name : string) :
  p ∈ patterns ->
  includes p (toLowerCase ("Request to " ++ name ++ " timed out"))
  = includes p (toLowerCase name).
Proof.
  intros Hin. rewrite !toLowerCase_app.
  change (toLowerCase "Request to ") with "request to ".
  change (toLowerCase " timed out") with " timed out".
  generalize (toLowerCase name). intros n.
  framed_pattern Hin " timed out".
Qed.

Ltac in_patterns := unfold patterns; listed.

Lemma derive_from_name (pre post name : string) (status : Z) :
  truthy_str (pre ++ name ++ post) = true ->
  (forall p, p ∈ patterns ->
     includes p (toLowerCase (pre ++ name ++ post)) = includes p (toLowerCase name)) ->
  (pattern_free name = true ->
   deriveCodeFromMessage (pre ++ name ++ post) (Some status)
   = mapStatusToDefaultCode (num_or (Some status) 500))
  /\ (pattern_free name = false ->
      exists c, c ∈ [ERROR_CODES.DUPLICATE_KEY; ERROR_CODES.VALIDATION_ERROR;
                     ERROR_CODES.NOT_FOUND; ERROR_CODES.TIMEOUT;
                     ERROR_CODES.AUTH_REQUIRED; ERROR_CODES.FORBIDDEN;
                     ERROR_CODES.RATE_LIMITED]
                /\ deriveCodeFromMessage (pre ++ name ++ post) (Some status) = c).
Proof.
  intros Htruthy Hframe. unfold deriveCodeFromMessage, pattern_free, patterns.
  rewrite Htruthy. cbv zeta. cbn [negb forallb].
  rewrite !Hframe by in_patterns.
  generalize (toLowerCase name). intros n.
  repeat match goal with
         | |- context [includes ?p n] => destruct (includes p n)
         end;
    cbn [negb andb orb]; (split; intros H; [try discriminate H; try reflexivity |
                                             try discriminate H]);
    eexists; (split; [| reflexivity]); listed.
Qed.

(** X25. The code of a classified failure depends on the service's name,
    because it is derived from a message that contains the name. A network
    failure always gets status 503, and the code [SERVICE_UNAVAILABLE]
    exactly when the lowercased name contains none of the patterns
    [deriveCodeFromMessage] looks for; a name that contains one (such as
    "auth") gets that pattern's code with status 503. A timeout always gets
    status 504, and the code [TIMEOUT] when the name contains none of the
    patterns. *)
Theorem service_name_decides_the_code (name : string) (raw : ServiceProxyError.t) :
  let e := transformError name raw in
  (network_code raw ->
   ServiceProxyError.status e = Some 503
   /\ (ServiceProxyError.code e = Some ERROR_CODES.SERVICE_UNAVAILABLE
       <-> pattern_free name = true)
   /\ (pattern_free name = false ->
       exists c, ServiceProxyError.code e = Some c
                 /\ c ∈ [ERROR_CODES.DUPLICATE_KEY; ERROR_CODES.VALIDATION_ERROR;
                         ERROR_CODES.NOT_FOUND; ERROR_CODES.TIMEOUT;
                         ERROR_CODES.AUTH_REQUIRED; ERROR_CODES.FORBIDDEN;
                         ERROR_CODES.RATE_LIMITED]))
  /\ (~ network_code raw -> timeout_sign raw ->
      ServiceProxyError.status e = Some 504
      /\ (pattern_free name = true ->
          ServiceProxyError.code e = Some ERROR_CODES.TIMEOUT)).
Proof.
  cbv zeta. split.
  - intros Hn. rewrite (transformError_network name raw Hn).
    cbn [ServiceProxyError.status ServiceProxyError.code].
    destruct (derive_from_name "Service " " is unavailable" name 503 eq_refl
                (fun p Hp => includes_unavailable p name Hp)) as [Hfree Hnot].
    split; [reflexivity |]. split.
    + destruct (pattern_free name).
      * split; [reflexivity |]. intros _. now rewrite Hfree.
      * split; [| discriminate]. intros [= Hcode].
        destruct (Hnot eq_refl) as (c & Hin & Hc). rewrite Hcode in Hc. subst c.
        repeat (apply elem_of_cons in Hin as [Hin | Hin]; [discriminate Hin |]).
        now apply elem_of_nil in Hin.
    + intros Hfalse. destruct (Hnot Hfalse) as (c & Hin & Hc).
      exists c. split; [now rewrite Hc | exact Hin].
  - intros Hn Ht. rewrite (transformError_timeout name raw Hn Ht).
    cbn [ServiceProxyError.status ServiceProxyError.code].
    destruct (derive_from_name "Request to " " timed out" name 504 eq_refl
                (fun p Hp => includes_timed_out p name Hp)) as [Hfree _].
    split; [reflexivity |]. intros Hpf. now rewrite (Hfree Hpf).
Qed.

Lemma service_name_decides_the_code_witness :
  ServiceProxyError.status (transformError "auth" refused) = Some 503
  /\ ServiceProxyError.code (transformError "auth" refused)
     <> Some ERROR_CODES.SERVICE_UNAVAILABLE
  /\ ServiceProxyError.code (transformError "users" timed_out) = Some ERROR_CODES.TIMEOUT.
Proof.
  destruct (service_name_decides_the_code "auth" refused) as [Hnet _].
  destruct (service_name_decides_the_code "users" timed_out) as [_ Htime].
  destruct Hnet as (Hstatus & Hcode & _); [left; reflexivity |].
  destruct Htime as (_ & Hfree).
  { intros [H | H]; discriminate. }
  { right. exists "timeout of 5000ms exceeded". split; reflexivity. }
  split; [exact Hstatus |]. split.
  - intros H. apply Hcode in H. vm_compute in H. discriminate.
  - apply Hfree. reflexivity.
Defined.
